(** * Interaction patterns, drawers and the YouTube API loader

    A shallow embedding of the headless interaction patterns of the component
    library (menu, menubar, menu trigger, menu item, tablist, tab, tree item),
    of the drawer and its container, and of the YouTube API loader service,
    followed by the properties proved about them.

    Objects are named by numbers (object identity, compared with [===] in the
    source).  Signals that the patterns only read are fields of an immutable
    layout; signals and fields they write live in an explicit state that every
    operation threads through.  Loops whose termination depends on the shape
    of the object graph take fuel and return [None] when it runs out. *)

From Stdlib Require Import ZArith Lia Ascii String List Bool Relations Wellfounded.
From stdpp Require Import base option list gmap.
From stdpp Require strings.

Set Warnings "-clear-no-such-hyp".

Local Open Scope Z_scope.

(** ** Keys, text direction and the keyboard event manager *)
Module Keys.

Inductive TextDirection := ltr | rtl.

Inductive Orientation := vertical | horizontal.

(** What a handler is registered under with [.on(key, handler)]: a key name
    (a literal or the current value of a signal), or the typeahead regular
    expression [/^.$/]. *)
Inductive KeyMatcher :=
  | KeyIs (k : string)
  | KeyRegexp_single_char.

(** The characters [.] does not match in a JavaScript regular expression
    without the [s] flag, among the ASCII ones. *)
Definition is_line_terminator (c : ascii) : bool :=
  (nat_of_ascii c =? 10)%nat || (nat_of_ascii c =? 13)%nat.

Definition key_matches (km : KeyMatcher) (key : string) : bool :=
  match km with
  | KeyIs k => String.eqb k key
  | KeyRegexp_single_char =>
      match key with
      | String c EmptyString => negb (is_line_terminator c)
      | _ => false
      end
  end.

(** Modelled from the spec: [KeyboardEventManager] (behaviors/event-manager,
    imported by every pattern but not part of the files modelled here).  The handlers
    "dispatch to small per-key behaviors": [handle] walks the registered
    entries in registration order and runs the behaviour of each entry whose
    key matches the key of the event (pressed without modifiers).  A key given
    as a signal is read when the event is matched, so a matcher is a function
    of the current state; a behaviour receives the key of the event and may
    fail to return (out of fuel). *)
Fixpoint handle {S : Type}
    (configs : list ((S -> KeyMatcher) * (string -> S -> option S)))
    (key : string) (s : S) : option S :=
  match configs with
  | [] => Some s
  | (km, behaviour) :: rest =>
      if key_matches (km s) key
      then match behaviour key s with
           | Some s' => handle rest key s'
           | None => None
           end
      else handle rest key s
  end.

End Keys.

(** ** The list behaviours shared by the patterns *)
Module ListBehaviors.

(** Modelled from the spec: [ListFocus.getItemTabIndex] (behaviors/list-focus,
    reached through [listBehavior.getItemTabindex] and
    [focusBehavior.getItemTabIndex]; not part of the files modelled here).  Roving tabindex:
    "only one item in a widget is tab-focusable at a time" -- the active item
    of the list gets 0 and every other item -1. *)
Definition getItemTabIndex (activeItem : option nat) (item : nat) : Z :=
  if bool_decide (activeItem = Some item) then 0 else -1.

(** Modelled from the spec: what the patterns may rely on when they call the
    [getItemTabIndex] of a list they are given (the function itself is in
    behaviors/list-focus).  Roving tabindex, "only one item in a widget is
    tab-focusable at a time": whatever else the function looks at, it gives
    0 to no item but the active one, and -1 to every item it does not give
    0. *)
Definition roving (getItemTabIndex : option nat -> nat -> Z) : Prop :=
  forall activeItem item,
    (getItemTabIndex activeItem item = 0 /\ activeItem = Some item)
    \/ getItemTabIndex activeItem item = -1.

End ListBehaviors.

(** ** Tabs: [TabListPattern] and [TabPattern] *)
Module Tabs.
Import Keys.

Inductive SelectionMode := follow | explicit.

(** [TabListInputs], with the [value] input of each tab of the list. *)
Record TabListInputs := {
  items : list nat;
  tab_value : nat -> string;
  orientation : Orientation;
  textDirection : TextDirection;
  selectionMode : SelectionMode;
  disabled : bool;
}.

(** The behaviours the tablist is composed of ([ListFocus], [ListNavigation],
    [ListExpansion]) are imported from behaviors/ and are not among the
    sources: they are parameters.  [ListFocus] decides which tabs can take
    focus and what tab index a tab gets, from the inputs of the list and its
    active item; a navigation step moves the active item and reports
    success; [ListExpansion.open] acts on the [expanded] signals of the tabs,
    whose joint state has the abstract type [E]. *)
Record Behaviors (E : Type) := {
  isFocusable : nat -> bool;
  getItemTabIndex : TabListInputs -> option nat -> nat -> Z;
  expansion_open : nat -> E -> bool * E;
  nav_prev : TabListInputs -> option nat -> bool * option nat;
  nav_next : TabListInputs -> option nat -> bool * option nat;
  nav_first : TabListInputs -> option nat -> bool * option nat;
  nav_last : TabListInputs -> option nat -> bool * option nat;
}.
Arguments isFocusable {E}.
Arguments getItemTabIndex {E}.
Arguments expansion_open {E}.
Arguments nav_prev {E}.
Arguments nav_next {E}.
Arguments nav_first {E}.
Arguments nav_last {E}.

(** The writable signals: [inputs.activeItem], [selectedTab] and the
    [expanded] signals of the tabs. *)
Record TabListState (E : Type) := {
  activeItem : option nat;
  selectedTab : option nat;
  expansion : E;
}.
Arguments activeItem {E}.
Arguments selectedTab {E}.
Arguments expansion {E}.

Section Patterns.
Context {E : Type}.
Variable B : Behaviors E.
Variable inputs : TabListInputs.

Definition set_activeItem (t : nat) (st : TabListState E) : TabListState E :=
  {| activeItem := Some t; selectedTab := selectedTab st; expansion := expansion st |}.

Definition set_selectedTab (t : nat) (st : TabListState E) : TabListState E :=
  {| activeItem := activeItem st; selectedTab := Some t; expansion := expansion st |}.

Definition set_expansion (e : E) (st : TabListState E) : TabListState E :=
  {| activeItem := activeItem st; selectedTab := selectedTab st; expansion := e |}.

(** [TabPattern.active], [TabPattern.selected] and [TabPattern.tabIndex]. *)
Definition active (st : TabListState E) (t : nat) : bool :=
  bool_decide (activeItem st = Some t).

Definition selected (st : TabListState E) (t : nat) : bool :=
  bool_decide (selectedTab st = Some t).

Definition tabIndex (st : TabListState E) (t : nat) : Z :=
  getItemTabIndex B inputs (activeItem st) t.

Definition followFocus : bool :=
  match selectionMode inputs with follow => true | explicit => false end.

(** [TabListPattern.prevKey] and [TabListPattern.nextKey]. *)
Definition prevKey : string :=
  match orientation inputs with
  | vertical => "ArrowUp"
  | horizontal =>
      match textDirection inputs with rtl => "ArrowRight" | ltr => "ArrowLeft" end
  end.

Definition nextKey : string :=
  match orientation inputs with
  | vertical => "ArrowDown"
  | horizontal =>
      match textDirection inputs with rtl => "ArrowLeft" | ltr => "ArrowRight" end
  end.

(** [TabListPattern.setDefaultState]: the [for] loop over the items, with the
    local [firstItem]; the [return] inside the loop ends it. *)
Fixpoint setDefaultState_loop (l : list nat) (firstItem : option nat)
    (st : TabListState E) : TabListState E :=
  match l with
  | [] =>
      match firstItem with
      | Some f => set_activeItem f st
      | None => st
      end
  | item :: rest =>
      if negb (isFocusable B item) then setDefaultState_loop rest firstItem st
      else
        let firstItem' := match firstItem with None => Some item | Some f => Some f end in
        if selected st item then set_activeItem item st
        else setDefaultState_loop rest firstItem' st
  end.

Definition setDefaultState (st : TabListState E) : TabListState E :=
  setDefaultState_loop (items inputs) None st.

(** The argument of [TabListPattern.open]: a tab, a value, or nothing. *)
Inductive OpenArg :=
  | ArgTab (t : nat)
  | ArgValue (v : string)
  | ArgNone.

(** [TabListPattern.open]: returns the boolean and the new state. *)
Definition open (arg : OpenArg) (st : TabListState E) : bool * TabListState E :=
  let tab :=
    match arg with
    | ArgNone => match activeItem st with Some t => ArgTab t | None => ArgNone end
    | _ => arg
    end in
  let tab :=
    match tab with
    | ArgValue v => List.find (fun t => String.eqb (tab_value inputs t) v) (items inputs)
    | ArgTab t => Some t
    | ArgNone => None
    end in
  match tab with
  | None => (false, st)
  | Some t =>
      let (success, e) := expansion_open B t (expansion st) in
      let st := set_expansion e st in
      (success, if success then set_selectedTab t st else st)
  end.

(** [TabPattern.open]. *)
Definition tab_open (t : nat) (st : TabListState E) : bool * TabListState E :=
  open (ArgTab t) st.

(** [TabListPattern._navigate]. *)
Definition _navigate (op : option nat -> bool * option nat) (shouldExpand : bool)
    (st : TabListState E) : TabListState E :=
  let (success, a) := op (activeItem st) in
  let st := {| activeItem := a; selectedTab := selectedTab st; expansion := expansion st |} in
  if success && shouldExpand then snd (open ArgNone st) else st.

(** [TabListPattern.keydown] and [TabListPattern.onKeydown]. *)
Definition keydown :
    list ((TabListState E -> KeyMatcher) * (string -> TabListState E -> option (TabListState E))) :=
  [ (fun _ => KeyIs prevKey, fun _ st => Some (_navigate (nav_prev B inputs) followFocus st));
    (fun _ => KeyIs nextKey, fun _ st => Some (_navigate (nav_next B inputs) followFocus st));
    (fun _ => KeyIs "Home", fun _ st => Some (_navigate (nav_first B inputs) followFocus st));
    (fun _ => KeyIs "End", fun _ st => Some (_navigate (nav_last B inputs) followFocus st));
    (fun _ => KeyIs " ", fun _ st => Some (snd (open ArgNone st)));
    (fun _ => KeyIs "Enter", fun _ st => Some (snd (open ArgNone st))) ].

Definition onKeydown (key : string) (st : TabListState E) : option (TabListState E) :=
  if negb (disabled inputs) then handle keydown key st else Some st.

End Patterns.

End Tabs.

(** ** Trees: the part of [TreeItemPattern] that decides its tab index *)
Module Tree.

(** The writable [activeItem] signal of the tree an item belongs to; the
    tree's [listBehavior] reads it. *)
Record TreeState := {
  activeItem : option nat;
}.

(** [TreeItemPattern.active]. *)
Definition active (st : TreeState) (item : nat) : bool :=
  bool_decide (activeItem st = Some item).

(** [TreeItemPattern.tabIndex]: the answer of [getItemTabindex] of the
    tree's list behaviour, a parameter like the list itself. *)
Definition tabIndex (getItemTabindex : option nat -> nat -> Z) (st : TreeState)
    (item : nat) : Z :=
  getItemTabindex (activeItem st) item.

End Tree.

(** ** Drawers: [MatDrawer] and the validation of [MatDrawerContainer] *)
Module Drawer.

(** [Exclude<FocusOrigin, null>]; [null] and [undefined] are [None]. *)
Inductive FocusOrigin := touch | mouse | keyboard | program.

Inductive MatDrawerToggleResult := result_open | result_close.

Inductive MatDrawerMode := over | push | side.

(** The values the [autoFocus] getter can return. *)
Inductive AutoFocus :=
  | AF_bool (b : bool)
  | AF_dialog
  | AF_first_tabbable
  | AF_first_heading
  | AF_selector (css : string).

(** What a drawer reads of its container. *)
Record Container := {
  _transitionsEnabled : bool;
  hasBackdrop : bool;
}.

(** What a drawer reads and never writes: the injected container, if any, and
    [_isFocusWithinDrawer()], a fact of the document. *)
Record Env := {
  _container : option Container;
  focusWithinDrawer : bool;
}.

(** A call that moves focus: [_focusMonitor.focusVia(element, origin)] or
    [nativeElement.blur()]. *)
Inductive FocusMove :=
  | FocusVia (element : nat) (origin : FocusOrigin)
  | Blur.

(** The drawer's own state and the effects it has issued: the two CSS classes
    it toggles, the enabled flag of its focus trap when there is one, the
    number of queued [setTimeout] callbacks that will emit
    [_animationStarted] and [_animationEnd], the focus moves and the
    [markForCheck] calls. *)
Record MatDrawer := {
  _opened : bool;
  _openedVia : option FocusOrigin;
  _mode : MatDrawerMode;
  _autoFocus : option AutoFocus;
  _elementFocusedBeforeDrawerWasOpened : option nat;
  _focusTrap : option bool;
  class_opened : bool;
  class_animating : bool;
  animation_timeouts : nat;
  focus_moves : list FocusMove;
  marked_for_check : nat;
}.

(** The promise a toggle returns: already resolved, or resolved by the next
    [openedChange]. *)
Inductive Promise :=
  | Resolved (r : MatDrawerToggleResult)
  | OnNextOpenedChange.

Definition toggle_result (isOpen : bool) : MatDrawerToggleResult :=
  if isOpen then result_open else result_close.

Definition opened (d : MatDrawer) : bool := _opened d.

Definition set_opened (b : bool) (d : MatDrawer) : MatDrawer :=
  {| _opened := b; _openedVia := _openedVia d; _mode := _mode d;
     _autoFocus := _autoFocus d;
     _elementFocusedBeforeDrawerWasOpened := _elementFocusedBeforeDrawerWasOpened d;
     _focusTrap := _focusTrap d; class_opened := class_opened d;
     class_animating := class_animating d;
     animation_timeouts := animation_timeouts d; focus_moves := focus_moves d;
     marked_for_check := marked_for_check d |}.

Definition set_openedVia (v : option FocusOrigin) (d : MatDrawer) : MatDrawer :=
  {| _opened := _opened d; _openedVia := v; _mode := _mode d;
     _autoFocus := _autoFocus d;
     _elementFocusedBeforeDrawerWasOpened := _elementFocusedBeforeDrawerWasOpened d;
     _focusTrap := _focusTrap d; class_opened := class_opened d;
     class_animating := class_animating d;
     animation_timeouts := animation_timeouts d; focus_moves := focus_moves d;
     marked_for_check := marked_for_check d |}.

(** [get autoFocus]. *)
Definition autoFocus (d : MatDrawer) : AutoFocus :=
  match _autoFocus d with
  | None => match _mode d with side => AF_dialog | _ => AF_first_tabbable end
  | Some v => v
  end.

(** [MatDrawer._setIsAnimating]. *)
Definition _setIsAnimating (isAnimating : bool) (d : MatDrawer) : MatDrawer :=
  {| _opened := _opened d; _openedVia := _openedVia d; _mode := _mode d;
     _autoFocus := _autoFocus d;
     _elementFocusedBeforeDrawerWasOpened := _elementFocusedBeforeDrawerWasOpened d;
     _focusTrap := _focusTrap d; class_opened := class_opened d;
     class_animating := isAnimating;
     animation_timeouts := animation_timeouts d; focus_moves := focus_moves d;
     marked_for_check := marked_for_check d |}.

(** [MatDrawer._restoreFocus]. *)
Definition _restoreFocus (focusOrigin : FocusOrigin) (d : MatDrawer) : MatDrawer :=
  match autoFocus d with
  | AF_dialog => d
  | _ =>
      let move :=
        match _elementFocusedBeforeDrawerWasOpened d with
        | Some el => FocusVia el focusOrigin
        | None => Blur
        end in
      {| _opened := _opened d; _openedVia := _openedVia d; _mode := _mode d;
         _autoFocus := _autoFocus d;
         _elementFocusedBeforeDrawerWasOpened := None;
         _focusTrap := _focusTrap d; class_opened := class_opened d;
         class_animating := class_animating d;
         animation_timeouts := animation_timeouts d;
         focus_moves := focus_moves d ++ [move];
         marked_for_check := marked_for_check d |}
  end.

(** [MatDrawer._updateFocusTrapState]. *)
Definition _updateFocusTrapState (env : Env) (d : MatDrawer) : MatDrawer :=
  match _focusTrap d with
  | None => d
  | Some _ =>
      let backdrop := match _container env with Some c => hasBackdrop c | None => false end in
      {| _opened := _opened d; _openedVia := _openedVia d; _mode := _mode d;
         _autoFocus := _autoFocus d;
         _elementFocusedBeforeDrawerWasOpened := _elementFocusedBeforeDrawerWasOpened d;
         _focusTrap := Some (backdrop && opened d); class_opened := class_opened d;
         class_animating := class_animating d;
         animation_timeouts := animation_timeouts d; focus_moves := focus_moves d;
         marked_for_check := marked_for_check d |}
  end.

(** The [else] branch and the two statements after it in [_setOpen]:
    [setTimeout], [classList.toggle('mat-drawer-opened', isOpen)] and
    [markForCheck()]. *)
Definition schedule_animation (d : MatDrawer) : MatDrawer :=
  {| _opened := _opened d; _openedVia := _openedVia d; _mode := _mode d;
     _autoFocus := _autoFocus d;
     _elementFocusedBeforeDrawerWasOpened := _elementFocusedBeforeDrawerWasOpened d;
     _focusTrap := _focusTrap d; class_opened := class_opened d;
     class_animating := class_animating d;
     animation_timeouts := S (animation_timeouts d); focus_moves := focus_moves d;
     marked_for_check := marked_for_check d |}.

Definition toggle_class_opened (isOpen : bool) (d : MatDrawer) : MatDrawer :=
  {| _opened := _opened d; _openedVia := _openedVia d; _mode := _mode d;
     _autoFocus := _autoFocus d;
     _elementFocusedBeforeDrawerWasOpened := _elementFocusedBeforeDrawerWasOpened d;
     _focusTrap := _focusTrap d; class_opened := isOpen;
     class_animating := class_animating d;
     animation_timeouts := animation_timeouts d; focus_moves := focus_moves d;
     marked_for_check := marked_for_check d |}.

Definition markForCheck (d : MatDrawer) : MatDrawer :=
  {| _opened := _opened d; _openedVia := _openedVia d; _mode := _mode d;
     _autoFocus := _autoFocus d;
     _elementFocusedBeforeDrawerWasOpened := _elementFocusedBeforeDrawerWasOpened d;
     _focusTrap := _focusTrap d; class_opened := class_opened d;
     class_animating := class_animating d;
     animation_timeouts := animation_timeouts d; focus_moves := focus_moves d;
     marked_for_check := S (marked_for_check d) |}.

(** [MatDrawer._setOpen]. *)
Definition _setOpen (env : Env) (isOpen restoreFocus : bool) (focusOrigin : FocusOrigin)
    (d : MatDrawer) : Promise * MatDrawer :=
  if Bool.eqb isOpen (opened d) then (Resolved (toggle_result isOpen), d)
  else
    let d := set_opened isOpen d in
    let d :=
      match _container env with
      | Some c => if _transitionsEnabled c then _setIsAnimating true d else schedule_animation d
      | None => schedule_animation d
      end in
    let d := toggle_class_opened isOpen d in
    let d := if negb isOpen && restoreFocus then _restoreFocus focusOrigin d else d in
    let d := markForCheck d in
    let d := _updateFocusTrapState env d in
    (OnNextOpenedChange, d).

(** [MatDrawer.toggle]; an omitted [isOpen] defaults to [!this.opened]. *)
Definition toggle (env : Env) (isOpen : option bool) (openedVia : option FocusOrigin)
    (d : MatDrawer) : Promise * MatDrawer :=
  let isOpen := match isOpen with Some b => b | None => negb (opened d) end in
  let d :=
    match openedVia with
    | Some via => if isOpen then set_openedVia (Some via) d else d
    | None => d
    end in
  let (result, d) :=
    _setOpen env isOpen (negb isOpen && focusWithinDrawer env)
      (match _openedVia d with Some via => via | None => program end) d in
  let d := if negb isOpen then set_openedVia None d else d in
  (result, d).

(** [MatDrawer.open], [MatDrawer.close] and [MatDrawer._closeViaBackdropClick]. *)
Definition open (env : Env) (openedVia : option FocusOrigin) (d : MatDrawer) :
    Promise * MatDrawer :=
  toggle env (Some true) openedVia d.

Definition close (env : Env) (d : MatDrawer) : Promise * MatDrawer :=
  toggle env (Some false) None d.

Definition _closeViaBackdropClick (env : Env) (d : MatDrawer) : Promise * MatDrawer :=
  _setOpen env false true mouse d.

(** *** [MatDrawerContainer._validateDrawers] *)

Inductive Position := pos_start | pos_end.

Global Instance Position_eq_dec : EqDecision Position.
Proof. solve_decision. Defined.

Inductive Direction := dir_ltr | dir_rtl.

(** The four drawer references of the container. *)
Record Slots := {
  _start : option nat;
  _end : option nat;
  _left : option nat;
  _right : option nat;
}.

(** How the call ends: it returns, or [throwMatDuplicatedDrawerError] throws;
    either way the container is left in some state. *)
Inductive Outcome :=
  | Returned (c : Slots)
  | Threw (message : string) (c : Slots).

Definition position_name (p : Position) : string :=
  match p with pos_start => "start" | pos_end => "end" end.

Definition double_quote : string := String (ascii_of_nat 34) EmptyString.

(** [throwMatDuplicatedDrawerError]: the message of the [Error] it throws. *)
Definition throwMatDuplicatedDrawerError (position : string) : string :=
  ("A drawer was already declared for 'position=" ++ double_quote ++ position
     ++ double_quote ++ "'")%string.

(** [typeof ngDevMode === 'undefined' || ngDevMode], the global being
    undefined ([None]) or a boolean. *)
Definition devMode (ngDevMode : option bool) : bool :=
  match ngDevMode with None => true | Some b => b end.

(** The [forEach] over [_drawers]; a drawer is its identity and its
    [position]. *)
Fixpoint validate_each (ngDevMode : option bool) (drawers : list (nat * Position))
    (c : Slots) : Outcome :=
  match drawers with
  | [] => Returned c
  | (drawer, pos_end) :: rest =>
      if bool_decide (_end c <> None) && devMode ngDevMode
      then Threw (throwMatDuplicatedDrawerError "end") c
      else validate_each ngDevMode rest
             {| _start := _start c; _end := Some drawer; _left := _left c; _right := _right c |}
  | (drawer, pos_start) :: rest =>
      if bool_decide (_start c <> None) && devMode ngDevMode
      then Threw (throwMatDuplicatedDrawerError "start") c
      else validate_each ngDevMode rest
             {| _start := Some drawer; _end := _end c; _left := _left c; _right := _right c |}
  end.

Definition _validateDrawers (ngDevMode : option bool) (dir : option Direction)
    (drawers : list (nat * Position)) (c : Slots) : Outcome :=
  let c := {| _start := None; _end := None; _left := _left c; _right := _right c |} in
  match validate_each ngDevMode drawers c with
  | Threw m c => Threw m c
  | Returned c =>
      match dir with
      | Some dir_rtl =>
          Returned {| _start := _start c; _end := _end c; _left := _end c; _right := _start c |}
      | _ =>
          Returned {| _start := _start c; _end := _end c; _left := _start c; _right := _end c |}
      end
  end.

End Drawer.

(** ** The YouTube API loader: [YouTubeApiLoaderService] *)
Module YouTube.

Inductive Notification :=
  | N_next
  | N_complete
  | N_error (e : string).

(** rxjs's [ReplaySubject<void>(1)] as the service uses it: the replay
    buffer (at most one value), whether the subject is live, completed or
    errored ([isStopped], [hasError] and [thrownError]), and the
    notifications delivered so far to an observer subscribed from the start.
    Once stopped, a subject ignores [next], [complete] and [error]. *)
Inductive Status :=
  | Live
  | Completed
  | Errored (e : string).

Record ReplaySubject := {
  buffer : list unit;
  status : Status;
  delivered : list Notification;
}.

Definition new_ReplaySubject : ReplaySubject :=
  {| buffer := []; status := Live; delivered := [] |}.

Definition isStopped (s : ReplaySubject) : bool :=
  match status s with Live => false | _ => true end.

Definition next (s : ReplaySubject) : ReplaySubject :=
  if isStopped s then s
  else {| buffer := [tt]; status := status s; delivered := delivered s ++ [N_next] |}.

Definition complete (s : ReplaySubject) : ReplaySubject :=
  if isStopped s then s
  else {| buffer := buffer s; status := Completed;
          delivered := delivered s ++ [N_complete] |}.

Definition error (e : string) (s : ReplaySubject) : ReplaySubject :=
  if isStopped s then s
  else {| buffer := buffer s; status := Errored e;
          delivered := delivered s ++ [N_error e] |}.

(** What an observer receives when it subscribes now: the replayed buffer,
    then the error or the completion if the subject has stopped. *)
Definition subscribe (s : ReplaySubject) : list Notification :=
  map (fun _ => N_next) (buffer s) ++
  match status s with
  | Errored e => [N_error e]
  | Completed => [N_complete]
  | Live => []
  end.

(** A script element appended to the document by [load]. *)
Inductive Script := Pending | Loaded | Failed.

(** The service: its two fields and the script elements it has appended to
    [document.body], oldest first. *)
Record Service := {
  loaded : bool;
  loading : ReplaySubject;
  scripts : list Script;
}.

Definition new_Service : Service :=
  {| loaded := false; loading := new_ReplaySubject; scripts := [] |}.

Definition failure_message : string := "Failed to load YouTube API".

(** [load()]: the observable it returns is always the field [loading$]. *)
Definition load (s : Service) : ReplaySubject * Service :=
  if loaded s then (loading s, s)
  else
    let s := {| loaded := loaded s; loading := loading s; scripts := scripts s ++ [Pending] |} in
    (loading s, s).

(** [script.onload] of the [k]-th appended script; the browser fires one of
    [onload] and [onerror] once, for a script that is still pending. *)
Definition onload (k : nat) (s : Service) : Service :=
  match scripts s !! k with
  | Some Pending =>
      {| loaded := true; loading := complete (next (loading s));
         scripts := <[k := Loaded]> (scripts s) |}
  | _ => s
  end.

(** [script.onerror] of the [k]-th appended script. *)
Definition onerror (k : nat) (s : Service) : Service :=
  match scripts s !! k with
  | Some Pending =>
      {| loaded := false; loading := error failure_message (loading s);
         scripts := <[k := Failed]> (scripts s) |}
  | _ => s
  end.

(** What can happen to a service, and a run of such events. *)
Inductive Event :=
  | Call_load
  | Script_onload (k : nat)
  | Script_onerror (k : nat).

Definition step (s : Service) (e : Event) : Service :=
  match e with
  | Call_load => snd (load s)
  | Script_onload k => onload k s
  | Script_onerror k => onerror k s
  end.

Definition run (events : list Event) (s : Service) : Service :=
  fold_left step events s.

End YouTube.

(** ** Menus: [MenuPattern], [MenuItemPattern], [MenuBarPattern] and
    [MenuTriggerPattern] *)
Module Menu.
Import Keys.

(** [MenuItemInputs.parent]: the menu or the menubar an item belongs to. *)
Inductive Owner :=
  | OMenu (m : nat)
  | OBar (b : nat).

(** [MenuInputs.parent]: the trigger or the menu item that opens a menu. *)
Inductive MenuParent :=
  | PTrigger (t : nat)
  | PItem (i : nat).

(** What [MenuPattern.root] can return, besides [undefined]. *)
Inductive Root :=
  | RTrigger (t : nat)
  | RBar (b : nat)
  | RMenu (m : nat).

Global Instance Owner_eq_dec : EqDecision Owner.
Proof. solve_decision. Defined.

Global Instance Owner_countable : Countable Owner.
Proof.
  refine (inj_countable'
            (fun o => match o with OMenu m => inl m | OBar b => inr b end)
            (fun x => match x with inl m => OMenu m | inr b => OBar b end) _).
  intros []; reflexivity.
Defined.

(** The inputs the patterns only read: who is whose parent and submenu, the
    disabled flags, the text directions, whether an [onSelect] callback was
    given, the items of a menubar, and whether the [element] input of a
    trigger is defined.  The items of a menu are not among them: the close
    loops write to the array the [items] input of a menu holds, so those
    arrays are part of the state. *)
Record Layout := {
  item_parent : nat -> option Owner;
  item_submenu : nat -> option nat;
  item_disabled : nat -> bool;
  item_value : nat -> nat;
  menu_parent : nat -> option MenuParent;
  menu_disabled : nat -> bool;
  menu_textDirection : nat -> TextDirection;
  menu_onSelect : nat -> bool;
  bar_items : nat -> list nat;
  bar_disabled : nat -> bool;
  bar_textDirection : nat -> TextDirection;
  bar_onSelect : nat -> bool;
  trigger_menu : nat -> option nat;
  trigger_element : nat -> bool;
}.

(** What a hover timer runs when it fires: the callback of [_openItem] or of
    [_closeItem], of menu [m], for item [i]. *)
Inductive Callback :=
  | CbOpen (m i : nat)
  | CbClose (m i : nat).

(** Calls that leave the patterns: [onSelect(value)] of a root, and
    [element.focus()] of a trigger. *)
Inductive Effect :=
  | OnSelect (root : Root) (value : nat)
  | FocusTrigger (t : nat).

(** Everything the patterns write.  [expanded_items] holds the items whose
    [_expanded] signal is true, [trigger_expanded] the triggers whose
    [expanded] signal is; [activeItem] maps a menu or menubar to its active
    item (no entry: [undefined]); [typing] holds the lists whose typeahead is
    in progress ([listBehavior.isTyping()]); [_openTimeout] and
    [_closeTimeout] map a menu to the timer id it stores (no entry:
    [undefined]); [timers] is the browser's table of pending timeouts and
    [next_timer] the id [setTimeout] hands out next (ids are positive, so a
    stored id is truthy).  [menu_items m] is the array that [inputs.items()]
    of menu [m] returns: every read yields the same array object, and
    [pop()] on it removes its last element for all later reads. *)
Record State := {
  menu_items : nat -> list nat;
  expanded_items : gset nat;
  trigger_expanded : gset nat;
  activeItem : gmap Owner nat;
  typing : gset Owner;
  isFocused : gset Owner;
  hasBeenHovered : gset nat;
  _openTimeout : gmap nat nat;
  _closeTimeout : gmap nat nat;
  timers : gmap nat Callback;
  next_timer : nat;
  effects : list Effect;
}.

Definition set_expanded_items (x : gset nat) (s : State) : State :=
  {| menu_items := menu_items s; expanded_items := x;
     trigger_expanded := trigger_expanded s;
     activeItem := activeItem s; typing := typing s; isFocused := isFocused s;
     hasBeenHovered := hasBeenHovered s; _openTimeout := _openTimeout s;
     _closeTimeout := _closeTimeout s; timers := timers s;
     next_timer := next_timer s; effects := effects s |}.

Definition set_trigger_expanded (x : gset nat) (s : State) : State :=
  {| menu_items := menu_items s; expanded_items := expanded_items s;
     trigger_expanded := x;
     activeItem := activeItem s; typing := typing s; isFocused := isFocused s;
     hasBeenHovered := hasBeenHovered s; _openTimeout := _openTimeout s;
     _closeTimeout := _closeTimeout s; timers := timers s;
     next_timer := next_timer s; effects := effects s |}.

Definition set_list (a : gmap Owner nat) (t : gset Owner) (s : State) : State :=
  {| menu_items := menu_items s; expanded_items := expanded_items s;
     trigger_expanded := trigger_expanded s;
     activeItem := a; typing := t; isFocused := isFocused s;
     hasBeenHovered := hasBeenHovered s; _openTimeout := _openTimeout s;
     _closeTimeout := _closeTimeout s; timers := timers s;
     next_timer := next_timer s; effects := effects s |}.

Definition set_hasBeenHovered (x : gset nat) (s : State) : State :=
  {| menu_items := menu_items s; expanded_items := expanded_items s;
     trigger_expanded := trigger_expanded s;
     activeItem := activeItem s; typing := typing s; isFocused := isFocused s;
     hasBeenHovered := x; _openTimeout := _openTimeout s;
     _closeTimeout := _closeTimeout s; timers := timers s;
     next_timer := next_timer s; effects := effects s |}.

Definition set_timeouts (o c : gmap nat nat) (t : gmap nat Callback) (n : nat)
    (s : State) : State :=
  {| menu_items := menu_items s; expanded_items := expanded_items s;
     trigger_expanded := trigger_expanded s;
     activeItem := activeItem s; typing := typing s; isFocused := isFocused s;
     hasBeenHovered := hasBeenHovered s; _openTimeout := o;
     _closeTimeout := c; timers := t;
     next_timer := n; effects := effects s |}.

Definition set_menu_items (x : nat -> list nat) (s : State) : State :=
  {| menu_items := x; expanded_items := expanded_items s;
     trigger_expanded := trigger_expanded s;
     activeItem := activeItem s; typing := typing s; isFocused := isFocused s;
     hasBeenHovered := hasBeenHovered s; _openTimeout := _openTimeout s;
     _closeTimeout := _closeTimeout s; timers := timers s;
     next_timer := next_timer s; effects := effects s |}.

Definition add_effect (e : Effect) (s : State) : State :=
  {| menu_items := menu_items s; expanded_items := expanded_items s;
     trigger_expanded := trigger_expanded s;
     activeItem := activeItem s; typing := typing s; isFocused := isFocused s;
     hasBeenHovered := hasBeenHovered s; _openTimeout := _openTimeout s;
     _closeTimeout := _closeTimeout s; timers := timers s;
     next_timer := next_timer s; effects := effects s ++ [e] |}.

(** The state of freshly constructed patterns whose menus hold the arrays
    [items]. *)
Definition initial (items : nat -> list nat) : State :=
  {| menu_items := items; expanded_items := ∅; trigger_expanded := ∅;
     activeItem := ∅; typing := ∅;
     isFocused := ∅; hasBeenHovered := ∅; _openTimeout := ∅; _closeTimeout := ∅;
     timers := ∅; next_timer := 1; effects := [] |}.

(** The [List] behaviour of a menu or menubar (behaviors/list, imported by
    the patterns and not modelled here) is a parameter.  A list owns two
    pieces of state, its [activeItem] signal and its typeahead; each of its
    operations is a function of that state, of the layout, of the list's
    owner and of the items the owner's [items] input holds when the
    operation runs.  [lb_goto] also receives the item and the
    [focusElement] option ([None] when no options are passed);
    [lb_getItemTabindex] answers for one item and changes nothing. *)
Record ListView := {
  lv_active : option nat;
  lv_typing : bool;
}.

Definition ListOp := Layout -> Owner -> list nat -> ListView -> ListView.

Record ListBehavior := {
  lb_first : ListOp;
  lb_last : ListOp;
  lb_next : ListOp;
  lb_prev : ListOp;
  lb_unfocus : ListOp;
  lb_goto : nat -> option bool -> ListOp;
  lb_search : string -> ListOp;
  lb_getItemTabindex : Layout -> Owner -> list nat -> ListView -> nat -> Z;
}.

(** The list's [getItemTabindex] keeps to roving tabindex, whatever the
    list it is asked about. *)
Definition roving_list (lb : ListBehavior) : Prop :=
  forall g o items typing,
    ListBehaviors.roving
      (fun activeItem item =>
         lb_getItemTabindex lb g o items
           {| lv_active := activeItem; lv_typing := typing |} item).

(** The options of [MenuItemPattern.open]. *)
Record OpenOpts := {
  opt_first : bool;
  opt_last : bool;
}.

Definition no_opts : OpenOpts := {| opt_first := false; opt_last := false |}.
Definition first_opt : OpenOpts := {| opt_first := true; opt_last := false |}.
Definition last_opt : OpenOpts := {| opt_first := false; opt_last := true |}.

(** [Array.prototype.pop]: the last element and the rest, when there is one. *)
Fixpoint pop (l : list nat) : option (list nat * nat) :=
  match l with
  | [] => None
  | x :: l' =>
      match pop l' with
      | Some (rest, y) => Some (x :: rest, y)
      | None => Some ([], x)
      end
  end.

(** JavaScript truthiness of [expanded()], which is [null] ([None]) for an
    item without a submenu. *)
Definition truthy (b : option bool) : bool :=
  match b with Some true => true | _ => false end.

Section Patterns.
Variable lb : ListBehavior.
Variable g : Layout.

(** Running an operation of the list owned by [o]. *)
Definition view (o : Owner) (s : State) : ListView :=
  {| lv_active := activeItem s !! o; lv_typing := bool_decide (o ∈ typing s) |}.

Definition put_view (o : Owner) (v : ListView) (s : State) : State :=
  set_list
    (match lv_active v with
     | Some a => <[o := a]> (activeItem s)
     | None => delete o (activeItem s)
     end)
    (if lv_typing v then {[o]} ∪ typing s else typing s ∖ {[o]})
    s.

(** [inputs.items()] of a menu or menubar. *)
Definition owner_items (o : Owner) (s : State) : list nat :=
  match o with OMenu m => menu_items s m | OBar b => bar_items g b end.

Definition list_run (op : ListOp) (o : Owner) (s : State) : State :=
  put_view o (op g o (owner_items o s) (view o s)) s.

(** *** [MenuItemPattern]: computed signals *)

Definition parent_disabled (i : nat) : bool :=
  match item_parent g i with
  | Some (OMenu m) => menu_disabled g m
  | Some (OBar b) => bar_disabled g b
  | None => false
  end.

Definition disabled (i : nat) : bool := parent_disabled i || item_disabled g i.

Definition hasPopup (i : nat) : bool :=
  match item_submenu g i with Some _ => true | None => false end.

Definition expanded (i : nat) (s : State) : option bool :=
  match item_submenu g i with
  | Some _ => Some (bool_decide (i ∈ expanded_items s))
  | None => None
  end.

(** [menuitem.submenu()?.inputs.items() ?? []]. *)
Definition submenu_items (i : nat) (s : State) : list nat :=
  match item_submenu g i with
  | Some m => menu_items s m
  | None => []
  end.

(** [this.inputs.parent()?.listBehavior.getItemTabindex(this) ?? -1]. *)
Definition parent_tabIndex (i : nat) (s : State) : Z :=
  match item_parent g i with
  | Some o => lb_getItemTabindex lb g o (owner_items o s) (view o s) i
  | None => -1
  end.

(** [MenuItemPattern.tabIndex]. *)
Definition tabIndex (i : nat) (s : State) : Z :=
  match item_submenu g i with
  | Some sub =>
      match activeItem s !! OMenu sub with
      | Some _ => -1
      | None => parent_tabIndex i s
      end
  | None => parent_tabIndex i s
  end.

(** *** Hover timers of a [MenuPattern] *)

Definition _clearOpenTimeout (m : nat) (s : State) : State :=
  match _openTimeout s !! m with
  | Some id =>
      set_timeouts (delete m (_openTimeout s)) (_closeTimeout s)
        (delete id (timers s)) (next_timer s) s
  | None => s
  end.

Definition _clearCloseTimeout (m : nat) (s : State) : State :=
  match _closeTimeout s !! m with
  | Some id =>
      set_timeouts (_openTimeout s) (delete m (_closeTimeout s))
        (delete id (timers s)) (next_timer s) s
  | None => s
  end.

Definition _clearTimeouts (m : nat) (s : State) : State :=
  _clearCloseTimeout m (_clearOpenTimeout m s).

(** [_openItem]: clear the open timeout, then store the id of a new one. *)
Definition _openItem (m item : nat) (s : State) : State :=
  let s := _clearOpenTimeout m s in
  let id := next_timer s in
  set_timeouts (<[m := id]> (_openTimeout s)) (_closeTimeout s)
    (<[id := CbOpen m item]> (timers s)) (S id) s.

(** [_closeItem]: clear the open timeout; schedule a close unless one is
    stored already. *)
Definition _closeItem (m item : nat) (s : State) : State :=
  let s := _clearOpenTimeout m s in
  match _closeTimeout s !! m with
  | Some _ => s
  | None =>
      let id := next_timer s in
      set_timeouts (_openTimeout s) (<[m := id]> (_closeTimeout s))
        (<[id := CbClose m item]> (timers s)) (S id) s
  end.

(** *** The close loops *)

(** One turn of the [while (menuitems.length)] loop of
    [MenuItemPattern.close] ([clearTimers = true]) and of
    [MenuTriggerPattern.close] ([clearTimers = false]): the two bodies differ
    only in the final [parent._clearTimeouts()], which the trigger's loop does
    not have. *)
Definition visit (clearTimers : bool) (i : nat) (s : State) : State :=
  let s := set_expanded_items (expanded_items s ∖ {[i]}) s in
  let s :=
    match item_parent g i with
    | Some o => list_run (lb_unfocus lb) o s
    | None => s
    end in
  if clearTimers then
    match item_parent g i with
    | Some (OMenu p) => _clearTimeouts p s
    | _ => s
    end
  else s.

(** The loop from its second turn on.  After the first turn [menuitems] is
    an array of the loop's own, made by [concat]: [pop()] shortens no array
    that anything else reads.  The items of a submenu are read from the
    state in every turn. *)
Fixpoint close_loop (clearTimers : bool) (fuel : nat) (menuitems : list nat)
    (s : State) : option State :=
  match fuel with
  | O => None
  | S fuel' =>
      match pop menuitems with
      | None => Some s
      | Some (rest, menuitem) =>
          close_loop clearTimers fuel' (rest ++ submenu_items menuitem s)
            (visit clearTimers menuitem s)
      end
  end.

(** [menuitems.pop()] while [menuitems] still is the array that
    [inputs.items()] of menu [m] returned: the array loses its last
    element. *)
Definition pop_items (m : nat) (rest : list nat) (s : State) : State :=
  set_menu_items (fun m' => if (m' =? m)%nat then rest else menu_items s m') s.

(** The whole loop, entered with [menuitems] bound to the array of menu
    [m]: the first turn pops from that very array, the later turns work on
    the loop's own arrays. *)
Definition close_items (clearTimers : bool) (fuel : nat) (m : nat) (s : State) :
    option State :=
  match pop (menu_items s m) with
  | None => Some s
  | Some (rest, menuitem) =>
      let s := pop_items m rest s in
      close_loop clearTimers fuel (rest ++ submenu_items menuitem s)
        (visit clearTimers menuitem s)
  end.

(** [MenuItemPattern.close]; without a submenu the loop runs on [[]]. *)
Definition item_close (fuel : nat) (i : nat) (refocus : bool) (s : State) : option State :=
  let s := set_expanded_items (expanded_items s ∖ {[i]}) s in
  let s :=
    if refocus then
      match item_parent g i with
      | Some o => list_run (lb_goto lb i None) o s
      | None => s
      end
    else s in
  match item_submenu g i with
  | Some sub => close_items true fuel sub s
  | None => Some s
  end.

(** [MenuTriggerPattern.close]; [element()?.focus()] focuses nothing when
    the trigger has no element. *)
Definition trigger_close (fuel : nat) (t : nat) (refocus : bool) (s : State) : option State :=
  let s := set_trigger_expanded (trigger_expanded s ∖ {[t]}) s in
  let s :=
    match trigger_menu g t with
    | Some m => list_run (lb_unfocus lb) (OMenu m) s
    | None => s
    end in
  let s :=
    if refocus && trigger_element g t then add_effect (FocusTrigger t) s else s in
  match trigger_menu g t with
  | Some m => close_items false fuel m s
  | None => Some s
  end.

(** *** [MenuPattern]: navigation *)

(** [prev], [next], [first] and [last] close the active item and then run
    the list operation of the same name. *)
Definition close_active (fuel : nat) (m : nat) (s : State) : option State :=
  match activeItem s !! OMenu m with
  | Some a => item_close fuel a false s
  | None => Some s
  end.

Definition prev (fuel : nat) (m : nat) (s : State) : option State :=
  s ← close_active fuel m s; Some (list_run (lb_prev lb) (OMenu m) s).

Definition next (fuel : nat) (m : nat) (s : State) : option State :=
  s ← close_active fuel m s; Some (list_run (lb_next lb) (OMenu m) s).

Definition first (fuel : nat) (m : nat) (s : State) : option State :=
  s ← close_active fuel m s; Some (list_run (lb_first lb) (OMenu m) s).

Definition last (fuel : nat) (m : nat) (s : State) : option State :=
  s ← close_active fuel m s; Some (list_run (lb_last lb) (OMenu m) s).

(** [MenuItemPattern.open]. *)
Definition item_open (fuel : nat) (i : nat) (opts : OpenOpts) (s : State) : option State :=
  if disabled i then Some s
  else
    let s := set_expanded_items ({[i]} ∪ expanded_items s) s in
    s ← (if opt_first opts then
           match item_submenu g i with
           | Some sub => first fuel sub s
           | None => Some s
           end
         else Some s);
    if opt_last opts then
      match item_submenu g i with
      | Some sub => last fuel sub s
      | None => Some s
      end
    else Some s.

(** [MenuPattern.root]: [None] when the fuel runs out on a cyclic chain of
    parents, [Some None] for [undefined]. *)
Fixpoint root (fuel : nat) (m : nat) : option (option Root) :=
  match fuel with
  | O => None
  | S fuel' =>
      match menu_parent g m with
      | None => Some (Some (RMenu m))
      | Some (PTrigger t) => Some (Some (RTrigger t))
      | Some (PItem p) =>
          match item_parent g p with
          | Some (OBar b) => Some (Some (RBar b))
          | Some (OMenu grandparent) => root fuel' grandparent
          | None => Some None
          end
      end
  end.

(** *** [MenuBarPattern] *)

Definition bar_close (fuel : nat) (b : nat) (s : State) : option State :=
  match activeItem s !! OBar b with
  | Some a => item_close fuel a (bool_decide (OBar b ∈ isFocused s)) s
  | None => Some s
  end.

(** The tail shared by [MenuBarPattern.next] and [MenuBarPattern.prev]. *)
Definition bar_reopen (fuel : nat) (b : nat) (prevItem : option nat) (s : State) :
    option State :=
  match prevItem with
  | Some p =>
      if truthy (expanded p s) then
        s ← item_close fuel p false s;
        match activeItem s !! OBar b with
        | Some a => item_open fuel a first_opt s
        | None => Some s
        end
      else Some s
  | None => Some s
  end.

Definition bar_next (fuel : nat) (b : nat) (s : State) : option State :=
  let prevItem := activeItem s !! OBar b in
  bar_reopen fuel b prevItem (list_run (lb_next lb) (OBar b) s).

Definition bar_prev (fuel : nat) (b : nat) (s : State) : option State :=
  let prevItem := activeItem s !! OBar b in
  bar_reopen fuel b prevItem (list_run (lb_prev lb) (OBar b) s).

Definition bar_nextKey (b : nat) : string :=
  match bar_textDirection g b with rtl => "ArrowLeft" | ltr => "ArrowRight" end.

Definition bar_previousKey (b : nat) : string :=
  match bar_textDirection g b with rtl => "ArrowRight" | ltr => "ArrowLeft" end.

Definition bar_dynamicSpaceKey (b : nat) (s : State) : string :=
  if bool_decide (OBar b ∈ typing s) then "" else " ".

Definition bar_open_active (fuel : nat) (b : nat) (opts : OpenOpts) (s : State) :
    option State :=
  match activeItem s !! OBar b with
  | Some a => item_open fuel a opts s
  | None => Some s
  end.


Definition bar_keydownManager (fuel : nat) (b : nat) :
    list ((State -> KeyMatcher) * (string -> State -> option State)) :=
  [ (fun _ => KeyIs (bar_nextKey b), fun _ => bar_next fuel b);
    (fun _ => KeyIs (bar_previousKey b), fun _ => bar_prev fuel b);
    (fun _ => KeyIs "End", fun _ s => Some (list_run (lb_last lb) (OBar b) s));
    (fun _ => KeyIs "Home", fun _ s => Some (list_run (lb_first lb) (OBar b) s));
    (fun _ => KeyIs "Enter", fun _ => bar_open_active fuel b first_opt);
    (fun _ => KeyIs "ArrowUp", fun _ => bar_open_active fuel b last_opt);
    (fun _ => KeyIs "ArrowDown", fun _ => bar_open_active fuel b first_opt);
    (fun s => KeyIs (bar_dynamicSpaceKey b s), fun _ => bar_open_active fuel b first_opt);
    (fun _ => KeyRegexp_single_char,
     fun key s => Some (list_run (lb_search lb key) (OBar b) s)) ].

Definition bar_onKeydown (fuel : nat) (b : nat) (key : string) (s : State) : option State :=
  handle (bar_keydownManager fuel b) key s.

(** *** [MenuPattern]: behaviours *)

(** [root?.inputs.onSelect?.(item.value())]. *)
Definition call_onSelect (r : Root) (item : nat) (s : State) : State :=
  let given :=
    match r with
    | RMenu m => menu_onSelect g m
    | RBar b => bar_onSelect g b
    | RTrigger _ => false
    end in
  if given then add_effect (OnSelect r (item_value g item)) s else s.

(** [MenuPattern.submit]; the caller passes [item], by default the active
    item. *)
Definition submit (fuel : nat) (m : nat) (item : option nat) (s : State) : option State :=
  r ← root fuel m;
  match item with
  | Some it =>
      if negb (disabled it) then
        match r with
        | Some (RTrigger t) =>
            if negb (hasPopup it) then trigger_close fuel t true s else Some s
        | Some (RBar b) =>
            if negb (hasPopup it) then
              s ← bar_close fuel b s; Some (call_onSelect (RBar b) it s)
            else Some s
        | Some (RMenu rm) =>
            if negb (hasPopup it) then
              s ← match activeItem s !! OMenu rm with
                   | Some a => item_close fuel a true s
                   | None => Some s
                   end;
              Some (call_onSelect (RMenu rm) it s)
            else Some s
        | None => Some s
        end
      else Some s
  | None => Some s
  end.

(** [MenuPattern.trigger]. *)
Definition trigger (fuel : nat) (m : nat) (s : State) : option State :=
  match activeItem s !! OMenu m with
  | Some a =>
      if hasPopup a then item_open fuel a first_opt s
      else submit fuel m (Some a) s
  | None => submit fuel m None s
  end.

(** [MenuPattern.closeAll]. *)
Definition closeAll (fuel : nat) (m : nat) (s : State) : option State :=
  r ← root fuel m;
  match r with
  | Some (RTrigger t) => trigger_close fuel t true s
  | Some (RBar b) => bar_close fuel b s
  | Some (RMenu rm) =>
      match activeItem s !! OMenu rm with
      | Some a => item_close fuel a true s
      | None => Some s
      end
  | None => Some s
  end.

(** [MenuPattern.collapse]. *)
Definition collapse (fuel : nat) (m : nat) (s : State) : option State :=
  r ← root fuel m;
  let via_root :=
    match r with
    | Some (RBar b) => bar_prev fuel b s
    | _ => Some s
    end in
  match menu_parent g m with
  | Some (PItem p) =>
      match item_parent g p with
      | Some (OBar _) => via_root
      | _ => item_close fuel p true s
      end
  | _ => via_root
  end.

(** [MenuPattern.expand]. *)
Definition expand (fuel : nat) (m : nat) (s : State) : option State :=
  r ← root fuel m;
  let via_root :=
    match r with
    | Some (RBar b) => bar_next fuel b s
    | _ => Some s
    end in
  match activeItem s !! OMenu m with
  | Some a => if hasPopup a then item_open fuel a first_opt s else via_root
  | None => via_root
  end.

Definition _expandKey (m : nat) : string :=
  match menu_textDirection g m with rtl => "ArrowLeft" | ltr => "ArrowRight" end.

Definition _collapseKey (m : nat) : string :=
  match menu_textDirection g m with rtl => "ArrowRight" | ltr => "ArrowLeft" end.

Definition dynamicSpaceKey (m : nat) (s : State) : string :=
  if bool_decide (OMenu m ∈ typing s) then "" else " ".

(** [MenuPattern.keydownManager] and [MenuPattern.onKeydown]. *)
Definition keydownManager (fuel : nat) (m : nat) :
    list ((State -> KeyMatcher) * (string -> State -> option State)) :=
  [ (fun _ => KeyIs "ArrowDown", fun _ => next fuel m);
    (fun _ => KeyIs "ArrowUp", fun _ => prev fuel m);
    (fun _ => KeyIs "Home", fun _ => first fuel m);
    (fun _ => KeyIs "End", fun _ => last fuel m);
    (fun _ => KeyIs "Enter", fun _ => trigger fuel m);
    (fun _ => KeyIs "Escape", fun _ => closeAll fuel m);
    (fun _ => KeyIs (_expandKey m), fun _ => expand fuel m);
    (fun _ => KeyIs (_collapseKey m), fun _ => collapse fuel m);
    (fun s => KeyIs (dynamicSpaceKey m s), fun _ => trigger fuel m);
    (fun _ => KeyRegexp_single_char,
     fun key s => Some (list_run (lb_search lb key) (OMenu m) s)) ].

Definition onKeydown (fuel : nat) (m : nat) (key : string) (s : State) : option State :=
  handle (keydownManager fuel m) key s.

(** *** [MenuPattern]: hover *)

Definition visible (m : nat) (s : State) : bool :=
  match menu_parent g m with
  | None => true
  | Some (PTrigger t) => bool_decide (t ∈ trigger_expanded s)
  | Some (PItem p) => truthy (expanded p s)
  end.

Definition shouldFocus (fuel : nat) (m : nat) (s : State) : option bool :=
  r ← root fuel m;
  Some match r with
       | Some (RTrigger _) => true
       | Some (RBar b) => bool_decide (OBar b ∈ isFocused s)
       | Some (RMenu rm) => bool_decide (OMenu rm ∈ isFocused s)
       | None => false
       end.

(** [MenuPattern.onMouseOver]; [hit i] tells whether the element of item [i]
    contains the target of the event. *)
Definition onMouseOver (fuel : nat) (m : nat) (hit : nat -> bool) (s : State) :
    option State :=
  if negb (visible m s) then Some s
  else
    let s := set_hasBeenHovered ({[m]} ∪ hasBeenHovered s) s in
    match List.find hit (menu_items s m) with
    | None => Some s
    | Some item =>
        let active := activeItem s !! OMenu m in
        let s :=
          match menu_parent g m with
          | Some (PItem p) =>
              match item_parent g p with
              | Some (OMenu grandparent) =>
                  list_run (lb_goto lb p (Some false)) (OMenu grandparent)
                    (_clearTimeouts grandparent s)
              | _ => s
              end
          | _ => s
          end in
        let s :=
          match active with
          | Some a => if bool_decide (a <> item) then _closeItem m a s else s
          | None => s
          end in
        let s := if truthy (expanded item s) then _clearCloseTimeout m s else s in
        let s := _openItem m item s in
        focus ← shouldFocus fuel m s;
        Some (list_run (lb_goto lb item (Some focus)) (OMenu m) s)
    end.

(** [MenuPattern.onMouseOut]; [inside] tells whether the element of the
    grandparent menu contains the related target of the event. *)
Definition onMouseOut (fuel : nat) (m : nat) (inside : bool) (s : State) : option State :=
  let s := _clearOpenTimeout m s in
  if bool_decide (OMenu m ∈ isFocused s) then Some s
  else
    r ← root fuel m;
    match r, menu_parent g m with
    | Some _, Some (PItem p) =>
        match item_parent g p with
        | Some (OMenu _) => if negb inside then item_close fuel p false s else Some s
        | _ => Some s
        end
    | _, _ => Some s
    end.

(** A pending timer fires: the browser removes it from its table and runs
    its callback. *)
Definition fire (fuel : nat) (id : nat) (s : State) : option State :=
  match timers s !! id with
  | None => Some s
  | Some cb =>
      let s := set_timeouts (_openTimeout s) (_closeTimeout s) (delete id (timers s))
                 (next_timer s) s in
      match cb with
      | CbOpen m i =>
          s ← item_open fuel i no_opts s;
          Some (set_timeouts (delete m (_openTimeout s)) (_closeTimeout s) (timers s)
                  (next_timer s) s)
      | CbClose m i =>
          s ← item_close fuel i false s;
          Some (set_timeouts (_openTimeout s) (delete m (_closeTimeout s)) (timers s)
                  (next_timer s) s)
      end
  end.

End Patterns.

End Menu.

(** ** Menus: the event handlers of trigger, menubar and menu *)
Module MenuHandlers.
Import Keys Menu.

(** The elements an event can come from: the host elements of the patterns. *)
Inductive Element :=
  | ElMenu (m : nat)
  | ElItem (i : nat)
  | ElTrigger (t : nat)
  | ElBar (b : nat).

(** [event.relatedTarget] of a focus event: [null] ([None]), or a node, of
    which the handlers only ask which elements contain it. *)
Definition Related := option (Element -> bool).

(** [element?.contains(relatedTarget)]: false for [null]. *)
Definition within (r : Related) (e : Element) : bool :=
  match r with Some c => c e | None => false end.

Definition set_isFocused (x : gset Owner) (s : State) : State :=
  {| menu_items := menu_items s; expanded_items := expanded_items s;
     trigger_expanded := trigger_expanded s;
     activeItem := activeItem s; typing := typing s; isFocused := x;
     hasBeenHovered := hasBeenHovered s; _openTimeout := _openTimeout s;
     _closeTimeout := _closeTimeout s; timers := timers s;
     next_timer := next_timer s; effects := effects s |}.

Section Handlers.
Variable lb : ListBehavior.
Variable g : Layout.

(** [MenuTriggerInputs.disabled]. *)
Variable trigger_disabled : nat -> bool.

(** *** [MenuTriggerPattern] *)

Definition trigger_tabIndex (t : nat) (s : State) : Z :=
  if bool_decide (t ∈ trigger_expanded s)
     && match trigger_menu g t with
        | Some m => bool_decide (is_Some (activeItem s !! OMenu m))
        | None => false
        end
  then -1 else 0.

(** [MenuTriggerPattern.open]. *)
Definition trigger_open (fuel : nat) (t : nat) (opts : OpenOpts) (s : State) : option State :=
  let s := set_trigger_expanded ({[t]} ∪ trigger_expanded s) s in
  if opt_first opts then
    match trigger_menu g t with
    | Some m => first lb g fuel m s
    | None => Some s
    end
  else if opt_last opts then
    match trigger_menu g t with
    | Some m => last lb g fuel m s
    | None => Some s
    end
  else Some s.

Definition trigger_keydownManager (fuel : nat) (t : nat) :
    list ((State -> KeyMatcher) * (string -> State -> option State)) :=
  [ (fun _ => KeyIs " ", fun _ => trigger_open fuel t first_opt);
    (fun _ => KeyIs "Enter", fun _ => trigger_open fuel t first_opt);
    (fun _ => KeyIs "ArrowDown", fun _ => trigger_open fuel t first_opt);
    (fun _ => KeyIs "ArrowUp", fun _ => trigger_open fuel t last_opt);
    (fun _ => KeyIs "Escape", fun _ => trigger_close lb g fuel t true) ].

Definition trigger_onKeydown (fuel : nat) (t : nat) (key : string) (s : State) : option State :=
  if negb (trigger_disabled t) then handle (trigger_keydownManager fuel t) key s
  else Some s.

Definition trigger_onClick (fuel : nat) (t : nat) (s : State) : option State :=
  if negb (trigger_disabled t) then
    if bool_decide (t ∈ trigger_expanded s) then trigger_close lb g fuel t false s
    else trigger_open fuel t first_opt s
  else Some s.

Definition trigger_onFocusOut (fuel : nat) (t : nat) (related : Related) (s : State) :
    option State :=
  if bool_decide (t ∈ trigger_expanded s)
     && negb (within related (ElTrigger t))
     && negb (match trigger_menu g t with
              | Some m => within related (ElMenu m)
              | None => false
              end)
  then trigger_close lb g fuel t false s
  else Some s.

(** *** [MenuBarPattern] *)

(** [setDefaultState] writes the [activeItem] signal itself, not through the
    list behaviour; [items()[0]] is [undefined] for a menubar without items. *)
Definition bar_setDefaultState (b : nat) (s : State) : State :=
  set_list
    (match head (bar_items g b) with
     | Some i => <[OBar b := i]> (activeItem s)
     | None => delete (OBar b) (activeItem s)
     end)
    (typing s) s.

(** [MenuBarPattern.goto]; [focusElement] is [None] when no options are
    passed. *)
Definition bar_goto (fuel : nat) (b : nat) (item : nat) (focusElement : option bool)
    (s : State) : option State :=
  let prevItem := activeItem s !! OBar b in
  let s := list_run g (lb_goto lb item focusElement) (OBar b) s in
  s ← match prevItem with
       | Some p =>
           if truthy (expanded g p s) then
             s ← item_close lb g fuel p false s;
             match activeItem s !! OBar b with
             | Some a => item_open lb g fuel a no_opts s
             | None => Some s
             end
           else Some s
       | None => Some s
       end;
  if bool_decide (prevItem = Some item) then
    if truthy (expanded g item s) then
      match item_submenu g item with
      | Some sub =>
          match activeItem s !! OMenu sub with
          | Some c =>
              s ← item_close lb g fuel c false s;
              Some (list_run g (lb_unfocus lb) (OMenu sub) s)
          | None => Some s
          end
      | None => Some s
      end
    else Some s
  else Some s.

(** [MenuBarPattern.onClick]; [hit i] tells whether the element of item [i]
    contains the target of the event. *)
Definition bar_onClick (fuel : nat) (b : nat) (hit : nat -> bool) (s : State) : option State :=
  match List.find hit (bar_items g b) with
  | None => Some s
  | Some item =>
      s ← bar_goto fuel b item None s;
      if truthy (expanded g item s) then item_close lb g fuel item false s
      else item_open lb g fuel item no_opts s
  end.

Definition bar_onMouseOver (fuel : nat) (b : nat) (hit : nat -> bool) (s : State) :
    option State :=
  match List.find hit (bar_items g b) with
  | None => Some s
  | Some item => bar_goto fuel b item (Some (bool_decide (OBar b ∈ isFocused s))) s
  end.

Definition bar_onFocusIn (b : nat) (s : State) : State :=
  set_isFocused ({[OBar b]} ∪ isFocused s) s.

Definition bar_onFocusOut (fuel : nat) (b : nat) (related : Related) (s : State) :
    option State :=
  if negb (within related (ElBar b)) then
    bar_close lb g fuel b (set_isFocused (isFocused s ∖ {[OBar b]}) s)
  else Some s.

(** *** [MenuPattern] *)

(** [this.inputs.parent()?.close(opts)]. *)
Definition parent_close (fuel : nat) (m : nat) (refocus : bool) (s : State) : option State :=
  match menu_parent g m with
  | Some (PTrigger t) => trigger_close lb g fuel t refocus s
  | Some (PItem p) => item_close lb g fuel p refocus s
  | None => Some s
  end.

(** [MenuPattern.close]. *)
Definition menu_close (fuel : nat) (m : nat) (s : State) : option State :=
  parent_close fuel m false s.

(** [MenuPattern.onClick]. *)
Definition onClick (fuel : nat) (m : nat) (hit : nat -> bool) (s : State) : option State :=
  match List.find hit (menu_items s m) with
  | None => Some s
  | Some item =>
      s ← item_open lb g fuel item no_opts s;
      submit lb g fuel m (Some item) (list_run g (lb_goto lb item None) (OMenu m) s)
  end.

Definition onFocusIn (m : nat) (s : State) : State :=
  set_isFocused ({[OMenu m]} ∪ isFocused s) s.

(** The sibling of the parent item whose element contains the related
    target: [siblings?.find(...)]. *)
Definition focused_sibling (m : nat) (related : Related) (s : State) : option nat :=
  match menu_parent g m with
  | Some (PItem p) =>
      match item_parent g p with
      | Some o =>
          List.find (fun i => within related (ElItem i))
            (List.filter (fun i => negb (i =? p)%nat) (owner_items g o s))
      | None => None
      end
  | _ => None
  end.

(** [parentEl?.contains(relatedTarget)]. *)
Definition within_parent (m : nat) (related : Related) : bool :=
  match menu_parent g m with
  | Some (PTrigger t) => within related (ElTrigger t)
  | Some (PItem p) => within related (ElItem p)
  | None => false
  end.

(** [MenuPattern.onFocusOut]. *)
Definition onFocusOut (fuel : nat) (m : nat) (related : Related) (s : State) : option State :=
  s ← match related with
       | None => parent_close fuel m true (set_isFocused (isFocused s ∖ {[OMenu m]}) s)
       | Some _ => Some s
       end;
  match focused_sibling m related s with
  | Some _ => Some s
  | None =>
      if visible g m s && negb (within_parent m related)
         && negb (within related (ElMenu m))
      then parent_close fuel m false (set_isFocused (isFocused s ∖ {[OMenu m]}) s)
      else Some s
  end.

(** *** Events *)

(** What can happen to the patterns of a page: the events their hosts
    forward to them, and a hover timer firing. *)
Inductive Event :=
  | MenuKeydown (m : nat) (key : string)
  | MenuMouseOver (m : nat) (hit : nat -> bool)
  | MenuMouseOut (m : nat) (inside : bool)
  | MenuClick (m : nat) (hit : nat -> bool)
  | MenuFocusIn (m : nat)
  | MenuFocusOut (m : nat) (related : Related)
  | BarKeydown (b : nat) (key : string)
  | BarClick (b : nat) (hit : nat -> bool)
  | BarMouseOver (b : nat) (hit : nat -> bool)
  | BarFocusIn (b : nat)
  | BarFocusOut (b : nat) (related : Related)
  | TriggerKeydown (t : nat) (key : string)
  | TriggerClick (t : nat)
  | TriggerFocusOut (t : nat) (related : Related)
  | TimerFires (id : nat).

Definition dispatch (fuel : nat) (e : Event) (s : State) : option State :=
  match e with
  | MenuKeydown m key => onKeydown lb g fuel m key s
  | MenuMouseOver m hit => onMouseOver lb g fuel m hit s
  | MenuMouseOut m inside => onMouseOut lb g fuel m inside s
  | MenuClick m hit => onClick fuel m hit s
  | MenuFocusIn m => Some (onFocusIn m s)
  | MenuFocusOut m related => onFocusOut fuel m related s
  | BarKeydown b key => bar_onKeydown lb g fuel b key s
  | BarClick b hit => bar_onClick fuel b hit s
  | BarMouseOver b hit => bar_onMouseOver fuel b hit s
  | BarFocusIn b => Some (bar_onFocusIn b s)
  | BarFocusOut b related => bar_onFocusOut fuel b related s
  | TriggerKeydown t key => trigger_onKeydown fuel t key s
  | TriggerClick t => trigger_onClick fuel t s
  | TriggerFocusOut t related => trigger_onFocusOut fuel t related s
  | TimerFires id => fire lb g fuel id s
  end.

Fixpoint run (fuel : nat) (es : list Event) (s : State) : option State :=
  match es with
  | [] => Some s
  | e :: rest =>
      match dispatch fuel e s with
      | Some s' => run fuel rest s'
      | None => None
      end
  end.

End Handlers.

End MenuHandlers.

(** * Statements in the words of the documentation, and concrete instances *)

Module TabsSpec.
Import Keys Tabs.

Section Spec.
Context {E : Type}.
Variable B : Behaviors E.
Variable inputs : TabListInputs.

(** The doc comment of [setDefaultState], read literally: the active item
    becomes the first focusable selected tab if one exists, otherwise the
    first focusable tab; with no focusable tab nothing is set. *)
Definition setDefaultState_spec (st : TabListState E) : TabListState E :=
  match List.find (fun t => isFocusable B t && selected st t) (items inputs) with
  | Some t => set_activeItem t st
  | None =>
      match List.find (isFocusable B) (items inputs) with
      | Some t => set_activeItem t st
      | None => st
      end
  end.

(** The tab an argument of [open] stands for: the tab itself, the first tab
    of the list with the given value, or the active tab when nothing is
    passed. *)
Inductive resolves (st : TabListState E) : OpenArg -> nat -> Prop :=
  | resolves_tab t : resolves st (ArgTab t) t
  | resolves_value v t :
      List.find (fun t => String.eqb (tab_value inputs t) v) (items inputs) = Some t ->
      resolves st (ArgValue v) t
  | resolves_active t :
      activeItem st = Some t -> resolves st ArgNone t.

(** No tab can be resolved: a value that no tab of the list has, or no
    argument while no tab is active. *)
Definition unresolved (st : TabListState E) (arg : OpenArg) : Prop :=
  (exists v, arg = ArgValue v /\ forall t, In t (items inputs) -> tab_value inputs t <> v)
  \/ (arg = ArgNone /\ activeItem st = None).

End Spec.

(** A tablist of three tabs, the first of which cannot take focus, with an
    expansion behaviour that opens one tab at a time and refuses tab 2. *)
Definition three_tabs : TabListInputs :=
  {| items := [0; 1; 2]%nat;
     tab_value := fun t => match t with O => "a" | S O => "b" | _ => "c" end%string;
     orientation := horizontal;
     textDirection := rtl;
     selectionMode := follow;
     disabled := false |}.

Definition step_to (inputs : TabListInputs) (forward : bool) (a : option nat) :
    bool * option nat :=
  match a with
  | Some t =>
      let t' := if forward then S t else Nat.pred t in
      if bool_decide (t' ∈ items inputs) then (true, Some t') else (false, a)
  | None => (false, None)
  end.

Definition one_at_a_time : Behaviors (list nat) :=
  {| isFocusable := fun t => negb (t =? 0)%nat;
     getItemTabIndex := fun _ => ListBehaviors.getItemTabIndex;
     expansion_open := fun t e => if (t =? 2)%nat then (false, e) else (true, [t]);
     nav_prev := fun inputs a => step_to inputs false a;
     nav_next := fun inputs a => step_to inputs true a;
     nav_first := fun inputs _ => (true, head (items inputs));
     nav_last := fun inputs _ => (true, List.last (map Some (items inputs)) None) |}.

Definition tabs_at (a s : option nat) : TabListState (list nat) :=
  {| activeItem := a; selectedTab := s; expansion := [] |}.

End TabsSpec.

Module DrawerSpec.
Import Drawer.

(** A drawer in a container without transitions, opened with the mouse. *)
Definition plain_env : Env :=
  {| _container := Some {| _transitionsEnabled := false; hasBackdrop := true |};
     focusWithinDrawer := true |}.

Definition closed_drawer : MatDrawer :=
  {| _opened := false; _openedVia := None; _mode := over; _autoFocus := None;
     _elementFocusedBeforeDrawerWasOpened := None; _focusTrap := Some false;
     class_opened := false; class_animating := false; animation_timeouts := 0;
     focus_moves := []; marked_for_check := 0 |}.

Definition mouse_opened_drawer : MatDrawer :=
  snd (open plain_env (Some mouse) closed_drawer).

(** Every field of a drawer but [_openedVia]. *)
Definition same_but_openedVia (d d' : MatDrawer) : Prop :=
  _opened d' = _opened d
  /\ _mode d' = _mode d
  /\ _autoFocus d' = _autoFocus d
  /\ _elementFocusedBeforeDrawerWasOpened d' = _elementFocusedBeforeDrawerWasOpened d
  /\ _focusTrap d' = _focusTrap d
  /\ class_opened d' = class_opened d
  /\ class_animating d' = class_animating d
  /\ animation_timeouts d' = animation_timeouts d
  /\ focus_moves d' = focus_moves d
  /\ marked_for_check d' = marked_for_check d.

(** Two drawers of the list have position [p]. *)
Definition duplicated (p : Position) (drawers : list (nat * Position)) : Prop :=
  exists l1 d1 l2 d2 l3, drawers = l1 ++ (d1, p) :: l2 ++ (d2, p) :: l3.

(** The drawer of the list with position [p], if any. *)
Definition drawer_at (p : Position) (drawers : list (nat * Position)) : option nat :=
  match List.find (fun d => bool_decide (snd d = p)) drawers with
  | Some d => Some (fst d)
  | None => None
  end.

(** The last drawer of the list with position [p], if any. *)
Definition last_drawer_at (p : Position) (drawers : list (nat * Position)) : option nat :=
  drawer_at p (rev drawers).

Definition no_slots : Slots :=
  {| _start := None; _end := None; _left := None; _right := None |}.

(** What a toggle towards the current state does to [_openedVia]: an origin
    passed while opening is recorded, closing resets it. *)
Definition openedVia_after (d : MatDrawer) (openedVia : option FocusOrigin) :
    option FocusOrigin :=
  if opened d
  then match openedVia with Some via => Some via | None => _openedVia d end
  else None.

Definition taken (c : Slots) (p : Position) : Prop :=
  match p with pos_start => _start c <> None | pos_end => _end c <> None end.

Definition occurs (p : Position) (drawers : list (nat * Position)) : Prop :=
  exists l1 d l2, drawers = l1 ++ (d, p) :: l2.

End DrawerSpec.

Module MenuSpec.
Import Keys Menu.

Section Spec.
Variable g : Layout.

(** The arrays the [items] inputs of the menus hold: [menu_items s] in a
    state [s]. *)
Variable items : nat -> list nat.

(** The items of the submenu of item [i]. *)
Definition items_under (i : nat) : list nat :=
  match item_submenu g i with Some m => items m | None => [] end.

(** [child j i]: item [j] is an item of the submenu of item [i]. *)
Definition child (j i : nat) : Prop := In j (items_under i).

(** [reaches i j]: [j] is [i] or an item of the chain of submenus under [i]. *)
Inductive reaches : nat -> nat -> Prop :=
  | reaches_here i : reaches i i
  | reaches_down i k j : child k i -> reaches k j -> reaches i j.

(** Menus nest finitely: no item is found again in the chain of submenus
    under it. *)
Definition finitely_nested : Prop := well_founded child.

(** The array of menu [m] after [pop()]. *)
Definition popped (m : nat) : nat -> list nat :=
  fun m' => if (m' =? m)%nat then removelast (items m) else items m'.

(** The menu whose timer a callback belongs to. *)
Definition callback_menu (cb : Callback) : nat :=
  match cb with CbOpen m _ => m | CbClose m _ => m end.

(** The bookkeeping of hover timers is in order: every pending timer is the
    one its menu stores in the matching field, a stored id that is pending
    is a timer of that field of that menu, and every id in use is below the
    next id the browser hands out. *)
Record timers_ok (s : State) : Prop := {
  open_stored : forall id m i,
    timers s !! id = Some (CbOpen m i) -> _openTimeout s !! m = Some id;
  close_stored : forall id m i,
    timers s !! id = Some (CbClose m i) -> _closeTimeout s !! m = Some id;
  open_owned : forall m id cb,
    _openTimeout s !! m = Some id -> timers s !! id = Some cb -> exists i, cb = CbOpen m i;
  close_owned : forall m id cb,
    _closeTimeout s !! m = Some id -> timers s !! id = Some cb -> exists i, cb = CbClose m i;
  pending_below_next : forall id cb, timers s !! id = Some cb -> (id < next_timer s)%nat;
  open_below_next : forall m id, _openTimeout s !! m = Some id -> (id < next_timer s)%nat;
  close_below_next : forall m id, _closeTimeout s !! m = Some id -> (id < next_timer s)%nat;
}.

(** No timer of menu [m] is pending. *)
Definition no_pending_timer (m : nat) (s : State) : Prop :=
  forall id cb, timers s !! id = Some cb -> callback_menu cb <> m.

End Spec.


Section Loops.
Variable lb : ListBehavior.
Variable g : Layout.

(** Termination: in a state whose menus hold the arrays [items], the work
    an item and the chain under it cause is done after finitely many turns,
    whatever else is on the work list, and the arrays are as before. *)
Definition finishes (items : nat -> list nat) (c : bool) (l : list nat) : Prop :=
  forall rest s, menu_items s = items ->
    exists n s1,
      menu_items s1 = items
      /\ forall k, close_loop lb g c (n + k) (rest ++ l) s = close_loop lb g c k rest s1.

(** The state [MenuItemPattern.close] enters its loop with. *)
Definition before_loop (i : nat) (refocus : bool) (s : State) : State :=
  let s := set_expanded_items (expanded_items s ∖ {[i]}) s in
  if refocus then
    match item_parent g i with
    | Some o => list_run g (lb_goto lb i None) o s
    | None => s
    end
  else s.

(** The state [MenuTriggerPattern.close] enters its loop with. *)
Definition trigger_before_loop (t : nat) (refocus : bool) (s : State) : State :=
  let s := set_trigger_expanded (trigger_expanded s ∖ {[t]}) s in
  let s :=
    match trigger_menu g t with
    | Some m => list_run g (lb_unfocus lb) (OMenu m) s
    | None => s
    end in
  if refocus && trigger_element g t then add_effect (FocusTrigger t) s else s.

(** The items of the menu of trigger [t], the menus holding [items]. *)
Definition trigger_items (items : nat -> list nat) (t : nat) : list nat :=
  match trigger_menu g t with Some m => items m | None => [] end.

(** [j] is an item of the menu of trigger [t] or of the chain of submenus
    under one. *)
Definition under_trigger (items : nat -> list nat) (t j : nat) : Prop :=
  exists i, In i (trigger_items items t) /\ reaches g items i j.

End Loops.

End MenuSpec.

Module YouTubeSpec.
Import YouTube.

(** Whatever happens to a new service, its subject is in one of three
    states: nothing delivered yet, one value and the completion, or the one
    error. *)
Definition one_outcome (r : ReplaySubject) : Prop :=
  (status r = Live /\ buffer r = [] /\ delivered r = [])
  \/ (status r = Completed /\ buffer r = [tt] /\ delivered r = [N_next; N_complete])
  \/ (status r = Errored failure_message /\ buffer r = []
      /\ delivered r = [N_error failure_message]).

(** No script fails during the events. *)
Definition no_failure (events : list Event) : bool :=
  forallb (fun e => match e with Script_onerror _ => false | _ => true end) events.

End YouTubeSpec.

(** A concrete list behaviour and a concrete page of menus. *)
Module MenuExamples.
Import Keys Menu MenuSpec.

(** The element after [a] in [l]. *)
Fixpoint after (a : nat) (l : list nat) : option nat :=
  match l with
  | x :: ((y :: _) as rest) => if (x =? a)%nat then Some y else after a rest
  | _ => None
  end.

Definition move (l : list nat) (v : ListView) : ListView :=
  {| lv_active :=
       match lv_active v with
       | Some a => match after a l with Some y => Some y | None => Some a end
       | None => head l
       end;
     lv_typing := lv_typing v |}.

(** A list that steps through its items in order, wraps nowhere, lets
    every item take focus, and gives tab index 0 to its active item. *)
Definition simple_list : ListBehavior :=
  {| lb_first := fun _ _ items v => {| lv_active := head items; lv_typing := lv_typing v |};
     lb_last := fun _ _ items v => {| lv_active := head (rev items); lv_typing := lv_typing v |};
     lb_next := fun _ _ items v => move items v;
     lb_prev := fun _ _ items v => move (rev items) v;
     lb_unfocus := fun _ _ _ v => {| lv_active := None; lv_typing := lv_typing v |};
     lb_goto := fun i _ _ _ _ v => {| lv_active := Some i; lv_typing := lv_typing v |};
     lb_search := fun _ _ _ _ v => {| lv_active := lv_active v; lv_typing := true |};
     lb_getItemTabindex := fun _ _ _ v i => ListBehaviors.getItemTabIndex (lv_active v) i |}.

(** A page with three widgets.  Trigger 0 opens menu 1 with the items 10
    (submenu 2 with the items 20 and 21; 20 has submenu 3 with the item 30),
    11 and 12 (disabled, submenu 4 with the item 40).  Menu 5 stands alone,
    with the items 50 (submenu 6 with the item 60) and 51.  Menubar 0 has
    the items 70 (submenu 7 with the item 72) and 71. *)
Definition page : Layout :=
  {| item_parent := fun i =>
       if (i =? 10)%nat || (i =? 11)%nat || (i =? 12)%nat then Some (OMenu 1)
       else if (i =? 20)%nat || (i =? 21)%nat then Some (OMenu 2)
       else if (i =? 30)%nat then Some (OMenu 3)
       else if (i =? 40)%nat then Some (OMenu 4)
       else if (i =? 50)%nat || (i =? 51)%nat then Some (OMenu 5)
       else if (i =? 60)%nat then Some (OMenu 6)
       else if (i =? 70)%nat || (i =? 71)%nat then Some (OBar 0)
       else if (i =? 72)%nat then Some (OMenu 7)
       else None;
     item_submenu := fun i =>
       if (i =? 10)%nat then Some 2%nat
       else if (i =? 20)%nat then Some 3%nat
       else if (i =? 12)%nat then Some 4%nat
       else if (i =? 50)%nat then Some 6%nat
       else if (i =? 70)%nat then Some 7%nat
       else None;
     item_disabled := fun i => (i =? 12)%nat;
     item_value := fun i => i;
     menu_parent := fun m =>
       if (m =? 1)%nat then Some (PTrigger 0)
       else if (m =? 2)%nat then Some (PItem 10)
       else if (m =? 3)%nat then Some (PItem 20)
       else if (m =? 4)%nat then Some (PItem 12)
       else if (m =? 6)%nat then Some (PItem 50)
       else if (m =? 7)%nat then Some (PItem 70)
       else None;
     menu_disabled := fun _ => false;
     menu_textDirection := fun m => if (m =? 5)%nat then rtl else ltr;
     menu_onSelect := fun _ => true;
     bar_items := fun b => if (b =? 0)%nat then [70; 71]%nat else [];
     bar_disabled := fun _ => false;
     bar_textDirection := fun _ => ltr;
     bar_onSelect := fun _ => true;
     trigger_menu := fun t => if (t =? 0)%nat then Some 1%nat else None;
     trigger_element := fun _ => true |}.

(** The arrays the menus of the page hold at the start. *)
Definition page_items (m : nat) : list nat :=
  if (m =? 1)%nat then [10; 11; 12]%nat
  else if (m =? 2)%nat then [20; 21]%nat
  else if (m =? 3)%nat then [30]%nat
  else if (m =? 4)%nat then [40]%nat
  else if (m =? 5)%nat then [50; 51]%nat
  else if (m =? 6)%nat then [60]%nat
  else if (m =? 7)%nat then [72]%nat
  else [].

(** The state in which [open], [active] and [expandedTriggers] are expanded
    or active, the menus hold their arrays of the start, and nothing else
    has happened. *)
Definition page_state (open : list nat) (active : list (Owner * nat))
    (expandedTriggers : list nat) : State :=
  {| menu_items := page_items;
     expanded_items := list_to_set open;
     trigger_expanded := list_to_set expandedTriggers;
     activeItem := list_to_map active;
     typing := ∅; isFocused := ∅; hasBeenHovered := ∅;
     _openTimeout := ∅; _closeTimeout := ∅; timers := ∅; next_timer := 1;
     effects := [] |}.

(** The trigger's menu is open down to menu 3, with the active chain
    10, 20, 30. *)
Definition deep_open : State :=
  page_state [10; 20]%nat [(OMenu 1, 10%nat); (OMenu 2, 20%nat); (OMenu 3, 30%nat)] [0%nat].

(** In the standalone menu 5 the submenu of item 50 is open while item 51
    is the active one. *)
Definition open_beside_active : State :=
  page_state [50]%nat [(OMenu 5, 51%nat)] [].

End MenuExamples.

Module TimerSpec.
Import Menu.

(** [later s s']: between [s] and [s'] the browser has handed out ids only
    upwards, and no timer older than [s] has been added or changed. *)
Definition later (s s' : State) : Prop :=
  (next_timer s <= next_timer s')%nat
  /\ forall id cb, (id < next_timer s)%nat ->
       timers s' !! id = Some cb -> timers s !! id = Some cb.

(** Menu [m] stores the close timeout [id], which is pending with the
    callback [cb]. *)
Definition close_timer_pending (m id : nat) (cb : Callback) (s : State) : Prop :=
  _closeTimeout s !! m = Some id /\ timers s !! id = Some cb.

(** Two states with the same timer bookkeeping. *)
Definition same_timers (s s' : State) : Prop :=
  _openTimeout s' = _openTimeout s
  /\ _closeTimeout s' = _closeTimeout s
  /\ timers s' = timers s
  /\ next_timer s' = next_timer s.

End TimerSpec.

(** Notions used to state what the event handlers of the menus keep. *)
Module HandlerSpec.
Import Menu MenuSpec TimerSpec.

(** An operation is [calm] when it schedules no timer: it keeps the timer
    bookkeeping in order, adds no pending timer and hands out no id. *)
Definition calm (f : State -> option State) : Prop :=
  forall s s', f s = Some s' -> timers_ok s ->
    timers_ok s' /\ later s s' /\ next_timer s' = next_timer s.

(** At most one open timer and at most one close timer of each menu is
    pending. *)
Definition one_timer_per_menu (s : State) : Prop :=
  (forall m id1 id2 i1 i2,
     timers s !! id1 = Some (CbOpen m i1) -> timers s !! id2 = Some (CbOpen m i2) ->
     id1 = id2 /\ i1 = i2)
  /\ (forall m id1 id2 i1 i2,
        timers s !! id1 = Some (CbClose m i1) -> timers s !! id2 = Some (CbClose m i2) ->
        id1 = id2 /\ i1 = i2).

(** Nothing was expanded, collapsed, focused or called between [s] and
    [s']: only the lists and the hover bookkeeping may differ. *)
Definition same_open (s s' : State) : Prop :=
  expanded_items s' = expanded_items s
  /\ trigger_expanded s' = trigger_expanded s
  /\ effects s' = effects s
  /\ isFocused s' = isFocused s.

(** Every timer pending in [s'] was pending in [s]. *)
Definition fewer_timers (s s' : State) : Prop :=
  forall id cb, timers s' !! id = Some cb -> timers s !! id = Some cb.

Section Moves.
Variable lb : ListBehavior.
Variable g : Layout.

(** What the four navigation methods of a menu have in common, in finitely
    nested menus: [f] returns, it closes the chain under the item that was
    active and nothing else, and the new active item is the one the list
    operation [op] chooses. *)
Definition closes_then_moves (f : nat -> nat -> State -> option State) (op : ListOp) : Prop :=
  forall m s, finitely_nested g (menu_items s) ->
    exists N s',
      (forall fuel, (N <= fuel)%nat -> f fuel m s = Some s')
      /\ (forall j, j ∈ expanded_items s' <->
            j ∈ expanded_items s
            /\ forall a, activeItem s !! OMenu m = Some a -> ~ reaches g (menu_items s) a j)
      /\ (exists v, activeItem s' !! OMenu m
                    = lv_active (op g (OMenu m) (menu_items s' m) v))
      /\ (activeItem s !! OMenu m = None -> s' = list_run g op (OMenu m) s)
      /\ trigger_expanded s' = trigger_expanded s
      /\ effects s' = effects s.

End Moves.

End HandlerSpec.

(** * Properties *)

(** ** The tablist *)
Module TabsFacts.
Import Keys Tabs TabsSpec.

Section Facts.
Context {E : Type}.
Variable B : Behaviors E.
Variable inputs : TabListInputs.

(** Once a first focusable tab [f] is known, the loop ends on the first
    focusable selected tab of the rest, or on [f]. *)
Lemma setDefaultState_loop_some (st : TabListState E) l f :
  setDefaultState_loop B l (Some f) st =
  match List.find (fun t => isFocusable B t && selected st t) l with
  | Some t => set_activeItem t st
  | None => set_activeItem f st
  end.
Proof.
  induction l as [|x l IH]; simpl; [reflexivity|].
  destruct (isFocusable B x); simpl; [|exact IH].
  destruct (selected st x); [reflexivity|exact IH].
Qed.

Lemma setDefaultState_loop_none (st : TabListState E) l :
  setDefaultState_loop B l None st =
  match List.find (fun t => isFocusable B t && selected st t) l with
  | Some t => set_activeItem t st
  | None =>
      match List.find (isFocusable B) l with
      | Some t => set_activeItem t st
      | None => st
      end
  end.
Proof.
  induction l as [|x l IH]; simpl; [reflexivity|].
  destruct (isFocusable B x); simpl; [|exact IH].
  destruct (selected st x); [reflexivity|].
  apply setDefaultState_loop_some.
Qed.

(** C8: [setDefaultState] makes the first focusable selected tab the active
    item when there is one, otherwise the first focusable tab, and leaves the
    state as it is when no tab of the list is focusable; it never touches
    the selected tab or the expansion state. *)
Theorem C8_setDefaultState_first_focusable (st : TabListState E) :
  setDefaultState B inputs st = setDefaultState_spec B inputs st
  /\ (List.find (isFocusable B) (items inputs) = None ->
      setDefaultState B inputs st = st)
  /\ selectedTab (setDefaultState B inputs st) = selectedTab st
  /\ expansion (setDefaultState B inputs st) = expansion st.
Proof.
  assert (Hspec : setDefaultState B inputs st = setDefaultState_spec B inputs st)
    by apply setDefaultState_loop_none.
  split; [exact Hspec|].
  split.
  - intros Hnone. rewrite Hspec. unfold setDefaultState_spec.
    destruct (List.find (fun t => isFocusable B t && selected st t) (items inputs))
      as [t|] eqn:Hsel.
    + apply find_some in Hsel as [Hin Ht].
      apply andb_prop in Ht as [Hfoc _].
      pose proof (find_none _ _ Hnone t Hin) as Hno. congruence.
    + rewrite Hnone. reflexivity.
  - rewrite Hspec. unfold setDefaultState_spec.
    destruct (List.find _ (items inputs)); [split; reflexivity|].
    destruct (List.find _ (items inputs)); split; reflexivity.
Qed.

Lemma find_value_none v :
  (forall t, In t (items inputs) -> tab_value inputs t <> v) ->
  List.find (fun t => String.eqb (tab_value inputs t) v) (items inputs) = None.
Proof.
  intros Hno. destruct (List.find _ (items inputs)) as [t|] eqn:Hf; [|reflexivity].
  apply find_some in Hf as [Hin Heq]. apply String.eqb_eq in Heq.
  exfalso. exact (Hno t Hin Heq).
Qed.

(** On a resolved tab, [open] is the expansion behaviour's [open] followed
    by the conditional update of [selectedTab]. *)
Lemma open_resolved (arg : OpenArg) (st : TabListState E) t :
  resolves inputs st arg t ->
  open B inputs arg st =
  (fst (expansion_open B t (expansion st)),
   let st' := set_expansion (snd (expansion_open B t (expansion st))) st in
   if fst (expansion_open B t (expansion st)) then set_selectedTab t st' else st').
Proof.
  intros Hres. unfold open.
  destruct Hres as [t|v t Hfind|t Hact].
  - destruct (expansion_open B t (expansion st)) as [ok e]; reflexivity.
  - rewrite Hfind. destruct (expansion_open B t (expansion st)) as [ok e]; reflexivity.
  - rewrite Hact. destruct (expansion_open B t (expansion st)) as [ok e]; reflexivity.
Qed.

(** C9: [open] returns false and changes nothing when no tab can be resolved;
    when the argument resolves to a tab, it returns what the expansion
    behaviour's [open] returned for that tab, and the selected tab becomes
    that tab exactly when this boolean is true (it is left as it was
    otherwise); the active item is never touched.  [TabPattern.open] is
    [open] on the tab itself. *)
Theorem C9_open_resolves_or_fails (arg : OpenArg) (st : TabListState E) :
  (unresolved inputs st arg -> open B inputs arg st = (false, st))
  /\ (forall t, resolves inputs st arg t ->
      let ok := fst (expansion_open B t (expansion st)) in
      let st' := snd (open B inputs arg st) in
      fst (open B inputs arg st) = ok
      /\ selectedTab st' = (if ok then Some t else selectedTab st)
      /\ activeItem st' = activeItem st
      /\ expansion st' = snd (expansion_open B t (expansion st)))
  /\ (forall t, tab_open B inputs t st = open B inputs (ArgTab t) st)
  /\ (unresolved inputs st arg \/ exists t, resolves inputs st arg t).
Proof.
  split; [|split; [|split]].
  - intros [(v & -> & Hno)|[-> Hact]]; unfold open.
    + rewrite (find_value_none v Hno). reflexivity.
    + rewrite Hact. reflexivity.
  - intros t Hres. cbv zeta. rewrite (open_resolved arg st t Hres). simpl.
    destruct (expansion_open B t (expansion st)) as [[] e]; simpl; auto.
  - reflexivity.
  - destruct arg as [t|v|].
    + right. exists t. constructor.
    + destruct (List.find (fun t => String.eqb (tab_value inputs t) v) (items inputs))
        as [t|] eqn:Hf.
      * right. exists t. constructor. exact Hf.
      * left. left. exists v. split; [reflexivity|].
        intros t Hin Heq. pose proof (find_none _ _ Hf t Hin) as Hn.
        simpl in Hn. apply String.eqb_neq in Hn. exact (Hn Heq).
    + destruct (activeItem st) as [t|] eqn:Ha.
      * right. exists t. constructor. exact Ha.
      * left. right. split; [reflexivity|exact Ha].
Qed.

End Facts.

(** The cases of C8 on the tablist [three_tabs]: tab 0 is not focusable. *)
Example setDefaultState_selected_wins :
  activeItem (setDefaultState one_at_a_time three_tabs (tabs_at None (Some 2%nat))) = Some 2%nat.
Proof. reflexivity. Qed.

Example setDefaultState_unfocusable_selected :
  activeItem (setDefaultState one_at_a_time three_tabs (tabs_at None (Some 0%nat))) = Some 1%nat.
Proof. reflexivity. Qed.

(** The cases of C9 on the same tablist: a value no tab has, a refused tab,
    and an opened tab. *)
Example open_unknown_value :
  open one_at_a_time three_tabs (ArgValue "z") (tabs_at (Some 1%nat) (Some 1%nat))
  = (false, tabs_at (Some 1%nat) (Some 1%nat)).
Proof. reflexivity. Qed.

Example open_refused_tab :
  open one_at_a_time three_tabs (ArgValue "c") (tabs_at (Some 1%nat) (Some 1%nat))
  = (false, tabs_at (Some 1%nat) (Some 1%nat)).
Proof. reflexivity. Qed.

Example open_active_tab :
  open one_at_a_time three_tabs ArgNone (tabs_at (Some 1%nat) None)
  = (true, {| activeItem := Some 1%nat; selectedTab := Some 1%nat; expansion := [1%nat] |}).
Proof. reflexivity. Qed.

End TabsFacts.

(** ** The drawer *)
Module DrawerFacts.
Import Drawer DrawerSpec.

Lemma set_openedVia_same (d : MatDrawer) : set_openedVia (_openedVia d) d = d.
Proof. destruct d; reflexivity. Qed.

Lemma _setOpen_same env restoreFocus origin (d : MatDrawer) :
  _setOpen env (opened d) restoreFocus origin d = (Resolved (toggle_result (opened d)), d).
Proof. unfold _setOpen. rewrite Bool.eqb_reflx. reflexivity. Qed.

Lemma toggle_same env openedVia (d : MatDrawer) :
  toggle env (Some (opened d)) openedVia d =
  (Resolved (toggle_result (opened d)), set_openedVia (openedVia_after d openedVia) d).
Proof.
  unfold toggle, openedVia_after.
  destruct (opened d) eqn:Hopen.
  - destruct openedVia as [via|].
    + pose proof (_setOpen_same env (negb true && focusWithinDrawer env) via
                    (set_openedVia (Some via) d)) as H.
      unfold opened in *. simpl in H. rewrite Hopen in H. simpl. rewrite H.
      reflexivity.
    + pose proof (_setOpen_same env (negb true && focusWithinDrawer env)
                    (match _openedVia d with Some via => via | None => program end) d) as H.
      unfold opened in *. rewrite Hopen in H. rewrite H. simpl.
      rewrite set_openedVia_same. reflexivity.
  - assert (H : forall o, _setOpen env false (negb false && focusWithinDrawer env) o d
                          = (Resolved result_close, d)).
    { intros o. pose proof (_setOpen_same env (negb false && focusWithinDrawer env) o d) as H.
      unfold opened in *. rewrite Hopen in H. exact H. }
    destruct openedVia as [via|]; rewrite H; reflexivity.
Qed.

(** C10 (amended): a toggle, open or close whose target equals the current
    opened state returns a promise already resolved to ['open'] or ['close']
    according to that state, and leaves every field of the drawer as it was
    except [_openedVia] -- no opened change, no animation event scheduled, no
    class toggled, no focus move -- while [_openedVia] takes the origin
    passed to an open and is reset to null by a close. *)
Theorem C10_toggle_to_current_state env openedVia (d : MatDrawer) :
  fst (toggle env (Some (opened d)) openedVia d) = Resolved (toggle_result (opened d))
  /\ same_but_openedVia d (snd (toggle env (Some (opened d)) openedVia d))
  /\ _openedVia (snd (toggle env (Some (opened d)) openedVia d)) = openedVia_after d openedVia
  /\ (opened d = true ->
      open env openedVia d =
      (Resolved result_open,
       set_openedVia (match openedVia with Some via => Some via | None => _openedVia d end) d))
  /\ (opened d = true -> open env None d = (Resolved result_open, d))
  /\ (opened d = false -> close env d = (Resolved result_close, set_openedVia None d)).
Proof.
  rewrite toggle_same. simpl.
  split; [reflexivity|].
  split; [unfold same_but_openedVia; simpl; tauto|].
  split; [reflexivity|].
  split; [|split].
  - intros Hopen. unfold open. rewrite <- Hopen at 1. rewrite toggle_same.
    unfold openedVia_after. rewrite Hopen. reflexivity.
  - intros Hopen. unfold open. rewrite <- Hopen at 1. rewrite toggle_same.
    unfold openedVia_after. rewrite Hopen. simpl. rewrite set_openedVia_same.
    reflexivity.
  - intros Hclosed. unfold close. rewrite <- Hclosed at 1. rewrite toggle_same.
    unfold openedVia_after. rewrite Hclosed. reflexivity.
Qed.

(** The claim as stated fails on [_openedVia]: opening with the keyboard a
    drawer that is open and was opened with the mouse changes the drawer. *)
Lemma C10_toggle_changes_openedVia :
  opened mouse_opened_drawer = true
  /\ _openedVia mouse_opened_drawer = Some mouse
  /\ fst (toggle plain_env (Some true) (Some keyboard) mouse_opened_drawer)
     = Resolved result_open
  /\ _openedVia (snd (toggle plain_env (Some true) (Some keyboard) mouse_opened_drawer))
     = Some keyboard.
Proof. vm_compute. repeat split. Qed.

(** A drawer closed by a click on the backdrop keeps its [_openedVia]; a
    further [close] then resets it although the drawer is closed already. *)
Example close_resets_openedVia :
  let d := snd (_closeViaBackdropClick plain_env mouse_opened_drawer) in
  opened d = false
  /\ _openedVia d = Some mouse
  /\ close plain_env d = (Resolved result_close, set_openedVia None d).
Proof. vm_compute. repeat split. Qed.

(** *** Validation of the drawers of a container *)

Lemma occurs_cons_same d p l : occurs p ((d, p) :: l).
Proof. exists [], d, l. reflexivity. Qed.

Lemma occurs_cons x p l : occurs p l -> occurs p (x :: l).
Proof. intros (l1 & d & l2 & ->). exists (x :: l1), d, l2. reflexivity. Qed.

Lemma duplicated_cons x p l : duplicated p l -> duplicated p (x :: l).
Proof.
  intros (l1 & d1 & l2 & d2 & l3 & ->). exists (x :: l1), d1, l2, d2, l3. reflexivity.
Qed.

Lemma duplicated_head d p l : occurs p l -> duplicated p ((d, p) :: l).
Proof. intros (l1 & d' & l2 & ->). exists [], d, l1, d', l2. reflexivity. Qed.

Lemma occurs_In p l : occurs p l -> In p (map snd l).
Proof.
  intros (l1 & d & l2 & ->). rewrite map_app. apply in_or_app. right. left. reflexivity.
Qed.

Lemma duplicated_not_NoDup p l : duplicated p l -> ~ NoDup (map snd l).
Proof.
  intros (l1 & d1 & l2 & d2 & l3 & ->) Hnd.
  rewrite map_app in Hnd. apply NoDup_app in Hnd as (_ & _ & Hnd).
  simpl in Hnd. apply NoDup_cons in Hnd as [Hnotin _].
  apply Hnotin. rewrite map_app. apply list_elem_of_In, in_or_app. right. left. reflexivity.
Qed.

Lemma drawer_at_cons p d q l :
  drawer_at p ((d, q) :: l) = if bool_decide (q = p) then Some d else drawer_at p l.
Proof. unfold drawer_at. simpl. case_bool_decide; reflexivity. Qed.

Lemma drawer_at_absent p l : ~ In p (map snd l) -> drawer_at p l = None.
Proof.
  intros Hnotin. unfold drawer_at.
  destruct (List.find _ l) as [[d' p']|] eqn:Hf; [|reflexivity].
  apply find_some in Hf as [Hin Hp]. apply bool_decide_eq_true in Hp.
  simpl in Hp. subst p'. exfalso. apply Hnotin.
  apply in_map_iff. exists (d', p). auto.
Qed.

(** In development mode the loop throws exactly when it meets a position
    that is taken, and names that position. *)
Lemma validate_each_dev ngDevMode drawers c :
  devMode ngDevMode = true ->
  match validate_each ngDevMode drawers c with
  | Threw m _ =>
      exists p, m = throwMatDuplicatedDrawerError (position_name p)
                /\ ((taken c p /\ occurs p drawers) \/ duplicated p drawers)
  | Returned c' =>
      NoDup (map snd drawers)
      /\ (forall p, taken c p -> ~ In p (map snd drawers))
      /\ _start c' = match drawer_at pos_start drawers with Some d => Some d | None => _start c end
      /\ _end c' = match drawer_at pos_end drawers with Some d => Some d | None => _end c end
      /\ _left c' = _left c /\ _right c' = _right c
  end.
Proof.
  intros Hdev. revert c.
  induction drawers as [|[d p] l IH]; intros c; simpl.
  - split; [constructor|]. split; [intros p _ []|]. auto.
  - destruct p; rewrite Hdev, andb_true_r.
    + (* start *)
      case_bool_decide as Htaken.
      * exists pos_start. split; [reflexivity|]. left. split; [exact Htaken|].
        apply occurs_cons_same.
      * specialize (IH {| _start := Some d; _end := _end c; _left := _left c; _right := _right c |}).
        destruct (validate_each ngDevMode l _) as [c'|m c'].
        -- destruct IH as (Hnd & Hfree & Hs & He & Hl & Hr). simpl in *.
           assert (Hnotin : ~ In pos_start (map snd l)) by (apply Hfree; simpl; congruence).
           split; [apply NoDup_cons; split; [rewrite list_elem_of_In; exact Hnotin|exact Hnd]|].
           split.
           { intros p Hp [<-|Hin].
             - simpl in Hp. congruence.
             - destruct p; simpl in Hp; [congruence|].
               apply (Hfree pos_end); [exact Hp|exact Hin]. }
           rewrite !drawer_at_cons. simpl.
           rewrite (drawer_at_absent _ _ Hnotin) in Hs.
           split; [exact Hs|]. split; [exact He|]. auto.
        -- destruct IH as (p & Hm & [[Htk Hocc]|Hdup]).
           ++ exists p. split; [exact Hm|]. destruct p; simpl in Htk.
              ** right. apply duplicated_head. exact Hocc.
              ** left. split; [exact Htk|]. apply occurs_cons. exact Hocc.
           ++ exists p. split; [exact Hm|]. right. apply duplicated_cons. exact Hdup.
    + (* end *)
      case_bool_decide as Htaken.
      * exists pos_end. split; [reflexivity|]. left. split; [exact Htaken|].
        apply occurs_cons_same.
      * specialize (IH {| _start := _start c; _end := Some d; _left := _left c; _right := _right c |}).
        destruct (validate_each ngDevMode l _) as [c'|m c'].
        -- destruct IH as (Hnd & Hfree & Hs & He & Hl & Hr). simpl in *.
           assert (Hnotin : ~ In pos_end (map snd l)) by (apply Hfree; simpl; congruence).
           split; [apply NoDup_cons; split; [rewrite list_elem_of_In; exact Hnotin|exact Hnd]|].
           split.
           { intros p Hp [<-|Hin].
             - simpl in Hp. congruence.
             - destruct p; simpl in Hp; [|congruence].
               apply (Hfree pos_start); [exact Hp|exact Hin]. }
           rewrite !drawer_at_cons. simpl.
           rewrite (drawer_at_absent _ _ Hnotin) in He.
           split; [exact Hs|]. split; [exact He|]. auto.
        -- destruct IH as (p & Hm & [[Htk Hocc]|Hdup]).
           ++ exists p. split; [exact Hm|]. destruct p; simpl in Htk.
              ** left. split; [exact Htk|]. apply occurs_cons. exact Hocc.
              ** right. apply duplicated_head. exact Hocc.
           ++ exists p. split; [exact Hm|]. right. apply duplicated_cons. exact Hdup.
Qed.

Lemma drawer_at_app p l1 l2 :
  drawer_at p (l1 ++ l2)
  = match drawer_at p l1 with Some d => Some d | None => drawer_at p l2 end.
Proof.
  induction l1 as [|[d q] l1 IH]; [reflexivity|].
  simpl app. rewrite !drawer_at_cons. simpl. destruct (bool_decide (q = p)); auto.
Qed.

Lemma last_drawer_at_cons p d q l :
  last_drawer_at p ((d, q) :: l)
  = match last_drawer_at p l with
    | Some x => Some x
    | None => if bool_decide (q = p) then Some d else None
    end.
Proof.
  unfold last_drawer_at. simpl rev. rewrite drawer_at_app.
  destruct (drawer_at p (rev l)); [reflexivity|].
  rewrite drawer_at_cons. simpl. destruct (bool_decide (q = p)); reflexivity.
Qed.

(** Outside development mode the loop never throws: every drawer is written
    to the field of its position, so the last drawer of a position is the
    one recorded. *)
Lemma validate_each_prod ngDevMode drawers c :
  devMode ngDevMode = false ->
  exists c',
    validate_each ngDevMode drawers c = Returned c'
    /\ _start c' = match last_drawer_at pos_start drawers with
                   | Some d => Some d
                   | None => _start c
                   end
    /\ _end c' = match last_drawer_at pos_end drawers with
                 | Some d => Some d
                 | None => _end c
                 end
    /\ _left c' = _left c
    /\ _right c' = _right c.
Proof.
  intros Hprod. revert c. induction drawers as [|[d p] l IH]; intros c.
  - exists c. repeat split.
  - simpl. rewrite !last_drawer_at_cons.
    destruct p; rewrite Hprod, andb_false_r.
    + destruct (IH {| _start := Some d; _end := _end c; _left := _left c; _right := _right c |})
        as (c' & Hrun & Hs & He & Hl & Hr).
      exists c'. split; [exact Hrun|]. simpl in *. rewrite Hs, He.
      destruct (last_drawer_at pos_start l), (last_drawer_at pos_end l); auto.
    + destruct (IH {| _start := _start c; _end := Some d; _left := _left c; _right := _right c |})
        as (c' & Hrun & Hs & He & Hl & Hr).
      exists c'. split; [exact Hrun|]. simpl in *. rewrite Hs, He.
      destruct (last_drawer_at pos_start l), (last_drawer_at pos_end l); auto.
Qed.

Lemma not_taken_after_reset c p :
  ~ taken {| _start := None; _end := None; _left := _left c; _right := _right c |} p.
Proof. destruct p; simpl; congruence. Qed.

(** C6 (amended): in development mode ([ngDevMode] undefined or true),
    validating a list in which two drawers have the same position throws an
    error whose message names a position that two drawers of the list have,
    and validating a list whose positions are all distinct throws nothing and
    records the drawer of each position; outside development mode nothing is
    ever thrown, the drawer recorded for a position is the last one of the
    list with that position, and the left and right drawers follow from the
    two by the direction. *)
Theorem C6_duplicated_position_throws ngDevMode dir drawers c :
  (devMode ngDevMode = true ->
   (exists p, duplicated p drawers) ->
   exists p c',
     duplicated p drawers
     /\ _validateDrawers ngDevMode dir drawers c
        = Threw (throwMatDuplicatedDrawerError (position_name p)) c')
  /\ (devMode ngDevMode = true ->
      NoDup (map snd drawers) ->
      exists c',
        _validateDrawers ngDevMode dir drawers c = Returned c'
        /\ _start c' = drawer_at pos_start drawers
        /\ _end c' = drawer_at pos_end drawers)
  /\ (devMode ngDevMode = false ->
      exists c',
        _validateDrawers ngDevMode dir drawers c = Returned c'
        /\ _start c' = last_drawer_at pos_start drawers
        /\ _end c' = last_drawer_at pos_end drawers
        /\ match dir with
           | Some dir_rtl => _left c' = _end c' /\ _right c' = _start c'
           | _ => _left c' = _start c' /\ _right c' = _end c'
           end).
Proof.
  set (c0 := {| _start := None; _end := None; _left := _left c; _right := _right c |}).
  split; [|split].
  - intros Hdev [p0 Hdup0].
    pose proof (validate_each_dev ngDevMode drawers c0 Hdev) as H.
    unfold _validateDrawers. fold c0.
    destruct (validate_each ngDevMode drawers c0) as [c'|m c'].
    + destruct H as [Hnd _]. exfalso. exact (duplicated_not_NoDup _ _ Hdup0 Hnd).
    + destruct H as (p & -> & [[Htk _]|Hdup]).
      * exfalso. exact (not_taken_after_reset c p Htk).
      * exists p, c'. split; [exact Hdup|reflexivity].
  - intros Hdev Hnd.
    pose proof (validate_each_dev ngDevMode drawers c0 Hdev) as H.
    unfold _validateDrawers. fold c0.
    destruct (validate_each ngDevMode drawers c0) as [c'|m c'].
    + destruct H as (_ & _ & Hs & He & _).
      assert (Hs' : _start c' = drawer_at pos_start drawers)
        by (rewrite Hs; destruct (drawer_at pos_start drawers); reflexivity).
      assert (He' : _end c' = drawer_at pos_end drawers)
        by (rewrite He; destruct (drawer_at pos_end drawers); reflexivity).
      destruct dir as [[]|]; eexists; (split; [reflexivity|]); simpl; auto.
    + destruct H as (p & _ & [[Htk _]|Hdup]).
      * exfalso. exact (not_taken_after_reset c p Htk).
      * exfalso. exact (duplicated_not_NoDup _ _ Hdup Hnd).
  - intros Hprod.
    destruct (validate_each_prod ngDevMode drawers c0 Hprod) as (c' & Hc' & Hs & He & _).
    unfold _validateDrawers. fold c0. rewrite Hc'.
    assert (Hs' : _start c' = last_drawer_at pos_start drawers)
      by (rewrite Hs; destruct (last_drawer_at pos_start drawers); reflexivity).
    assert (He' : _end c' = last_drawer_at pos_end drawers)
      by (rewrite He; destruct (last_drawer_at pos_end drawers); reflexivity).
    destruct dir as [[]|]; eexists; (split; [reflexivity|]); simpl; auto.
Qed.

(** The message for two drawers at the end. *)
Example duplicated_end_message :
  throwMatDuplicatedDrawerError (position_name pos_end)
  = ("A drawer was already declared for 'position=" ++ double_quote ++ "end"
       ++ double_quote ++ "'")%string.
Proof. reflexivity. Qed.

(** C6 at a list with two drawers at the end, [ngDevMode] being undefined. *)
Lemma C6_two_end_drawers_throw :
  exists p c',
    duplicated p [(0, pos_end); (1, pos_start); (2, pos_end)]%nat
    /\ _validateDrawers None None [(0, pos_end); (1, pos_start); (2, pos_end)]%nat no_slots
       = Threw (throwMatDuplicatedDrawerError (position_name p)) c'.
Proof.
  apply (proj1 (C6_duplicated_position_throws None None
                  [(0, pos_end); (1, pos_start); (2, pos_end)]%nat no_slots)).
  - reflexivity.
  - exists pos_end, [], 0%nat, [(1%nat, pos_start)], 2%nat, []. reflexivity.
Defined.

(** The claim as stated fails outside development mode: with [ngDevMode]
    false, two drawers at the end are accepted and the later one wins. *)
Lemma C6_production_mode_accepts_duplicates :
  duplicated pos_end [(0, pos_end); (1, pos_end)]%nat
  /\ _validateDrawers (Some false) None [(0, pos_end); (1, pos_end)]%nat no_slots
     = Returned {| _start := None; _end := Some 1%nat; _left := None; _right := Some 1%nat |}.
Proof.
  split; [|reflexivity].
  exists [], 0%nat, [], 1%nat, []. reflexivity.
Qed.

End DrawerFacts.

(** ** The YouTube API loader *)
Module YouTubeFacts.
Import YouTube YouTubeSpec.

(** While the service is loaded, [load] changes nothing, however often it
    is called. *)
Lemma load_when_loaded (s : Service) :
  loaded s = true -> load s = (loading s, s).
Proof. intros H. unfold load. rewrite H. reflexivity. Qed.

Lemma repeated_load_when_loaded n (s : Service) :
  loaded s = true -> run (repeat Call_load n) s = s.
Proof.
  intros H. induction n as [|n IH]; simpl; [reflexivity|].
  rewrite (load_when_loaded s H). exact IH.
Qed.

Lemma onload_pending k (s : Service) :
  scripts s !! k = Some Pending ->
  onload k s = {| loaded := true; loading := complete (next (loading s));
                  scripts := <[k := Loaded]> (scripts s) |}.
Proof. intros H. unfold onload. rewrite H. reflexivity. Qed.

Lemma onerror_pending k (s : Service) :
  scripts s !! k = Some Pending ->
  onerror k s = {| loaded := false; loading := error failure_message (loading s);
                   scripts := <[k := Failed]> (scripts s) |}.
Proof. intros H. unfold onerror. rewrite H. reflexivity. Qed.

Lemma step_one_outcome (s : Service) (e : Event) :
  one_outcome (loading s) -> one_outcome (loading (step s e)).
Proof.
  intros H. destruct e as [|k|k]; simpl.
  - unfold load. destruct (loaded s); exact H.
  - unfold onload. destruct (scripts s !! k) as [[]|]; try exact H. simpl.
    destruct H as [(Hs & Hb & Hd)|[(Hs & Hb & Hd)|(Hs & Hb & Hd)]];
      unfold complete, next, isStopped; rewrite Hs; simpl.
    + right. left. rewrite Hd. auto.
    + right. left. rewrite Hs. auto.
    + right. right. rewrite Hs. auto.
  - unfold onerror. destruct (scripts s !! k) as [[]|]; try exact H. simpl.
    destruct H as [(Hs & Hb & Hd)|[(Hs & Hb & Hd)|(Hs & Hb & Hd)]];
      unfold error, isStopped; rewrite Hs; simpl.
    + right. right. rewrite Hd. auto.
    + right. left. rewrite Hs. auto.
    + right. right. rewrite Hs. auto.
Qed.

Lemma run_one_outcome (events : list Event) (s : Service) :
  one_outcome (loading s) -> one_outcome (loading (run events s)).
Proof.
  revert s. induction events as [|e events IH]; intros s H; simpl; [exact H|].
  apply IH, step_one_outcome, H.
Qed.

(** A stopped subject ignores whatever is sent to it, so the subject of a
    service stays as it is once it has completed or errored. *)
Lemma step_stopped (s : Service) (e : Event) :
  isStopped (loading s) = true -> loading (step s e) = loading s.
Proof.
  intros H. destruct e as [|k|k]; simpl.
  - unfold load. destruct (loaded s); reflexivity.
  - unfold onload. destruct (scripts s !! k) as [[]|]; try reflexivity. simpl.
    unfold next. rewrite H. unfold complete. rewrite H. reflexivity.
  - unfold onerror. destruct (scripts s !! k) as [[]|]; try reflexivity. simpl.
    unfold error. rewrite H. reflexivity.
Qed.

Lemma run_stopped (events : list Event) (s : Service) :
  isStopped (loading s) = true -> loading (run events s) = loading s.
Proof.
  revert s. induction events as [|e events IH]; intros s H; simpl; [reflexivity|].
  unfold run in IH. rewrite IH; rewrite step_stopped; auto.
Qed.

(** While no script fails, a loaded service stays loaded and no script is
    appended to the document. *)
Lemma step_loaded (s : Service) (e : Event) :
  loaded s = true -> no_failure [e] = true ->
  loaded (step s e) = true /\ length (scripts (step s e)) = length (scripts s).
Proof.
  intros H Hok. destruct e as [|k|k]; simpl.
  - rewrite (load_when_loaded s H). auto.
  - unfold onload. destruct (scripts s !! k) as [[]|]; auto. simpl.
    rewrite length_insert. auto.
  - discriminate Hok.
Qed.

Lemma run_loaded (events : list Event) (s : Service) :
  loaded s = true -> no_failure events = true ->
  loaded (run events s) = true /\ length (scripts (run events s)) = length (scripts s).
Proof.
  revert s. induction events as [|e events IH]; intros s H Hok; simpl; [auto|].
  unfold no_failure in Hok. simpl in Hok. apply andb_true_iff in Hok as [He Hrest].
  destruct (step_loaded s e H) as [Hl Hn].
  { unfold no_failure. simpl. rewrite He. reflexivity. }
  destruct (IH (step s e) Hl Hrest) as [Hl' Hn']. unfold run in *.
  rewrite Hl', Hn', Hn. auto.
Qed.

(** C5 (amended): on a service whose subject has not terminated (no script
    of it has loaded or failed so far), with a script [k] pending.  If the
    script fails, the subject errors with ['Failed to load YouTube API'] and
    delivers nothing else, and the failure appends no script (no retry).  If
    it loads, the subject emits once and completes and [loaded] is set;
    whatever happens to the service afterwards, its subject stays that
    completed subject and every call of [load] returns it; and as long as no
    other script of the service fails, the service stays loaded and a call of
    [load] appends no script (calls of [load] alone leave the service as it
    is).  A call of [load] on a service that is not
    loaded appends exactly one script and returns the subject. *)
Theorem C5_load_outcome_on_live_subject (s : Service) (k : nat) :
  status (loading s) = Live ->
  buffer (loading s) = [] ->
  scripts s !! k = Some Pending ->
  (subscribe (loading (onerror k s)) = [N_error failure_message]
   /\ delivered (loading (onerror k s)) = delivered (loading s) ++ [N_error failure_message]
   /\ length (scripts (onerror k s)) = length (scripts s))
  /\ (subscribe (loading (onload k s)) = [N_next; N_complete]
      /\ delivered (loading (onload k s)) = delivered (loading s) ++ [N_next; N_complete]
      /\ loaded (onload k s) = true
      /\ (forall n, run (repeat Call_load n) (onload k s) = onload k s)
      /\ forall events,
           let s' := run events (onload k s) in
           loading s' = loading (onload k s)
           /\ fst (load s') = loading (onload k s)
           /\ (no_failure events = true ->
               loaded s' = true
               /\ load s' = (loading (onload k s), s')
               /\ length (scripts s') = length (scripts s)))
  /\ (loaded s = false ->
      fst (load s) = loading s
      /\ scripts (snd (load s)) = scripts s ++ [Pending]
      /\ loading (snd (load s)) = loading s).
Proof.
  intros Hlive Hbuf Hk. split; [|split].
  - rewrite (onerror_pending k s Hk). simpl.
    unfold error, subscribe, isStopped. rewrite Hlive. simpl. rewrite Hbuf. simpl.
    rewrite length_insert. auto.
  - assert (Hstop : isStopped (loading (onload k s)) = true).
    { rewrite (onload_pending k s Hk). simpl.
      unfold complete, next, isStopped. rewrite Hlive. reflexivity. }
    assert (Hlen : length (scripts (onload k s)) = length (scripts s)).
    { rewrite (onload_pending k s Hk). simpl. apply length_insert. }
    assert (Hloaded : loaded (onload k s) = true).
    { rewrite (onload_pending k s Hk). reflexivity. }
    split; [|split; [|split; [exact Hloaded|split]]].
    + rewrite (onload_pending k s Hk). simpl.
      unfold complete, next, subscribe, isStopped. rewrite Hlive. reflexivity.
    + rewrite (onload_pending k s Hk). simpl.
      unfold complete, next, isStopped. rewrite Hlive. simpl.
      rewrite <- app_assoc. reflexivity.
    + intros n. apply repeated_load_when_loaded, Hloaded.
    + intros events s'.
      assert (Hsame : loading s' = loading (onload k s))
        by (apply run_stopped, Hstop).
      split; [exact Hsame|]. split.
      * unfold load. destruct (loaded s'); exact Hsame.
      * intros Hok.
        destruct (run_loaded events (onload k s) Hloaded Hok) as [Hl Hn].
        fold s' in Hl, Hn. split; [exact Hl|]. split.
        -- rewrite (load_when_loaded s' Hl), Hsame. reflexivity.
        -- rewrite Hn. exact Hlen.
  - intros Hnot. unfold load. rewrite Hnot. simpl. auto.
Qed.

(** C5 on a new service on which [load] has been called twice: the first
    script fails, or it loads and then the second script loads and [load] is
    called again, or it loads and then the second script fails. *)
Lemma C5_first_load_outcome :
  let s := run [Call_load; Call_load] new_Service in
  (subscribe (loading (onerror 0 s)) = [N_error failure_message]
   /\ length (scripts (onerror 0 s)) = 2%nat)
  /\ subscribe (loading (onload 0 s)) = [N_next; N_complete]
  /\ (let s' := run [Script_onload 1; Call_load] (onload 0 s) in
      subscribe (fst (load s')) = [N_next; N_complete]
      /\ load s' = (loading (onload 0 s), s')
      /\ scripts s' = [Loaded; Loaded])
  /\ (let s' := run [Script_onerror 1] (onload 0 s) in
      subscribe (fst (load s')) = [N_next; N_complete]).
Proof.
  pose proof (C5_load_outcome_on_live_subject (run [Call_load; Call_load] new_Service) 0
                eq_refl eq_refl eq_refl) as (Herr & Hok & _).
  destruct Hok as (Hsub & _ & _ & _ & Hlater).
  split; [|split; [|split]].
  - split; [exact (proj1 Herr)|exact (proj2 (proj2 Herr))].
  - exact Hsub.
  - destruct (Hlater [Script_onload 1; Call_load]) as (_ & Hret & Hquiet).
    destruct (Hquiet eq_refl) as (_ & Hload & _).
    split; [|split].
    + cbv zeta. rewrite Hret. exact Hsub.
    + exact Hload.
    + reflexivity.
  - destruct (Hlater [Script_onerror 1]) as (_ & Hret & _).
    cbv zeta. rewrite Hret. exact Hsub.
Defined.

(** The claim as stated fails once a script has failed: a later call of
    [load] appends a second script, and although that script loads, the
    observable [load] returns replays the old error and never emits or
    completes. *)
Lemma C5_error_outlives_a_later_load :
  let s := run [Call_load; Script_onerror 0; Call_load; Script_onload 1] new_Service in
  scripts s = [Failed; Loaded]
  /\ loaded s = true
  /\ subscribe (fst (load s)) = [N_error failure_message]
  /\ delivered (fst (load s)) = [N_error failure_message].
Proof. repeat split. Qed.

(** Likewise, a failure that follows a load resets [loaded], and the next
    call of [load] appends a script although the API has loaded. *)
Example failure_after_load_reinjects :
  let s := run [Call_load; Call_load; Script_onload 0; Script_onerror 1] new_Service in
  subscribe (loading s) = [N_next; N_complete]
  /\ loaded s = false
  /\ scripts (snd (load s)) = [Loaded; Failed; Pending].
Proof. repeat split. Qed.

(** Whatever happens to a new service (calls of [load], scripts loading or
    failing, in any order), its subject has delivered nothing yet, or one
    value and the completion, or the one error: it never emits twice and
    never emits after an error. *)
Theorem new_service_has_one_outcome (events : list Event) :
  one_outcome (loading (run events new_Service)).
Proof. apply run_one_outcome. left. repeat split. Qed.

End YouTubeFacts.

(** ** Roving tabindex *)
Module TabIndexFacts.
Import ListBehaviors.

(** The function modelled from the glossary keeps to roving tabindex. *)
Lemma getItemTabIndex_roving : roving getItemTabIndex.
Proof.
  intros a i. unfold getItemTabIndex. case_bool_decide; [left|right]; auto.
Qed.

Lemma simple_list_roving : Menu.roving_list MenuExamples.simple_list.
Proof. intros g o items typing a i. apply getItemTabIndex_roving. Qed.

Lemma roving_unique (gti : option nat -> nat -> Z) a i j :
  roving gti -> gti a i = 0 -> gti a j = 0 -> i = j.
Proof.
  intros H Hi Hj.
  destruct (H a i) as [[_ Ei]|Ei]; [|lia].
  destruct (H a j) as [[_ Ej]|Ej]; [|lia].
  congruence.
Qed.

Section Menus.
Variable lb : Menu.ListBehavior.
Variable g : Menu.Layout.
Hypothesis lb_roving : Menu.roving_list lb.

(** What the list of the parent answers for an item: 0 only if the item is
    the active one of that list, and -1 otherwise. *)
Lemma parent_tabIndex_cases (i : nat) (s : Menu.State) :
  (Menu.parent_tabIndex lb g i s = 0
   /\ exists o, Menu.item_parent g i = Some o /\ Menu.activeItem s !! o = Some i)
  \/ Menu.parent_tabIndex lb g i s = -1.
Proof.
  unfold Menu.parent_tabIndex. destruct (Menu.item_parent g i) as [o|]; [|right; reflexivity].
  destruct (lb_roving g o (Menu.owner_items g o s) (bool_decide (o ∈ Menu.typing s))
              (Menu.activeItem s !! o) i) as [[H0 Ha]|H1].
  - left. split; [exact H0|]. exists o. split; [reflexivity|exact Ha].
  - right. exact H1.
Qed.

Lemma menu_tabIndex_range (i : nat) (s : Menu.State) :
  Menu.tabIndex lb g i s = 0 \/ Menu.tabIndex lb g i s = -1.
Proof.
  unfold Menu.tabIndex.
  destruct (Menu.item_submenu g i) as [sub|];
    [destruct (Menu.activeItem s !! Menu.OMenu sub)|];
    try (right; reflexivity);
    destruct (parent_tabIndex_cases i s) as [[H _]|H]; auto.
Qed.

Lemma menu_tabIndex_zero (i : nat) (s : Menu.State) :
  Menu.tabIndex lb g i s = 0 ->
  (exists o, Menu.item_parent g i = Some o /\ Menu.activeItem s !! o = Some i)
  /\ forall sub, Menu.item_submenu g i = Some sub ->
       Menu.activeItem s !! Menu.OMenu sub = None.
Proof.
  unfold Menu.tabIndex. intros H.
  assert (Hp : Menu.parent_tabIndex lb g i s = 0 ->
               exists o, Menu.item_parent g i = Some o /\ Menu.activeItem s !! o = Some i).
  { intros H0. destruct (parent_tabIndex_cases i s) as [[_ Ho]|H1]; [exact Ho|lia]. }
  destruct (Menu.item_submenu g i) as [sub|].
  - destruct (Menu.activeItem s !! Menu.OMenu sub) eqn:Ha; [discriminate|].
    split; [apply Hp, H|]. intros sub' [= <-]. exact Ha.
  - split; [apply Hp, H|]. intros sub' [=].
Qed.

End Menus.

(** C7 (amended): with a list behaviour that keeps to roving tabindex, the
    tab index of an item of a menu, a tablist or a tree is 0 or -1, and at
    most one item of a list has tab index 0: two items of the same menu or
    menubar, two tabs of a tablist, or two items of a tree that both have
    tab index 0 are the same item, and it is the active item of its list.  A
    menu item whose submenu has an active item has tab index -1, also when
    it is the active item of its own menu.  (Nothing is said across the
    menus of one widget.) *)
Theorem C7_roving_tabindex :
  (forall (lb : Menu.ListBehavior) (g : Menu.Layout) (s : Menu.State) (i j : nat),
      Menu.roving_list lb ->
      (Menu.tabIndex lb g i s = 0 \/ Menu.tabIndex lb g i s = -1)
      /\ (Menu.tabIndex lb g i s = 0 ->
          (exists o, Menu.item_parent g i = Some o /\ Menu.activeItem s !! o = Some i)
          /\ forall sub, Menu.item_submenu g i = Some sub ->
               Menu.activeItem s !! Menu.OMenu sub = None)
      /\ (Menu.item_parent g i = Menu.item_parent g j ->
          Menu.tabIndex lb g i s = 0 -> Menu.tabIndex lb g j s = 0 -> i = j)
      /\ (forall sub a,
            Menu.item_submenu g i = Some sub ->
            Menu.activeItem s !! Menu.OMenu sub = Some a ->
            Menu.tabIndex lb g i s = -1))
  /\ (forall (E : Type) (B : Tabs.Behaviors E) (inputs : Tabs.TabListInputs)
        (st : Tabs.TabListState E) (t t' : nat),
        roving (Tabs.getItemTabIndex B inputs) ->
        (Tabs.tabIndex B inputs st t = 0 \/ Tabs.tabIndex B inputs st t = -1)
        /\ (Tabs.tabIndex B inputs st t = 0 -> Tabs.active st t = true)
        /\ (Tabs.tabIndex B inputs st t = 0 -> Tabs.tabIndex B inputs st t' = 0 -> t = t'))
  /\ (forall (getItemTabindex : option nat -> nat -> Z) (st : Tree.TreeState) (i j : nat),
        roving getItemTabindex ->
        (Tree.tabIndex getItemTabindex st i = 0 \/ Tree.tabIndex getItemTabindex st i = -1)
        /\ (Tree.tabIndex getItemTabindex st i = 0 -> Tree.active st i = true)
        /\ (Tree.tabIndex getItemTabindex st i = 0 ->
            Tree.tabIndex getItemTabindex st j = 0 -> i = j)).
Proof.
  split; [|split].
  - intros lb g s i j Hlb. split; [apply menu_tabIndex_range, Hlb|].
    split; [apply menu_tabIndex_zero, Hlb|]. split.
    + intros Hparent Hi Hj.
      apply (menu_tabIndex_zero lb g Hlb) in Hi as [(o & Ho & Hai) _].
      apply (menu_tabIndex_zero lb g Hlb) in Hj as [(o' & Ho' & Haj) _].
      rewrite Hparent, Ho' in Ho. injection Ho as ->. congruence.
    + intros sub a Hsub Ha. unfold Menu.tabIndex. rewrite Hsub, Ha. reflexivity.
  - intros E B inputs st t t' H. unfold Tabs.tabIndex, Tabs.active.
    split; [destruct (H (Tabs.activeItem st) t) as [[H0 _]|H1]; auto|]. split.
    + intros H0. destruct (H (Tabs.activeItem st) t) as [[_ Ha]|H1]; [|lia].
      apply bool_decide_eq_true. exact Ha.
    + apply roving_unique, H.
  - intros gti st i j H. unfold Tree.tabIndex, Tree.active.
    split; [destruct (H (Tree.activeItem st) i) as [[H0 _]|H1]; auto|]. split.
    + intros H0. destruct (H (Tree.activeItem st) i) as [[_ Ha]|H1]; [|lia].
      apply bool_decide_eq_true. exact Ha.
    + apply roving_unique, H.
Qed.

Import Menu MenuHandlers MenuExamples.

(** C7 on the page, with the trigger's menu open down to menu 3: in each
    menu only the active item can have tab index 0, and the items 10 and 20,
    whose submenus have an active item, have -1.  In the tablist of three
    tabs with tab 1 active, and in a tree with item 4 active, only the
    active one can have tab index 0. *)
Lemma C7_tab_indices_of_the_open_menus :
  roving_list simple_list
  /\ tabIndex simple_list page 10 deep_open = -1
  /\ tabIndex simple_list page 20 deep_open = -1
  /\ tabIndex simple_list page 30 deep_open = 0
  /\ (forall i, item_parent page i = item_parent page 30 ->
        tabIndex simple_list page i deep_open = 0 -> i = 30%nat)
  /\ (forall t,
        Tabs.tabIndex TabsSpec.one_at_a_time TabsSpec.three_tabs
          (TabsSpec.tabs_at (Some 1%nat) None) t = 0 -> t = 1%nat)
  /\ (forall i,
        Tree.tabIndex getItemTabIndex {| Tree.activeItem := Some 4%nat |} i = 0 ->
        i = 4%nat).
Proof.
  split; [exact simple_list_roving|].
  destruct C7_roving_tabindex as (Hmenu & Htabs & Htree).
  split; [|split; [|split; [reflexivity|split; [|split]]]];
    [| | |
     intros t Ht;
     destruct (Htabs _ TabsSpec.one_at_a_time TabsSpec.three_tabs
                 (TabsSpec.tabs_at (Some 1%nat) None) t 1%nat getItemTabIndex_roving)
       as (_ & _ & H); apply H; [exact Ht|reflexivity]
     |
     intros i Hi;
     destruct (Htree getItemTabIndex {| Tree.activeItem := Some 4%nat |} i 4%nat
                 getItemTabIndex_roving)
       as (_ & _ & H); apply H; [exact Hi|reflexivity]].
  - destruct (Hmenu simple_list page deep_open 10%nat 10%nat simple_list_roving)
      as (_ & _ & _ & H). apply (H 2%nat 20%nat); reflexivity.
  - destruct (Hmenu simple_list page deep_open 20%nat 20%nat simple_list_roving)
      as (_ & _ & _ & H). apply (H 3%nat 30%nat); reflexivity.
  - intros i Hp Hi.
    destruct (Hmenu simple_list page deep_open i 30%nat simple_list_roving)
      as (_ & _ & H & _). apply H; [exact Hp|exact Hi|reflexivity].
Defined.

(** The claim as stated fails for a widget of more than one menu.  The
    trigger is clicked, ArrowRight opens the submenu of item 10 and then
    that of item 20, and the pointer moves over item 11: now item 11 of
    menu 1 and item 30 of menu 3, both in visible menus under trigger 0,
    have tab index 0. *)
Lemma C7_two_tabbable_items_under_one_trigger :
  exists s,
    run simple_list page (fun _ => false) 9
      [TriggerClick 0; MenuKeydown 1 "ArrowRight"; MenuKeydown 2 "ArrowRight";
       MenuMouseOver 1 (Nat.eqb 11)] (initial page_items) = Some s
    /\ root page 9 1 = Some (Some (RTrigger 0))
    /\ root page 9 3 = Some (Some (RTrigger 0))
    /\ visible page 1 s = true
    /\ visible page 3 s = true
    /\ tabIndex simple_list page 11 s = 0
    /\ tabIndex simple_list page 30 s = 0.
Proof.
  eexists. split; [vm_compute; reflexivity|].
  repeat (split; [vm_compute; reflexivity|]). vm_compute; reflexivity.
Qed.

End TabIndexFacts.

(** ** Menus: the close loops *)
Module MenuLoops.
Import Keys Menu MenuSpec.

Lemma pop_snoc (l : list nat) (x : nat) : pop (l ++ [x]) = Some (l, x).
Proof.
  induction l as [|y l IH]; simpl; [reflexivity|]. rewrite IH. reflexivity.
Qed.

Lemma pop_Some (l rest : list nat) (x : nat) : pop l = Some (rest, x) -> l = rest ++ [x].
Proof.
  revert rest. induction l as [|y l IH]; intros rest; simpl; [discriminate|].
  destruct (pop l) as [[r z]|] eqn:Hpop.
  - intros [= <- <-]. simpl. f_equal. apply IH. reflexivity.
  - intros [= <- <-]. destruct l as [|z l]; [reflexivity|].
    simpl in Hpop. destruct (pop l) as [[r w]|]; discriminate.
Qed.

Section Loops.
Variable lb : ListBehavior.
Variable g : Layout.

Local Abbreviation finishes := (MenuSpec.finishes lb g).

(** More fuel never changes the result of a loop that has ended. *)
Lemma close_loop_more_fuel c n wl s s' :
  close_loop lb g c n wl s = Some s' ->
  forall k, (n <= k)%nat -> close_loop lb g c k wl s = Some s'.
Proof.
  revert wl s. induction n as [|n IH]; intros wl s H k Hk; simpl in H; [discriminate|].
  destruct k as [|k]; [lia|]. simpl.
  destruct (pop wl) as [[rest i]|]; [|exact H].
  apply IH; [exact H|lia].
Qed.

(** *** What a turn of the loops touches *)

Lemma clear_timeouts_fields m (s : State) :
  expanded_items (_clearTimeouts m s) = expanded_items s
  /\ trigger_expanded (_clearTimeouts m s) = trigger_expanded s
  /\ activeItem (_clearTimeouts m s) = activeItem s
  /\ typing (_clearTimeouts m s) = typing s
  /\ isFocused (_clearTimeouts m s) = isFocused s
  /\ effects (_clearTimeouts m s) = effects s
  /\ next_timer (_clearTimeouts m s) = next_timer s
  /\ menu_items (_clearTimeouts m s) = menu_items s.
Proof.
  unfold _clearTimeouts, _clearCloseTimeout, _clearOpenTimeout.
  destruct (_openTimeout s !! m); simpl;
    destruct (_closeTimeout s !! m); simpl; repeat split; reflexivity.
Qed.

(** No turn writes to an array of items. *)
Lemma visit_menu_items c i (s : State) : menu_items (visit lb g c i s) = menu_items s.
Proof.
  unfold visit.
  destruct c; destruct (item_parent g i) as [[p|b]|]; simpl; try reflexivity.
  destruct (clear_timeouts_fields p
              (list_run g (lb_unfocus lb) (OMenu p)
                 (set_expanded_items (expanded_items s ∖ {[i]}) s)))
    as (_ & _ & _ & _ & _ & _ & _ & H).
  rewrite H. reflexivity.
Qed.

Lemma finishes_nil items c : finishes items c [].
Proof.
  intros rest s Hs. exists 0%nat, s. split; [exact Hs|].
  intros k. rewrite app_nil_r. reflexivity.
Qed.

Lemma finishes_app items c l1 l2 :
  finishes items c l1 -> finishes items c l2 -> finishes items c (l1 ++ l2).
Proof.
  intros H1 H2 rest s Hs.
  destruct (H2 (rest ++ l1) s Hs) as (n2 & s2 & Hs2 & E2).
  destruct (H1 rest s2 Hs2) as (n1 & s1 & Hs1 & E1).
  exists (n2 + n1)%nat, s1. split; [exact Hs1|]. intros k.
  rewrite app_assoc, <- Nat.add_assoc, E2. apply E1.
Qed.

Lemma finishes_all items c l :
  (forall j, In j l -> finishes items c [j]) -> finishes items c l.
Proof.
  induction l as [|x l IH]; intros H; [apply finishes_nil|].
  change (x :: l) with ([x] ++ l). apply finishes_app.
  - apply H. left. reflexivity.
  - apply IH. intros j Hj. apply H. right. exact Hj.
Qed.

Lemma finishes_item items c i : Acc (child g items) i -> finishes items c [i].
Proof.
  induction 1 as [i _ IH]. intros rest s Hs.
  destruct (finishes_all items c (items_under g items i) IH rest (visit lb g c i s))
    as (n & s1 & Hs1 & E).
  { rewrite visit_menu_items. exact Hs. }
  exists (S n), s1. split; [exact Hs1|]. intros k. simpl. rewrite pop_snoc.
  unfold submenu_items. rewrite Hs. apply E.
Qed.

Lemma close_loop_terminates c wl s :
  (forall i, In i wl -> Acc (child g (menu_items s)) i) ->
  exists n s', forall k, (n <= k)%nat -> close_loop lb g c k wl s = Some s'.
Proof.
  intros Hacc.
  destruct (finishes_all (menu_items s) c wl
              (fun j Hj => finishes_item (menu_items s) c j (Hacc j Hj)) [] s eq_refl)
    as (n & s1 & _ & E).
  exists (n + 1)%nat, s1. intros k Hk.
  apply close_loop_more_fuel with (n := (n + 1)%nat); [|exact Hk].
  rewrite E. reflexivity.
Qed.

(** What every turn preserves, the loop preserves. *)
Lemma close_loop_preserves (P : State -> Prop) c :
  (forall i s, P s -> P (visit lb g c i s)) ->
  forall n wl s s', close_loop lb g c n wl s = Some s' -> P s -> P s'.
Proof.
  intros Hvisit. induction n as [|n IH]; intros wl s s' H Hs; simpl in H; [discriminate|].
  destruct (pop wl) as [[rest i]|].
  - eapply IH; [exact H|]. apply Hvisit, Hs.
  - injection H as <-. exact Hs.
Qed.

(** The loops leave the arrays of items as they are. *)
Lemma close_loop_menu_items c n wl s s' :
  close_loop lb g c n wl s = Some s' -> menu_items s' = menu_items s.
Proof.
  intros H.
  apply (close_loop_preserves (fun x => menu_items x = menu_items s) c)
    with (n := n) (wl := wl) (s := s); [|exact H|reflexivity].
  intros i x Hx. rewrite visit_menu_items. exact Hx.
Qed.

(** What the turn for an item establishes and no turn destroys holds, at
    the end, for every item of the work list and of the chains under it. *)
Lemma close_loop_visits (Q : nat -> State -> Prop) c :
  (forall i s, Q i (visit lb g c i s)) ->
  (forall i k s, Q i s -> Q i (visit lb g c k s)) ->
  forall n wl s s', close_loop lb g c n wl s = Some s' ->
  forall i j, In i wl -> reaches g (menu_items s) i j -> Q j s'.
Proof.
  intros Hdone Hkept.
  induction n as [|n IH]; intros wl s s' H i j Hi Hreach; simpl in H; [discriminate|].
  destruct (pop wl) as [[rest x]|] eqn:Hpop.
  - apply pop_Some in Hpop. subst wl.
    apply in_app_or in Hi as [Hi|[Heq|[]]].
    + eapply IH; [exact H| |rewrite visit_menu_items; exact Hreach].
      apply in_or_app. left. exact Hi.
    + subst x. inversion Hreach as [|? k ? Hchild Hk]; subst.
      * eapply (close_loop_preserves (Q j) c); [|exact H|apply Hdone].
        intros i s0. apply Hkept.
      * eapply IH; [exact H| |rewrite visit_menu_items; exact Hk].
        apply in_or_app. right. exact Hchild.
  - destruct wl; [destruct Hi|]. simpl in Hpop. destruct (pop wl) as [[]|]; discriminate.
Qed.

Lemma visit_expanded c i (s : State) :
  expanded_items (visit lb g c i s) = expanded_items s ∖ {[i]}.
Proof.
  unfold visit.
  destruct c; destruct (item_parent g i) as [[p|b]|]; simpl;
    try reflexivity.
  apply clear_timeouts_fields.
Qed.

Lemma visit_fields c i (s : State) :
  trigger_expanded (visit lb g c i s) = trigger_expanded s
  /\ isFocused (visit lb g c i s) = isFocused s
  /\ effects (visit lb g c i s) = effects s
  /\ next_timer (visit lb g c i s) = next_timer s.
Proof.
  unfold visit.
  destruct c; destruct (item_parent g i) as [[p|b]|]; simpl;
    try (repeat split; reflexivity).
  destruct (clear_timeouts_fields p
              (list_run g (lb_unfocus lb) (OMenu p)
                 (set_expanded_items (expanded_items s ∖ {[i]}) s)))
    as (_ & H1 & _ & _ & H2 & H3 & H4 & _).
  rewrite H1, H2, H3, H4. repeat split; reflexivity.
Qed.

(** A loop only closes: it opens no item, and leaves the triggers, the focus
    flags and the recorded calls alone. *)
Lemma close_loop_fields c n wl s s' :
  close_loop lb g c n wl s = Some s' ->
  expanded_items s' ⊆ expanded_items s
  /\ trigger_expanded s' = trigger_expanded s
  /\ isFocused s' = isFocused s
  /\ effects s' = effects s
  /\ next_timer s' = next_timer s.
Proof.
  intros H.
  apply (close_loop_preserves
           (fun x => expanded_items x ⊆ expanded_items s
                     /\ trigger_expanded x = trigger_expanded s
                     /\ isFocused x = isFocused s
                     /\ effects x = effects s
                     /\ next_timer x = next_timer s) c) with (n := n) (wl := wl) (s := s);
    [|exact H|repeat split; reflexivity].
  intros i x (He & Ht & Hf & Hx & Hn).
  destruct (visit_fields c i x) as (Ht' & Hf' & Hx' & Hn').
  rewrite visit_expanded, Ht', Hf', Hx', Hn'.
  repeat split; try assumption. set_solver.
Qed.

(** Every item of the work list and of the chains under it ends closed. *)
Lemma close_loop_closes c n wl s s' :
  close_loop lb g c n wl s = Some s' ->
  forall i j, In i wl -> reaches g (menu_items s) i j -> j ∉ expanded_items s'.
Proof.
  intros H. apply (close_loop_visits (fun j x => j ∉ expanded_items x) c) with (n := n) (s := s).
  - intros i x. rewrite visit_expanded. set_solver.
  - intros i k x Hx. rewrite visit_expanded. set_solver.
  - exact H.
Qed.

(** An expanded item that is in none of the chains stays expanded. *)
Lemma close_loop_keeps c n wl s s' j :
  close_loop lb g c n wl s = Some s' ->
  (forall i, In i wl -> ~ reaches g (menu_items s) i j) ->
  j ∈ expanded_items s -> j ∈ expanded_items s'.
Proof.
  revert wl s. induction n as [|n IH]; intros wl s H Hout Hj; simpl in H; [discriminate|].
  destruct (pop wl) as [[rest x]|] eqn:Hpop.
  - apply pop_Some in Hpop. subst wl.
    eapply IH; [exact H| |].
    + rewrite visit_menu_items.
      intros i Hi Hreach. apply in_app_or in Hi as [Hi|Hi].
      * apply (Hout i); [apply in_or_app; left; exact Hi|exact Hreach].
      * apply (Hout x); [apply in_or_app; right; left; reflexivity|].
        eapply reaches_down; [exact Hi|exact Hreach].
    + rewrite visit_expanded.
      assert (j <> x).
      { intros ->. apply (Hout x); [apply in_or_app; right; left; reflexivity|constructor]. }
      set_solver.
  - injection H as <-. exact Hj.
Qed.

End Loops.

End MenuLoops.
(** ** Menus: closing *)
Module MenuClose.
Import Keys Menu MenuSpec MenuLoops.

Lemma pop_None (l : list nat) : pop l = None -> l = [].
Proof.
  destruct l as [|x l]; [reflexivity|]. simpl. destruct (pop l) as [[]|]; discriminate.
Qed.

(** *** An array after [pop()] *)
Section Popped.
Variable g : Layout.
Variables its its' : nat -> list nat.
Variables m x : nat.
Hypothesis popped_here : its m = its' m ++ [x].
Hypothesis same_elsewhere : forall m', m' <> m -> its' m' = its m'.

Lemma child_popped k a : child g its' k a -> child g its k a.
Proof.
  unfold child, items_under. destruct (item_submenu g a) as [sub|]; [|tauto].
  destruct (decide (sub = m)) as [->|Hne].
  - rewrite popped_here. intros H. apply in_or_app. left. exact H.
  - rewrite (same_elsewhere sub Hne). tauto.
Qed.

Lemma child_split k a : child g its k a -> child g its' k a \/ k = x.
Proof.
  unfold child, items_under. destruct (item_submenu g a) as [sub|]; [|tauto].
  destruct (decide (sub = m)) as [->|Hne].
  - rewrite popped_here. intros H. apply in_app_or in H as [H|[H|[]]]; auto.
  - rewrite (same_elsewhere sub Hne). tauto.
Qed.

Lemma reaches_popped i j : reaches g its' i j -> reaches g its i j.
Proof.
  induction 1 as [i|i k j Hchild _ IH]; [constructor|].
  eapply reaches_down; [apply child_popped, Hchild|exact IH].
Qed.

(** A chain in the array before the [pop()] is a chain in the array after
    it, or passes through the popped item. *)
Lemma reaches_split i j :
  reaches g its i j -> reaches g its' i j \/ reaches g its' x j.
Proof.
  induction 1 as [i|i k j Hchild _ IH]; [left; constructor|].
  destruct IH as [IH|IH]; [|right; exact IH].
  destruct (child_split k i Hchild) as [Hc | ->].
  - left. eapply reaches_down; [exact Hc|exact IH].
  - right. exact IH.
Qed.

Lemma Acc_popped i : Acc (child g its) i -> Acc (child g its') i.
Proof.
  induction 1 as [i _ IH]. constructor. intros k Hk. apply IH, child_popped, Hk.
Qed.

End Popped.

Section Close.
Variable lb : ListBehavior.
Variable g : Layout.

Local Abbreviation before_loop := (MenuSpec.before_loop lb g).
Local Abbreviation trigger_before_loop := (MenuSpec.trigger_before_loop lb g).
Local Abbreviation trigger_items := (MenuSpec.trigger_items g).

Lemma root_more_fuel n m r :
  root g n m = Some r -> forall k, (n <= k)%nat -> root g k m = Some r.
Proof.
  revert m. induction n as [|n IH]; intros m H k Hk; simpl in H; [discriminate|].
  destruct k as [|k]; [lia|]. simpl.
  destruct (menu_parent g m) as [[t|p]|]; try exact H.
  destruct (item_parent g p) as [[gm|b]|]; try exact H.
  apply IH; [exact H|lia].
Qed.

(** *** The loop with its first turn *)

Lemma pop_items_here m rest (s : State) : menu_items (pop_items m rest s) m = rest.
Proof. simpl. rewrite Nat.eqb_refl. reflexivity. Qed.

Lemma pop_items_elsewhere m rest (s : State) m' :
  m' <> m -> menu_items (pop_items m rest s) m' = menu_items s m'.
Proof. intros H. simpl. apply Nat.eqb_neq in H. rewrite H. reflexivity. Qed.

Lemma pop_items_popped m rest x (s : State) :
  pop (menu_items s m) = Some (rest, x) ->
  forall m', menu_items (pop_items m rest s) m' = popped (menu_items s) m m'.
Proof.
  intros Hpop m'. apply pop_Some in Hpop. unfold popped. simpl.
  destruct (m' =? m)%nat; [|reflexivity]. rewrite Hpop, removelast_last. reflexivity.
Qed.

Lemma close_items_more_fuel c n m s s' :
  close_items lb g c n m s = Some s' ->
  forall k, (n <= k)%nat -> close_items lb g c k m s = Some s'.
Proof.
  unfold close_items. destruct (pop (menu_items s m)) as [[rest x]|]; [|auto].
  apply close_loop_more_fuel.
Qed.

Lemma close_items_terminates c m s :
  finitely_nested g (menu_items s) ->
  exists N s', forall fuel, (N <= fuel)%nat -> close_items lb g c fuel m s = Some s'.
Proof.
  intros Hwf. unfold close_items.
  destruct (pop (menu_items s m)) as [[rest x]|] eqn:Hpop; [|exists 0%nat, s; auto].
  apply close_loop_terminates. intros i _. rewrite visit_menu_items.
  apply (Acc_popped g (menu_items s) _ m x).
  - rewrite pop_items_here. apply pop_Some, Hpop.
  - intros m'. apply pop_items_elsewhere.
  - apply Hwf.
Qed.

(** What every turn preserves and the [pop()] does not disturb, the loop
    preserves. *)
Lemma close_items_preserves (P : State -> Prop) c :
  (forall i s, P s -> P (visit lb g c i s)) ->
  (forall m rest s, P s -> P (pop_items m rest s)) ->
  forall n m s s', close_items lb g c n m s = Some s' -> P s -> P s'.
Proof.
  intros Hvisit Hpop n m s s' H Hs. unfold close_items in H.
  destruct (pop (menu_items s m)) as [[rest x]|]; [|injection H as <-; exact Hs].
  eapply close_loop_preserves; [exact Hvisit|exact H|]. apply Hvisit, Hpop, Hs.
Qed.

(** What the turn for an item establishes and no turn destroys holds, at
    the end, for every item the array held when the loop began and for the
    chains under them. *)
Lemma close_items_visits (Q : nat -> State -> Prop) c :
  (forall i s, Q i (visit lb g c i s)) ->
  (forall i k s, Q i s -> Q i (visit lb g c k s)) ->
  forall n m s s', close_items lb g c n m s = Some s' ->
  forall i j, In i (menu_items s m) -> reaches g (menu_items s) i j -> Q j s'.
Proof.
  intros Hdone Hkept n m s s' H i j Hi Hreach. unfold close_items in H.
  destruct (pop (menu_items s m)) as [[rest x]|] eqn:Hpop.
  2:{ apply pop_None in Hpop. rewrite Hpop in Hi. destruct Hi. }
  pose proof (pop_Some _ _ _ Hpop) as Harr.
  set (s1 := pop_items m rest s) in *.
  assert (Hits : menu_items (visit lb g c x s1) = menu_items s1) by apply visit_menu_items.
  assert (Hx : forall j, reaches g (menu_items s1) x j -> Q j s').
  { intros j0 Hr. inversion Hr as [|? k ? Hchild Hk]; subst.
    - eapply (close_loop_preserves lb g (Q j0) c); [|exact H|apply Hdone].
      intros i0 s0. apply Hkept.
    - eapply (close_loop_visits lb g Q c Hdone Hkept); [exact H| |rewrite Hits; exact Hk].
      apply in_or_app. right. exact Hchild. }
  assert (Hrest : forall i j, In i rest -> reaches g (menu_items s1) i j -> Q j s').
  { intros i0 j0 Hi0 Hr.
    eapply (close_loop_visits lb g Q c Hdone Hkept); [exact H| |rewrite Hits; exact Hr].
    apply in_or_app. left. exact Hi0. }
  destruct (reaches_split g (menu_items s) (menu_items s1) m x) with (i := i) (j := j)
    as [Hr|Hr]; try assumption.
  - unfold s1. rewrite pop_items_here. exact Harr.
  - intros m'. apply pop_items_elsewhere.
  - rewrite Harr in Hi. apply in_app_or in Hi as [Hi|[<-|[]]].
    + eapply Hrest; eassumption.
    + apply Hx, Hr.
  - apply Hx, Hr.
Qed.

Lemma pop_items_fields m rest (s : State) :
  expanded_items (pop_items m rest s) = expanded_items s
  /\ trigger_expanded (pop_items m rest s) = trigger_expanded s
  /\ isFocused (pop_items m rest s) = isFocused s
  /\ effects (pop_items m rest s) = effects s
  /\ next_timer (pop_items m rest s) = next_timer s.
Proof. repeat split; reflexivity. Qed.

(** The loop only closes, and shortens the one array it was entered with:
    it opens no item, leaves the triggers, the focus flags and the recorded
    calls alone, and every item the array held and every item of the chains
    under them ends closed. *)
Lemma close_items_post c fuel m s s' :
  close_items lb g c fuel m s = Some s' ->
  (forall i j, In i (menu_items s m) -> reaches g (menu_items s) i j ->
     j ∉ expanded_items s')
  /\ expanded_items s' ⊆ expanded_items s
  /\ trigger_expanded s' = trigger_expanded s
  /\ isFocused s' = isFocused s
  /\ effects s' = effects s
  /\ next_timer s' = next_timer s
  /\ forall m', menu_items s' m' = popped (menu_items s) m m'.
Proof.
  intros H. split.
  { apply (close_items_visits (fun j x => j ∉ expanded_items x) c) with (n := fuel).
    - intros i x. rewrite visit_expanded. set_solver.
    - intros i k x Hx. rewrite visit_expanded. set_solver.
    - exact H. }
  unfold close_items in H.
  destruct (pop (menu_items s m)) as [[rest x]|] eqn:Hpop.
  - destruct (close_loop_fields lb g _ _ _ _ _ H) as (Hsub & Ht & Hf & He & Hn).
    destruct (visit_fields lb g c x (pop_items m rest s)) as (Ht' & Hf' & He' & Hn').
    rewrite visit_expanded in Hsub. rewrite Ht, Hf, He, Hn, Ht', Hf', He', Hn'.
    split; [simpl in Hsub; set_solver|]. repeat split.
    intros m'. rewrite (close_loop_menu_items lb g _ _ _ _ _ H), visit_menu_items.
    apply (pop_items_popped m rest x s Hpop).
  - injection H as <-. repeat split; try reflexivity.
    intros m'. unfold popped. apply pop_None in Hpop.
    destruct (m' =? m)%nat eqn:E; [|reflexivity].
    apply Nat.eqb_eq in E. subst m'. rewrite Hpop. reflexivity.
Qed.

(** An expanded item that is in none of the chains stays expanded. *)
Lemma close_items_keeps c fuel m s s' j :
  close_items lb g c fuel m s = Some s' ->
  (forall i, In i (menu_items s m) -> ~ reaches g (menu_items s) i j) ->
  j ∈ expanded_items s -> j ∈ expanded_items s'.
Proof.
  intros H Hout Hj. unfold close_items in H.
  destruct (pop (menu_items s m)) as [[rest x]|] eqn:Hpop;
    [|injection H as <-; exact Hj].
  pose proof (pop_Some _ _ _ Hpop) as Harr.
  set (s1 := pop_items m rest s) in *.
  assert (Hback : forall i, reaches g (menu_items s1) i j -> reaches g (menu_items s) i j).
  { intros i. apply (reaches_popped g (menu_items s) (menu_items s1) m x).
    - unfold s1. rewrite pop_items_here. exact Harr.
    - intros m'. apply pop_items_elsewhere. }
  assert (Hxin : In x (menu_items s m)).
  { rewrite Harr. apply in_or_app. right. left. reflexivity. }
  eapply close_loop_keeps; [exact H| |].
  - rewrite visit_menu_items. intros i Hi Hr. apply in_app_or in Hi as [Hi|Hi].
    + apply (Hout i); [rewrite Harr; apply in_or_app; left; exact Hi|apply Hback, Hr].
    + apply (Hout x Hxin). apply Hback. eapply reaches_down; [exact Hi|exact Hr].
  - rewrite visit_expanded.
    assert (j <> x) by (intros ->; apply (Hout x Hxin); constructor).
    simpl. set_solver.
Qed.

(** *** [MenuItemPattern.close] *)

Lemma before_loop_fields i refocus (s : State) :
  expanded_items (before_loop i refocus s) = expanded_items s ∖ {[i]}
  /\ trigger_expanded (before_loop i refocus s) = trigger_expanded s
  /\ isFocused (before_loop i refocus s) = isFocused s
  /\ effects (before_loop i refocus s) = effects s
  /\ next_timer (before_loop i refocus s) = next_timer s
  /\ menu_items (before_loop i refocus s) = menu_items s.
Proof.
  unfold MenuSpec.before_loop. destruct refocus; [destruct (item_parent g i)|];
    repeat split; reflexivity.
Qed.

Lemma item_close_unfold fuel i refocus s :
  item_close lb g fuel i refocus s
  = match item_submenu g i with
    | Some sub => close_items lb g true fuel sub (before_loop i refocus s)
    | None => Some (before_loop i refocus s)
    end.
Proof. reflexivity. Qed.

Lemma item_close_more_fuel n i refocus s s' :
  item_close lb g n i refocus s = Some s' ->
  forall k, (n <= k)%nat -> item_close lb g k i refocus s = Some s'.
Proof.
  rewrite item_close_unfold. intros H k Hk. rewrite item_close_unfold.
  destruct (item_submenu g i); [|exact H]. eapply close_items_more_fuel; eassumption.
Qed.

Lemma item_close_terminates i refocus s :
  finitely_nested g (menu_items s) ->
  exists N s', forall fuel, (N <= fuel)%nat -> item_close lb g fuel i refocus s = Some s'.
Proof.
  intros Hwf.
  destruct (before_loop_fields i refocus s) as (_ & _ & _ & _ & _ & Hits).
  destruct (item_submenu g i) as [sub|] eqn:Hsub.
  - destruct (close_items_terminates true sub (before_loop i refocus s)) as (N & s' & H).
    { rewrite Hits. exact Hwf. }
    exists N, s'. intros fuel Hfuel. rewrite item_close_unfold, Hsub. apply H, Hfuel.
  - exists 0%nat, (before_loop i refocus s). intros fuel _.
    rewrite item_close_unfold, Hsub. reflexivity.
Qed.

(** [MenuItemPattern.close] closes the item and the whole chain of submenus
    under it, opens nothing, leaves triggers, focus flags and recorded calls
    alone, and removes the last item from the array of the item's
    submenu. *)
Lemma item_close_post fuel i refocus s s' :
  item_close lb g fuel i refocus s = Some s' ->
  (forall j, reaches g (menu_items s) i j -> j ∉ expanded_items s')
  /\ expanded_items s' ⊆ expanded_items s
  /\ trigger_expanded s' = trigger_expanded s
  /\ isFocused s' = isFocused s
  /\ effects s' = effects s
  /\ next_timer s' = next_timer s
  /\ forall m', menu_items s' m' =
       match item_submenu g i with
       | Some sub => popped (menu_items s) sub m'
       | None => menu_items s m'
       end.
Proof.
  rewrite item_close_unfold. intros H.
  destruct (before_loop_fields i refocus s) as (Hb & Ht' & Hf' & He' & Hn' & Hits).
  destruct (item_submenu g i) as [sub|] eqn:Hsub.
  - destruct (close_items_post _ _ _ _ _ H) as (Hall & Hsubset & Ht & Hf & He & Hn & Hpop).
    rewrite Hb in Hsubset. rewrite Hits in Hall, Hpop. rewrite Ht, Hf, He, Hn.
    split; [|split; [set_solver|auto 10]].
    intros j Hreach. inversion Hreach as [|? k ? Hchild Hk]; subst.
    + set_solver.
    + unfold child, items_under in Hchild. rewrite Hsub in Hchild.
      eapply Hall; eassumption.
  - injection H as <-. rewrite Hb.
    split; [|split; [set_solver|rewrite Ht', Hf', He', Hn', Hits; auto 10]].
    intros j Hreach. inversion Hreach as [|? k ? Hchild Hk]; subst.
    + set_solver.
    + unfold child, items_under in Hchild. rewrite Hsub in Hchild. destruct Hchild.
Qed.

Lemma item_close_keeps fuel i refocus s s' j :
  item_close lb g fuel i refocus s = Some s' ->
  ~ reaches g (menu_items s) i j -> j ∈ expanded_items s -> j ∈ expanded_items s'.
Proof.
  rewrite item_close_unfold. intros H Hout Hj.
  destruct (before_loop_fields i refocus s) as (Hb & _ & _ & _ & _ & Hits).
  assert (Hne : j <> i) by (intros ->; apply Hout; constructor).
  destruct (item_submenu g i) as [sub|] eqn:Hsub.
  - eapply close_items_keeps; [exact H| |rewrite Hb; set_solver].
    rewrite Hits. intros k Hk Hreach. apply Hout.
    eapply reaches_down; [|exact Hreach]. unfold child, items_under. rewrite Hsub. exact Hk.
  - injection H as <-. rewrite Hb. set_solver.
Qed.

(** *** [MenuTriggerPattern.close] *)

Lemma trigger_close_unfold fuel t refocus s :
  trigger_close lb g fuel t refocus s
  = match trigger_menu g t with
    | Some m => close_items lb g false fuel m (trigger_before_loop t refocus s)
    | None => Some (trigger_before_loop t refocus s)
    end.
Proof. reflexivity. Qed.

Lemma trigger_before_loop_fields t refocus (s : State) :
  expanded_items (trigger_before_loop t refocus s) = expanded_items s
  /\ trigger_expanded (trigger_before_loop t refocus s) = trigger_expanded s ∖ {[t]}
  /\ isFocused (trigger_before_loop t refocus s) = isFocused s
  /\ effects (trigger_before_loop t refocus s)
     = effects s ++ (if refocus && trigger_element g t then [FocusTrigger t] else [])
  /\ menu_items (trigger_before_loop t refocus s) = menu_items s.
Proof.
  unfold MenuSpec.trigger_before_loop.
  destruct (refocus && trigger_element g t); destruct (trigger_menu g t); simpl;
    rewrite ?app_nil_r; repeat split; reflexivity.
Qed.

Lemma trigger_close_terminates t refocus s :
  finitely_nested g (menu_items s) ->
  exists N s', forall fuel, (N <= fuel)%nat -> trigger_close lb g fuel t refocus s = Some s'.
Proof.
  intros Hwf.
  destruct (trigger_before_loop_fields t refocus s) as (_ & _ & _ & _ & Hits).
  destruct (trigger_menu g t) as [m|] eqn:Hm.
  - destruct (close_items_terminates false m (trigger_before_loop t refocus s))
      as (N & s' & H).
    { rewrite Hits. exact Hwf. }
    exists N, s'. intros fuel Hfuel. rewrite trigger_close_unfold, Hm. apply H, Hfuel.
  - exists 0%nat, (trigger_before_loop t refocus s). intros fuel _.
    rewrite trigger_close_unfold, Hm. reflexivity.
Qed.

(** [MenuTriggerPattern.close] collapses the trigger and closes every item
    of its menu and of the chains of submenus under them; it focuses the
    trigger when asked to and the trigger has an element. *)
Lemma trigger_close_post fuel t refocus s s' :
  trigger_close lb g fuel t refocus s = Some s' ->
  (t ∉ trigger_expanded s')
  /\ (forall j, under_trigger g (menu_items s) t j -> j ∉ expanded_items s')
  /\ expanded_items s' ⊆ expanded_items s
  /\ effects s' = effects s ++ (if refocus && trigger_element g t then [FocusTrigger t] else [])
  /\ isFocused s' = isFocused s
  /\ forall m', menu_items s' m' =
       match trigger_menu g t with
       | Some m => popped (menu_items s) m m'
       | None => menu_items s m'
       end.
Proof.
  rewrite trigger_close_unfold. intros H.
  destruct (trigger_before_loop_fields t refocus s) as (Hb & Ht' & Hf' & He' & Hits).
  unfold under_trigger, MenuSpec.trigger_items.
  destruct (trigger_menu g t) as [m|] eqn:Hm.
  - destruct (close_items_post _ _ _ _ _ H) as (Hall & Hsubset & Ht & Hf & He & Hn & Hpop).
    rewrite Hb in Hsubset. rewrite Hits in Hall, Hpop. rewrite Ht, Ht', He, He', Hf, Hf'.
    split; [set_solver|]. split; [|auto].
    intros j (i & Hi & Hreach). eapply Hall; eassumption.
  - injection H as <-. rewrite Ht', He', Hb, Hf', Hits.
    split; [set_solver|]. split; [|auto]. intros j (i & [] & _).
Qed.

Lemma trigger_close_keeps fuel t refocus s s' j :
  trigger_close lb g fuel t refocus s = Some s' ->
  ~ under_trigger g (menu_items s) t j -> j ∈ expanded_items s -> j ∈ expanded_items s'.
Proof.
  rewrite trigger_close_unfold. intros H Hout Hj.
  destruct (trigger_before_loop_fields t refocus s) as (Hb & _ & _ & _ & Hits).
  destruct (trigger_menu g t) as [m|] eqn:Hm.
  - eapply close_items_keeps; [exact H| |rewrite Hb; exact Hj].
    rewrite Hits. intros i Hi Hreach. apply Hout. exists i.
    unfold MenuSpec.trigger_items. rewrite Hm. split; assumption.
  - injection H as <-. rewrite Hb. exact Hj.
Qed.

(** *** Key dispatch *)

(** The keys [Enter] and [Escape] match their own entry of the keydown
    manager and no other: not the expand and collapse keys, not the space
    key, not the typeahead expression. *)
Lemma onKeydown_Enter fuel m s :
  onKeydown lb g fuel m "Enter" s = trigger lb g fuel m s.
Proof.
  unfold onKeydown, keydownManager, _expandKey, _collapseKey, dynamicSpaceKey.
  destruct (menu_textDirection g m); cbn -[trigger];
    (destruct (trigger lb g fuel m s) as [s'|]; [|reflexivity]);
    destruct (bool_decide (OMenu m ∈ typing s')); reflexivity.
Qed.

Lemma onKeydown_Escape fuel m s :
  onKeydown lb g fuel m "Escape" s = closeAll lb g fuel m s.
Proof.
  unfold onKeydown, keydownManager, _expandKey, _collapseKey, dynamicSpaceKey.
  destruct (menu_textDirection g m); cbn -[closeAll];
    (destruct (closeAll lb g fuel m s) as [s'|]; [|reflexivity]);
    destruct (bool_decide (OMenu m ∈ typing s')); reflexivity.
Qed.

Lemma closeAll_at_root fuel m s r :
  root g fuel m = Some r ->
  closeAll lb g fuel m s =
  match r with
  | Some (RTrigger t) => trigger_close lb g fuel t true s
  | Some (RBar b) => bar_close lb g fuel b s
  | Some (RMenu rm) =>
      match activeItem s !! OMenu rm with
      | Some a => item_close lb g fuel a true s
      | None => Some s
      end
  | None => Some s
  end.
Proof. intros H. unfold closeAll. rewrite H. reflexivity. Qed.

End Close.

End MenuClose.
(** ** Menus: Enter *)
Module MenuEnter.
Import Keys Menu MenuSpec MenuLoops MenuClose.

Section Enter.
Variable lb : ListBehavior.
Variable g : Layout.

Lemma list_run_active op o (s : State) :
  activeItem (list_run g op o s) !! o
  = lv_active (op g o (owner_items g o s) (view o s)).
Proof.
  unfold list_run, put_view. simpl.
  destruct (lv_active (op g o (owner_items g o s) (view o s))).
  - apply lookup_insert_eq.
  - apply lookup_delete_eq.
Qed.

(** In finitely nested menus no item is found under one of its children. *)
Lemma reaches_clos items i j :
  reaches g items i j -> i = j \/ clos_trans nat (child g items) j i.
Proof.
  induction 1 as [i|i k j Hchild _ IH]; [left; reflexivity|].
  right. destruct IH as [->|IH].
  - apply t_step. exact Hchild.
  - eapply t_trans; [exact IH|apply t_step; exact Hchild].
Qed.

Lemma child_not_above items c a :
  finitely_nested g items -> child g items c a -> ~ reaches g items c a.
Proof.
  intros Hwf Hchild Hreach.
  assert (Hcycle : clos_trans nat (child g items) a a).
  { destruct (reaches_clos _ _ _ Hreach) as [->|H].
    - apply t_step. exact Hchild.
    - eapply t_trans; [exact H|apply t_step; exact Hchild]. }
  pose proof (Wellfounded.Transitive_Closure.wf_clos_trans _ _ Hwf a) as Hacc.
  clear Hchild Hreach. induction Hacc as [x _ IH]. exact (IH x Hcycle Hcycle).
Qed.

(** Closing the active item of a list, if it has one: what [prev], [next],
    [first] and [last] begin with, and what a menubar or a root menu does to
    close.  The call returns; it closes the chain under the active item and
    nothing else. *)
Lemma close_active_item o refocus s :
  finitely_nested g (menu_items s) ->
  exists N s',
    (forall fuel, (N <= fuel)%nat ->
       match activeItem s !! o with
       | Some a => item_close lb g fuel a refocus s
       | None => Some s
       end = Some s')
    /\ (forall j, j ∈ expanded_items s' <->
          j ∈ expanded_items s
          /\ forall a, activeItem s !! o = Some a -> ~ reaches g (menu_items s) a j)
    /\ (activeItem s !! o = None -> s' = s)
    /\ effects s' = effects s
    /\ trigger_expanded s' = trigger_expanded s
    /\ isFocused s' = isFocused s.
Proof.
  intros Hwf. destruct (activeItem s !! o) as [a|] eqn:Ha.
  - destruct (item_close_terminates lb g a refocus s Hwf) as (N & s' & Hclose).
    exists N, s'. pose proof (Hclose N (Nat.le_refl N)) as HN.
    destruct (item_close_post _ _ _ _ _ _ _ HN) as (Hall & Hsub & Ht & Hf & He & _).
    split; [exact Hclose|]. split; [|split; [discriminate|auto]].
    intros j. split.
    + intros Hj. split; [apply Hsub, Hj|]. intros a' [= <-] Hr. exact (Hall j Hr Hj).
    + intros [Hj Hr]. eapply item_close_keeps; [exact HN|apply Hr; reflexivity|exact Hj].
  - exists 0%nat, s. split; [reflexivity|]. split; [|auto].
    intros j. split; [intros Hj; split; [exact Hj|discriminate]|tauto].
Qed.

(** [MenuPattern.first] returns; it closes the chain under the item that was
    active and nothing else, and the new active item is what the list's
    [first] chooses. *)
Lemma first_terminates sub s :
  finitely_nested g (menu_items s) ->
  exists N s',
    (forall fuel, (N <= fuel)%nat -> first lb g fuel sub s = Some s')
    /\ (forall j, j ∈ expanded_items s' <->
          j ∈ expanded_items s
          /\ forall c, activeItem s !! OMenu sub = Some c -> ~ reaches g (menu_items s) c j)
    /\ effects s' = effects s
    /\ trigger_expanded s' = trigger_expanded s
    /\ exists v, activeItem s' !! OMenu sub
                 = lv_active (lb_first lb g (OMenu sub) (menu_items s' sub) v).
Proof.
  intros Hwf.
  destruct (close_active_item (OMenu sub) false s Hwf)
    as (N & s1 & Hrun & Hexp & _ & He & Ht & _).
  exists N, (list_run g (lb_first lb) (OMenu sub) s1).
  split; [|split; [exact Hexp|split; [exact He|split; [exact Ht|]]]].
  - intros fuel Hfuel. unfold first, close_active. rewrite (Hrun fuel Hfuel). reflexivity.
  - eexists. apply list_run_active.
Qed.

Lemma bar_close_terminates b s :
  finitely_nested g (menu_items s) ->
  exists N s',
    (forall fuel, (N <= fuel)%nat -> bar_close lb g fuel b s = Some s')
    /\ effects s' = effects s
    /\ trigger_expanded s' = trigger_expanded s
    /\ expanded_items s' ⊆ expanded_items s
    /\ (forall a j, activeItem s !! OBar b = Some a -> reaches g (menu_items s) a j ->
          j ∉ expanded_items s').
Proof.
  intros Hwf.
  destruct (close_active_item (OBar b) (bool_decide (OBar b ∈ isFocused s)) s Hwf)
    as (N & s' & Hrun & Hexp & _ & He & Ht & _).
  exists N, s'. split; [exact Hrun|]. split; [exact He|]. split; [exact Ht|].
  split.
  - intros j Hj. apply Hexp, Hj.
  - intros a j Ha Hr Hj. apply Hexp in Hj as [_ Hj]. exact (Hj a Ha Hr).
Qed.

Lemma menu_close_active_terminates rm s :
  finitely_nested g (menu_items s) ->
  exists N s',
    (forall fuel, (N <= fuel)%nat ->
       match activeItem s !! OMenu rm with
       | Some a => item_close lb g fuel a true s
       | None => Some s
       end = Some s')
    /\ effects s' = effects s
    /\ trigger_expanded s' = trigger_expanded s
    /\ expanded_items s' ⊆ expanded_items s
    /\ (forall a j, activeItem s !! OMenu rm = Some a -> reaches g (menu_items s) a j ->
          j ∉ expanded_items s').
Proof.
  intros Hwf.
  destruct (close_active_item (OMenu rm) true s Hwf)
    as (N & s' & Hrun & Hexp & _ & He & Ht & _).
  exists N, s'. split; [exact Hrun|]. split; [exact He|]. split; [exact Ht|].
  split.
  - intros j Hj. apply Hexp, Hj.
  - intros a j Ha Hr Hj. apply Hexp in Hj as [_ Hj]. exact (Hj a Ha Hr).
Qed.

Lemma call_onSelect_fields r a (s : State) :
  expanded_items (call_onSelect g r a s) = expanded_items s
  /\ trigger_expanded (call_onSelect g r a s) = trigger_expanded s.
Proof.
  unfold call_onSelect.
  destruct r as [t|b|m]; [|destruct (bar_onSelect g b)|destruct (menu_onSelect g m)];
    split; reflexivity.
Qed.

Lemma call_onSelect_effects r a (s : State) :
  effects (call_onSelect g r a s)
  = effects s ++
    (if match r with
        | RMenu m => menu_onSelect g m
        | RBar b => bar_onSelect g b
        | RTrigger _ => false
        end
     then [OnSelect r (item_value g a)] else []).
Proof.
  unfold call_onSelect.
  destruct r as [t|b|m]; [|destruct (bar_onSelect g b)|destruct (menu_onSelect g m)];
    simpl; rewrite ?app_nil_r; reflexivity.
Qed.

(** C1 (amended): pressing Enter runs [trigger] and nothing else, and
    [trigger] returns.  With an active item that has a popup and is not
    disabled, the item is marked expanded and [first] runs on its submenu:
    the chain under the submenu's previously active item is closed, the
    list's [first] chooses the new active item, and nothing is submitted (no
    trigger is collapsed, no call leaves the menu); the item ends expanded
    unless it lies itself in the chain under its submenu's previously active
    item, and then it ends collapsed; no other item is expanded or
    collapsed.  With an active item that has no popup
    and is not disabled, the item is submitted and not opened: a trigger
    root is closed and, if it has an element, focused; a menubar or menu
    root closes its active chain and calls [onSelect] with the item's value
    when the callback is given.  The two outcomes exclude each other.  A
    disabled active item is neither opened nor submitted: the state is left
    as it was. *)
Theorem C1_enter_opens_or_submits (m a : nat) (s : State) n r :
  finitely_nested g (menu_items s) ->
  root g n m = Some r ->
  activeItem s !! OMenu m = Some a ->
  exists N s',
    (forall fuel, (N <= fuel)%nat ->
       onKeydown lb g fuel m "Enter" s = Some s'
       /\ trigger lb g fuel m s = Some s')
    /\ (hasPopup g a = true -> disabled g a = false ->
        effects s' = effects s
        /\ trigger_expanded s' = trigger_expanded s
        /\ exists sub,
             item_submenu g a = Some sub
             /\ (exists v, activeItem s' !! OMenu sub
                           = lv_active (lb_first lb g (OMenu sub) (menu_items s' sub) v))
             /\ (forall c j, activeItem s !! OMenu sub = Some c ->
                   reaches g (menu_items s) c j -> j ∉ expanded_items s')
             /\ ((forall c, activeItem s !! OMenu sub = Some c ->
                    ~ reaches g (menu_items s) c a) ->
                 expanded g a s' = Some true)
             /\ (forall c, activeItem s !! OMenu sub = Some c ->
                   reaches g (menu_items s) c a -> expanded g a s' = Some false)
             /\ (forall j, j ∈ expanded_items s' <->
                   (j = a \/ j ∈ expanded_items s)
                   /\ forall c, activeItem s !! OMenu sub = Some c ->
                        ~ reaches g (menu_items s) c j))
    /\ (disabled g a = true -> s' = s)
    /\ (hasPopup g a = false -> disabled g a = false ->
        expanded g a s' = None
        /\ expanded_items s' ⊆ expanded_items s
        /\ match r with
           | Some (RTrigger t) =>
               (t ∉ trigger_expanded s')
               /\ effects s' = effects s ++
                    (if trigger_element g t then [FocusTrigger t] else [])
           | Some (RBar b) =>
               effects s' = effects s ++
                 (if bar_onSelect g b then [OnSelect (RBar b) (item_value g a)] else [])
               /\ (forall ab j, activeItem s !! OBar b = Some ab ->
                     reaches g (menu_items s) ab j -> j ∉ expanded_items s')
           | Some (RMenu rm) =>
               effects s' = effects s ++
                 (if menu_onSelect g rm then [OnSelect (RMenu rm) (item_value g a)] else [])
               /\ (forall ab j, activeItem s !! OMenu rm = Some ab ->
                     reaches g (menu_items s) ab j -> j ∉ expanded_items s')
           | None => s' = s
           end).
Proof.
  intros Hwf Hroot Hact.
  assert (Hkey : forall fuel s', trigger lb g fuel m s = Some s' ->
            onKeydown lb g fuel m "Enter" s = Some s' /\ trigger lb g fuel m s = Some s').
  { intros fuel s' H. split; [rewrite onKeydown_Enter|]; exact H. }
  destruct (hasPopup g a) eqn:Hpop.
  - (* the active item has a popup *)
    assert (Htrig : forall fuel, trigger lb g fuel m s = item_open lb g fuel a first_opt s).
    { intros fuel. unfold trigger. rewrite Hact, Hpop. reflexivity. }
    destruct (disabled g a) eqn:Hdis.
    + exists 0%nat, s. split; [|repeat split; try discriminate].
      intros fuel _. apply Hkey. rewrite Htrig. unfold item_open. rewrite Hdis. reflexivity.
    + unfold hasPopup in Hpop. destruct (item_submenu g a) as [sub|] eqn:Hsub; [|discriminate].
      set (s1 := set_expanded_items ({[a]} ∪ expanded_items s) s).
      destruct (first_terminates sub s1 Hwf) as (N & s' & Hfirst & Hexp & He & Ht & Hv).
      exists N, s'. split; [|split; [|split; [discriminate|discriminate]]].
      * intros fuel Hfuel. apply Hkey. rewrite Htrig. unfold item_open.
        rewrite Hdis, Hsub. simpl. fold s1. rewrite (Hfirst fuel Hfuel). reflexivity.
      * intros _ _. split; [exact He|]. split; [exact Ht|].
        exists sub. split; [reflexivity|]. split; [exact Hv|].
        split; [|split; [|split]].
        -- intros c j Hc Hr Hj. apply Hexp in Hj as [_ Hj]. exact (Hj c Hc Hr).
        -- intros Hout. unfold expanded. rewrite Hsub. f_equal.
           apply bool_decide_eq_true. apply Hexp. split; [simpl; set_solver|exact Hout].
        -- intros c Hc Hr. unfold expanded. rewrite Hsub. f_equal.
           apply bool_decide_eq_false. intros Hj. apply Hexp in Hj as [_ Hj].
           exact (Hj c Hc Hr).
        -- intros j. rewrite (Hexp j). simpl. split.
           ++ intros [Hj Hout]. split; [set_solver|exact Hout].
           ++ intros [Hj Hout]. split; [set_solver|exact Hout].
  - (* the active item has no popup *)
    assert (Hnone : forall x, expanded g a x = None).
    { intros x. unfold expanded. unfold hasPopup in Hpop.
      destruct (item_submenu g a); [discriminate|reflexivity]. }
    assert (Htrig : forall fuel, (n <= fuel)%nat ->
              trigger lb g fuel m s =
              if negb (disabled g a) then
                match r with
                | Some (RTrigger t) => trigger_close lb g fuel t true s
                | Some (RBar b) =>
                    x ← bar_close lb g fuel b s; Some (call_onSelect g (RBar b) a x)
                | Some (RMenu rm) =>
                    x ← match activeItem s !! OMenu rm with
                         | Some a0 => item_close lb g fuel a0 true s
                         | None => Some s
                         end;
                    Some (call_onSelect g (RMenu rm) a x)
                | None => Some s
                end
              else Some s).
    { intros fuel Hfuel. unfold trigger, submit. rewrite Hact, Hpop.
      rewrite (root_more_fuel _ _ _ _ Hroot fuel Hfuel). simpl.
      destruct (disabled g a); [reflexivity|]. simpl.
      destruct r as [[t|b|rm]|]; reflexivity. }
    destruct (disabled g a) eqn:Hdis.
    + exists n, s. split; [|repeat split; try discriminate].
      intros fuel Hfuel. apply Hkey. rewrite (Htrig fuel Hfuel). reflexivity.
    + simpl in Htrig. destruct r as [[t|b|rm]|].
      * destruct (trigger_close_terminates lb g t true s Hwf) as (N & s' & Hclose).
        destruct (trigger_close_post _ _ _ _ _ _ _ (Hclose N (Nat.le_refl N)))
          as (Ht & _ & Hsubset & He & _).
        exists (Nat.max n N), s'. split; [|split; [discriminate|split; [discriminate|]]].
        -- intros fuel Hfuel. apply Hkey. rewrite Htrig by lia. apply Hclose. lia.
        -- intros _ _. split; [apply Hnone|]. split; [exact Hsubset|]. split; assumption.
      * destruct (bar_close_terminates b s Hwf) as (N & s1 & Hclose & He & Ht & Hsubset & Hall).
        exists (Nat.max n N), (call_onSelect g (RBar b) a s1).
        split; [|split; [discriminate|split; [discriminate|]]].
        -- intros fuel Hfuel. apply Hkey. rewrite Htrig by lia.
           rewrite Hclose by lia. reflexivity.
        -- intros _ _. split; [apply Hnone|].
           destruct (call_onSelect_fields (RBar b) a s1) as (Hx & _).
           rewrite Hx, call_onSelect_effects, He.
           split; [exact Hsubset|]. split; [reflexivity|exact Hall].
      * destruct (menu_close_active_terminates rm s Hwf)
          as (N & s1 & Hclose & He & Ht & Hsubset & Hall).
        exists (Nat.max n N), (call_onSelect g (RMenu rm) a s1).
        split; [|split; [discriminate|split; [discriminate|]]].
        -- intros fuel Hfuel. apply Hkey. rewrite Htrig by lia.
           rewrite Hclose by lia. reflexivity.
        -- intros _ _. split; [apply Hnone|].
           destruct (call_onSelect_fields (RMenu rm) a s1) as (Hx & _).
           rewrite Hx, call_onSelect_effects, He.
           split; [exact Hsubset|]. split; [reflexivity|exact Hall].
      * exists n, s. split; [|split; [discriminate|split; [discriminate|]]].
        -- intros fuel Hfuel. apply Hkey. rewrite Htrig by lia. reflexivity.
        -- intros _ _. split; [apply Hnone|]. split; reflexivity.
Qed.

End Enter.

End MenuEnter.

(** ** Menus: the concrete page *)
Module MenuPage.
Import Keys Menu MenuHandlers MenuSpec MenuExamples MenuLoops MenuClose MenuEnter.

Lemma page_submenus i :
  i = 10%nat \/ i = 20%nat \/ i = 12%nat \/ i = 50%nat \/ i = 70%nat
  \/ item_submenu page i = None.
Proof.
  simpl.
  destruct (Nat.eqb_spec i 10); [tauto|].
  destruct (Nat.eqb_spec i 20); [tauto|].
  destruct (Nat.eqb_spec i 12); [tauto|].
  destruct (Nat.eqb_spec i 50); [tauto|].
  destruct (Nat.eqb_spec i 70); tauto.
Qed.

Lemma page_children_are_larger j i :
  child page page_items j i -> (i < j)%nat /\ (j <= 72)%nat.
Proof.
  unfold child, items_under.
  destruct (page_submenus i) as [->|[->|[->|[->|[->|H]]]]];
    [| | | | |rewrite H; intros []];
    simpl; intros H; repeat (destruct H as [<-|H]; [lia|]); destruct H.
Qed.

(** The menus of the page nest finitely while they hold the arrays of the
    start. *)
Lemma page_finitely_nested : finitely_nested page page_items.
Proof.
  apply (well_founded_lt_compat nat (fun i => (100 - i)%nat)).
  intros j i H. apply page_children_are_larger in H. lia.
Qed.

Lemma page_20_under_10 : reaches page page_items 10 20.
Proof.
  apply reaches_down with (k := 20%nat); [|constructor].
  unfold child. simpl. auto.
Qed.

(** C1 on the page: Enter on item 10 of the trigger's menu.  Item 10 is
    collapsed and has a submenu, menu 2, whose active item 20 was left
    expanded. *)
Lemma C1_enter_on_an_item_with_a_submenu :
  let s := page_state [20]%nat [(OMenu 1, 10%nat); (OMenu 2, 20%nat)] [0%nat] in
  expanded page 10 s = Some false
  /\ exists N s',
       (forall fuel, (N <= fuel)%nat ->
          onKeydown simple_list page fuel 1 "Enter" s = Some s')
       /\ expanded page 10 s' = Some true
       /\ (20%nat ∉ expanded_items s')
       /\ effects s' = effects s
       /\ trigger_expanded s' = trigger_expanded s.
Proof.
  intros s. split; [vm_compute; reflexivity|].
  destruct (C1_enter_opens_or_submits simple_list page 1 10 s 5
              (Some (RTrigger 0)) page_finitely_nested eq_refl eq_refl)
    as (N & s' & Hrun & Hopen & _).
  exists N, s'. split; [intros fuel Hfuel; apply (Hrun fuel Hfuel)|].
  destruct (Hopen eq_refl eq_refl) as (He & Ht & sub & Hsub & _ & Hclosed & Hexp & _).
  simpl in Hsub. injection Hsub as <-.
  split; [|split; [|split; assumption]].
  - apply Hexp. intros c Hc. vm_compute in Hc. injection Hc as <-.
    apply (child_not_above page page_items 20 10 page_finitely_nested).
    unfold child. simpl. auto.
  - apply (Hclosed 20%nat 20%nat); [vm_compute; reflexivity|constructor].
Defined.

(** The claim as stated fails on a disabled item: with the disabled item 12
    active, which has a submenu, Enter neither opens the submenu nor submits
    anything; the state is as before. *)
Lemma C1_enter_on_a_disabled_item_does_nothing :
  let s := page_state [] [(OMenu 1, 12%nat)] [0%nat] in
  activeItem s !! OMenu 1 = Some 12%nat
  /\ hasPopup page 12 = true
  /\ disabled page 12 = true
  /\ onKeydown simple_list page 9 1 "Enter" s = Some s
  /\ expanded page 12 s = Some false.
Proof. vm_compute. repeat split. Qed.

(** C2 fails under a menu root.  In the standalone menu 5, Home makes item
    50 active, the expand key opens its submenu, menu 6, and a click on item
    51 makes item 51 the active item of menu 5 while item 50 stays expanded.
    Escape pressed in menu 6 (or in menu 5) then finds the root, menu 5, and
    closes the chain under the root's active item 51 only: item 50, an item
    of the root, is still expanded and menu 6 is still visible, and no timer
    is pending that would close it later. *)
Lemma C2_escape_leaves_the_submenu_open :
  exists s s',
    run simple_list page (fun _ => false) 9
      [MenuKeydown 5 "Home"; MenuKeydown 5 "ArrowLeft"; MenuClick 5 (Nat.eqb 51)]
      (initial page_items) = Some s
    /\ root page 5 6 = Some (Some (RMenu 5))
    /\ In 50%nat (menu_items s 5)
    /\ menu_parent page 6 = Some (PItem 50)
    /\ activeItem s !! OMenu 5 = Some 51%nat
    /\ expanded page 50 s = Some true
    /\ onKeydown simple_list page 9 6 "Escape" s = Some s'
    /\ onKeydown simple_list page 9 5 "Escape" s = Some s'
    /\ expanded page 50 s' = Some true
    /\ visible page 6 s' = true
    /\ timers s' = ∅.
Proof.
  eexists. eexists. split; [vm_compute; reflexivity|].
  split; [reflexivity|]. split; [vm_compute; auto|]. split; [reflexivity|].
  split; [vm_compute; reflexivity|]. split; [vm_compute; reflexivity|].
  split; [vm_compute; reflexivity|].
  repeat (split; [vm_compute; reflexivity|]). vm_compute; reflexivity.
Qed.

End MenuPage.

(** ** Arrow keys and text direction *)
Module KeyFacts.
Import Keys.

Section MenuKeys.
Import Menu.
Variable lb : ListBehavior.
Variable g : Layout.

Ltac dispatch f :=
  unfold onKeydown, keydownManager, bar_onKeydown, bar_keydownManager,
    _expandKey, _collapseKey, bar_nextKey, bar_previousKey,
    dynamicSpaceKey, bar_dynamicSpaceKey;
  intros ->; cbn -[expand collapse bar_next bar_prev];
  match goal with
  | |- context [f ?a ?b ?c ?d ?e] =>
      destruct (f a b c d e) as [s'|]; [|reflexivity]
  end;
  match goal with
  | |- context [bool_decide ?P] => destruct (bool_decide P); reflexivity
  end.

Lemma menu_arrow_right_ltr fuel m s :
  menu_textDirection g m = ltr ->
  onKeydown lb g fuel m "ArrowRight" s = expand lb g fuel m s.
Proof. dispatch @expand. Qed.

Lemma menu_arrow_left_ltr fuel m s :
  menu_textDirection g m = ltr ->
  onKeydown lb g fuel m "ArrowLeft" s = collapse lb g fuel m s.
Proof. dispatch @collapse. Qed.

Lemma menu_arrow_left_rtl fuel m s :
  menu_textDirection g m = rtl ->
  onKeydown lb g fuel m "ArrowLeft" s = expand lb g fuel m s.
Proof. dispatch @expand. Qed.

Lemma menu_arrow_right_rtl fuel m s :
  menu_textDirection g m = rtl ->
  onKeydown lb g fuel m "ArrowRight" s = collapse lb g fuel m s.
Proof. dispatch @collapse. Qed.

Lemma bar_arrow_right_ltr fuel b s :
  bar_textDirection g b = ltr ->
  bar_onKeydown lb g fuel b "ArrowRight" s = bar_next lb g fuel b s.
Proof. dispatch @bar_next. Qed.

Lemma bar_arrow_left_ltr fuel b s :
  bar_textDirection g b = ltr ->
  bar_onKeydown lb g fuel b "ArrowLeft" s = bar_prev lb g fuel b s.
Proof. dispatch @bar_prev. Qed.

Lemma bar_arrow_left_rtl fuel b s :
  bar_textDirection g b = rtl ->
  bar_onKeydown lb g fuel b "ArrowLeft" s = bar_next lb g fuel b s.
Proof. dispatch @bar_next. Qed.

Lemma bar_arrow_right_rtl fuel b s :
  bar_textDirection g b = rtl ->
  bar_onKeydown lb g fuel b "ArrowRight" s = bar_prev lb g fuel b s.
Proof. dispatch @bar_prev. Qed.

End MenuKeys.

Section TabKeys.
Import Tabs.
Context {E : Type}.
Variable B : Behaviors E.
Variable inputs : TabListInputs.

Lemma tabs_arrow_keys (st : TabListState E) :
  orientation inputs = horizontal ->
  disabled inputs = false ->
  onKeydown B inputs "ArrowLeft" st =
    Some (_navigate B inputs
            (match textDirection inputs with
             | ltr => nav_prev B inputs
             | rtl => nav_next B inputs
             end) (followFocus inputs) st)
  /\ onKeydown B inputs "ArrowRight" st =
    Some (_navigate B inputs
            (match textDirection inputs with
             | ltr => nav_next B inputs
             | rtl => nav_prev B inputs
             end) (followFocus inputs) st).
Proof.
  intros Ho Hd. unfold onKeydown, keydown, prevKey, nextKey.
  rewrite Ho, Hd. destruct (textDirection inputs); split; reflexivity.
Qed.

End TabKeys.

(** C3: the arrow keys swap meaning with the text direction.  In a menu,
    ArrowRight is the expand key and ArrowLeft the collapse key under
    ['ltr'], and pressing them runs [expand] and [collapse]; under ['rtl']
    the two are exchanged.  The same exchange holds for next and previous in
    the menubar, and for previous and next in a horizontal tablist. *)
Theorem C3_arrow_keys_swap_under_rtl :
  (forall (lb : Menu.ListBehavior) (g : Menu.Layout) fuel m s,
      (Menu.menu_textDirection g m = ltr ->
       Menu._expandKey g m = "ArrowRight"%string
       /\ Menu._collapseKey g m = "ArrowLeft"%string
       /\ Menu.onKeydown lb g fuel m "ArrowRight" s = Menu.expand lb g fuel m s
       /\ Menu.onKeydown lb g fuel m "ArrowLeft" s = Menu.collapse lb g fuel m s)
      /\ (Menu.menu_textDirection g m = rtl ->
          Menu._expandKey g m = "ArrowLeft"%string
          /\ Menu._collapseKey g m = "ArrowRight"%string
          /\ Menu.onKeydown lb g fuel m "ArrowLeft" s = Menu.expand lb g fuel m s
          /\ Menu.onKeydown lb g fuel m "ArrowRight" s = Menu.collapse lb g fuel m s))
  /\ (forall (lb : Menu.ListBehavior) (g : Menu.Layout) fuel b s,
        (Menu.bar_textDirection g b = ltr ->
         Menu.bar_nextKey g b = "ArrowRight"%string
         /\ Menu.bar_previousKey g b = "ArrowLeft"%string
         /\ Menu.bar_onKeydown lb g fuel b "ArrowRight" s = Menu.bar_next lb g fuel b s
         /\ Menu.bar_onKeydown lb g fuel b "ArrowLeft" s = Menu.bar_prev lb g fuel b s)
        /\ (Menu.bar_textDirection g b = rtl ->
            Menu.bar_nextKey g b = "ArrowLeft"%string
            /\ Menu.bar_previousKey g b = "ArrowRight"%string
            /\ Menu.bar_onKeydown lb g fuel b "ArrowLeft" s = Menu.bar_next lb g fuel b s
            /\ Menu.bar_onKeydown lb g fuel b "ArrowRight" s = Menu.bar_prev lb g fuel b s))
  /\ (forall (E : Type) (B : Tabs.Behaviors E) (inputs : Tabs.TabListInputs)
             (st : Tabs.TabListState E),
        Tabs.orientation inputs = horizontal ->
        (Tabs.textDirection inputs = ltr ->
         Tabs.prevKey inputs = "ArrowLeft"%string
         /\ Tabs.nextKey inputs = "ArrowRight"%string
         /\ (Tabs.disabled inputs = false ->
             Tabs.onKeydown B inputs "ArrowLeft" st
             = Some (Tabs._navigate B inputs (Tabs.nav_prev B inputs) (Tabs.followFocus inputs) st)
             /\ Tabs.onKeydown B inputs "ArrowRight" st
                = Some (Tabs._navigate B inputs (Tabs.nav_next B inputs) (Tabs.followFocus inputs) st)))
        /\ (Tabs.textDirection inputs = rtl ->
            Tabs.prevKey inputs = "ArrowRight"%string
            /\ Tabs.nextKey inputs = "ArrowLeft"%string
            /\ (Tabs.disabled inputs = false ->
                Tabs.onKeydown B inputs "ArrowRight" st
                = Some (Tabs._navigate B inputs (Tabs.nav_prev B inputs) (Tabs.followFocus inputs) st)
                /\ Tabs.onKeydown B inputs "ArrowLeft" st
                   = Some (Tabs._navigate B inputs (Tabs.nav_next B inputs) (Tabs.followFocus inputs) st)))).
Proof.
  split; [|split].
  - intros lb g fuel m s. split; intros Hdir.
    + unfold Menu._expandKey, Menu._collapseKey. rewrite Hdir.
      auto using menu_arrow_right_ltr, menu_arrow_left_ltr.
    + unfold Menu._expandKey, Menu._collapseKey. rewrite Hdir.
      auto using menu_arrow_right_rtl, menu_arrow_left_rtl.
  - intros lb g fuel b s. split; intros Hdir.
    + unfold Menu.bar_nextKey, Menu.bar_previousKey. rewrite Hdir.
      auto using bar_arrow_right_ltr, bar_arrow_left_ltr.
    + unfold Menu.bar_nextKey, Menu.bar_previousKey. rewrite Hdir.
      auto using bar_arrow_right_rtl, bar_arrow_left_rtl.
  - intros E B inputs st Ho. split; intros Hdir.
    + unfold Tabs.prevKey, Tabs.nextKey. rewrite Ho, Hdir.
      split; [reflexivity|split; [reflexivity|]].
      intros Hd. destruct (tabs_arrow_keys B inputs st Ho Hd) as [Hl Hr].
      rewrite Hdir in Hl, Hr. split; assumption.
    + unfold Tabs.prevKey, Tabs.nextKey. rewrite Ho, Hdir.
      split; [reflexivity|split; [reflexivity|]].
      intros Hd. destruct (tabs_arrow_keys B inputs st Ho Hd) as [Hl Hr].
      rewrite Hdir in Hl, Hr. split; assumption.
Qed.

(** C3 on the page and on the tablist [three_tabs]: menu 5 and the tablist
    are right-to-left. *)
Lemma C3_right_to_left_instances :
  Menu._expandKey MenuExamples.page 5 = "ArrowLeft"%string
  /\ Menu._collapseKey MenuExamples.page 5 = "ArrowRight"%string
  /\ Menu._expandKey MenuExamples.page 1 = "ArrowRight"%string
  /\ Tabs.prevKey TabsSpec.three_tabs = "ArrowRight"%string
  /\ Tabs.nextKey TabsSpec.three_tabs = "ArrowLeft"%string.
Proof.
  destruct C3_arrow_keys_swap_under_rtl as (Hmenu & _ & Htabs).
  destruct (Hmenu MenuExamples.simple_list MenuExamples.page 0%nat 5%nat
              (Menu.initial MenuExamples.page_items))
    as [_ Hrtl].
  destruct (Hmenu MenuExamples.simple_list MenuExamples.page 0%nat 1%nat
              (Menu.initial MenuExamples.page_items))
    as [Hltr _].
  destruct (Htabs _ TabsSpec.one_at_a_time TabsSpec.three_tabs (TabsSpec.tabs_at None None)
              eq_refl) as [_ Htrtl].
  destruct (Hrtl eq_refl) as (He & Hc & _).
  destruct (Hltr eq_refl) as (He1 & _).
  destruct (Htrtl eq_refl) as (Hp & Hn & _).
  auto.
Defined.

End KeyFacts.

(** ** Menus: hover timers *)
Module MenuTimers.
Import Keys Menu MenuSpec TimerSpec MenuLoops MenuClose.

Lemma same_timers_refl s : same_timers s s.
Proof. repeat split. Qed.

Lemma same_timers_trans s1 s2 s3 :
  same_timers s1 s2 -> same_timers s2 s3 -> same_timers s1 s3.
Proof.
  intros (A1 & A2 & A3 & A4) (B1 & B2 & B3 & B4).
  repeat split; congruence.
Qed.

Lemma same_timers_ok s s' : same_timers s s' -> timers_ok s -> timers_ok s'.
Proof.
  intros (Ho & Hc & Ht & Hn) [H1 H2 O1 O2 H3 H4 H5].
  constructor; rewrite ?Ho, ?Hc, ?Ht, ?Hn; assumption.
Qed.

Lemma same_timers_later s s' : same_timers s s' -> later s s'.
Proof.
  intros (_ & _ & Ht & Hn). split; [lia|]. intros id cb _. rewrite Ht. auto.
Qed.

Lemma later_refl s : later s s.
Proof. split; [lia|auto]. Qed.

Lemma later_trans s1 s2 s3 : later s1 s2 -> later s2 s3 -> later s1 s3.
Proof.
  intros [Hn1 H1] [Hn2 H2]. split; [lia|].
  intros id cb Hid H. apply H1; [exact Hid|]. apply H2; [lia|exact H].
Qed.

Lemma initial_timers_ok items : timers_ok (initial items).
Proof. constructor; simpl; intros *; rewrite lookup_empty; discriminate. Qed.

(** *** The four timer operations *)

Lemma clearOpen_slot m s : _openTimeout (_clearOpenTimeout m s) !! m = None.
Proof.
  unfold _clearOpenTimeout. destruct (_openTimeout s !! m) eqn:H; simpl.
  - apply lookup_delete_eq.
  - exact H.
Qed.

Lemma clearClose_slot m s : _closeTimeout (_clearCloseTimeout m s) !! m = None.
Proof.
  unfold _clearCloseTimeout. destruct (_closeTimeout s !! m) eqn:H; simpl.
  - apply lookup_delete_eq.
  - exact H.
Qed.

Lemma clearOpen_ok m s : timers_ok s -> timers_ok (_clearOpenTimeout m s).
Proof.
  intros [H1 H2 O1 O2 H3 H4 H5]. unfold _clearOpenTimeout.
  destruct (_openTimeout s !! m) as [id|] eqn:Hslot; [|constructor; assumption].
  constructor; simpl.
  - intros id' m' i Hl. apply lookup_delete_Some in Hl as [Hne Hl].
    pose proof (H1 _ _ _ Hl) as Hs.
    rewrite lookup_delete_ne; [exact Hs|]. intros <-. congruence.
  - intros id' m' i Hl. apply lookup_delete_Some in Hl as [_ Hl]. eauto.
  - intros m' id' cb Hs Hl. apply lookup_delete_Some in Hs as [_ Hs].
    apply lookup_delete_Some in Hl as [_ Hl]. eauto.
  - intros m' id' cb Hs Hl. apply lookup_delete_Some in Hl as [_ Hl]. eauto.
  - intros id' cb Hl. apply lookup_delete_Some in Hl as [_ Hl]. eauto.
  - intros m' id' Hl. apply lookup_delete_Some in Hl as [_ Hl]. eauto.
  - assumption.
Qed.

Lemma clearClose_ok m s : timers_ok s -> timers_ok (_clearCloseTimeout m s).
Proof.
  intros [H1 H2 O1 O2 H3 H4 H5]. unfold _clearCloseTimeout.
  destruct (_closeTimeout s !! m) as [id|] eqn:Hslot; [|constructor; assumption].
  constructor; simpl.
  - intros id' m' i Hl. apply lookup_delete_Some in Hl as [_ Hl]. eauto.
  - intros id' m' i Hl. apply lookup_delete_Some in Hl as [Hne Hl].
    pose proof (H2 _ _ _ Hl) as Hs.
    rewrite lookup_delete_ne; [exact Hs|]. intros <-. congruence.
  - intros m' id' cb Hs Hl. apply lookup_delete_Some in Hl as [_ Hl]. eauto.
  - intros m' id' cb Hs Hl. apply lookup_delete_Some in Hs as [_ Hs].
    apply lookup_delete_Some in Hl as [_ Hl]. eauto.
  - intros id' cb Hl. apply lookup_delete_Some in Hl as [_ Hl]. eauto.
  - assumption.
  - intros m' id' Hl. apply lookup_delete_Some in Hl as [_ Hl]. eauto.
Qed.

Lemma clearTimeouts_ok m s : timers_ok s -> timers_ok (_clearTimeouts m s).
Proof. intros H. apply clearClose_ok, clearOpen_ok, H. Qed.

Lemma clearOpen_later m s : later s (_clearOpenTimeout m s).
Proof.
  unfold _clearOpenTimeout. destruct (_openTimeout s !! m); [|apply later_refl].
  split; simpl; [lia|]. intros id cb _ Hl. apply lookup_delete_Some in Hl as [_ Hl]. exact Hl.
Qed.

Lemma clearClose_later m s : later s (_clearCloseTimeout m s).
Proof.
  unfold _clearCloseTimeout. destruct (_closeTimeout s !! m); [|apply later_refl].
  split; simpl; [lia|]. intros id cb _ Hl. apply lookup_delete_Some in Hl as [_ Hl]. exact Hl.
Qed.

Lemma clearTimeouts_later m s : later s (_clearTimeouts m s).
Proof. eapply later_trans; [apply clearOpen_later|apply clearClose_later]. Qed.

Lemma clearOpen_fields m s :
  _closeTimeout (_clearOpenTimeout m s) = _closeTimeout s
  /\ next_timer (_clearOpenTimeout m s) = next_timer s
  /\ expanded_items (_clearOpenTimeout m s) = expanded_items s
  /\ activeItem (_clearOpenTimeout m s) = activeItem s.
Proof.
  unfold _clearOpenTimeout. destruct (_openTimeout s !! m); repeat split; reflexivity.
Qed.

Lemma clearClose_fields m s :
  _openTimeout (_clearCloseTimeout m s) = _openTimeout s
  /\ next_timer (_clearCloseTimeout m s) = next_timer s
  /\ expanded_items (_clearCloseTimeout m s) = expanded_items s
  /\ activeItem (_clearCloseTimeout m s) = activeItem s.
Proof.
  unfold _clearCloseTimeout. destruct (_closeTimeout s !! m); repeat split; reflexivity.
Qed.

(** Clearing stored timeouts never stores one. *)
Lemma clearOpen_keeps_none m p s :
  (_openTimeout s !! p = None -> _openTimeout (_clearOpenTimeout m s) !! p = None)
  /\ (_closeTimeout s !! p = None -> _closeTimeout (_clearOpenTimeout m s) !! p = None).
Proof.
  unfold _clearOpenTimeout. destruct (_openTimeout s !! m); simpl; split; auto.
  intros H. apply lookup_delete_None. auto.
Qed.

Lemma clearClose_keeps_none m p s :
  (_openTimeout s !! p = None -> _openTimeout (_clearCloseTimeout m s) !! p = None)
  /\ (_closeTimeout s !! p = None -> _closeTimeout (_clearCloseTimeout m s) !! p = None).
Proof.
  unfold _clearCloseTimeout. destruct (_closeTimeout s !! m); simpl; split; auto.
  intros H. apply lookup_delete_None. auto.
Qed.

Lemma openItem_ok m i s : timers_ok s -> timers_ok (_openItem m i s).
Proof.
  intros Hok. unfold _openItem.
  pose proof (clearOpen_ok m s Hok) as [H1 H2 O1 O2 H3 H4 H5].
  pose proof (clearOpen_slot m s) as Hnone.
  set (x := _clearOpenTimeout m s) in *.
  constructor; simpl.
  - intros id' m' i' Hl. apply lookup_insert_Some in Hl as [[<- [= <- <-]]|[Hne Hl]].
    + apply lookup_insert_eq.
    + pose proof (H1 _ _ _ Hl) as Hs.
      rewrite lookup_insert_ne; [exact Hs|]. intros <-. congruence.
  - intros id' m' i' Hl. apply lookup_insert_Some in Hl as [[_ [=]]|[_ Hl]]. eauto.
  - intros m' id' cb Hs Hl. apply lookup_insert_Some in Hs as [[<- <-]|[Hne Hs]].
    + rewrite lookup_insert_eq in Hl. injection Hl as <-. eauto.
    + pose proof (H4 _ _ Hs) as Hlt.
      rewrite lookup_insert_ne in Hl by lia. eauto.
  - intros m' id' cb Hs Hl. pose proof (H5 _ _ Hs) as Hlt.
    rewrite lookup_insert_ne in Hl by lia. eauto.
  - intros id' cb Hl. apply lookup_insert_Some in Hl as [[<- _]|[_ Hl]]; [lia|].
    apply H3 in Hl. lia.
  - intros m' id' Hl. apply lookup_insert_Some in Hl as [[_ <-]|[_ Hl]]; [lia|].
    apply H4 in Hl. lia.
  - intros m' id' Hl. apply H5 in Hl. lia.
Qed.

Lemma closeItem_ok m i s : timers_ok s -> timers_ok (_closeItem m i s).
Proof.
  intros Hok. unfold _closeItem.
  pose proof (clearOpen_ok m s Hok) as Hx.
  set (x := _clearOpenTimeout m s) in *.
  destruct (_closeTimeout x !! m) as [idc|] eqn:Hslot; [exact Hx|].
  destruct Hx as [H1 H2 O1 O2 H3 H4 H5].
  constructor; simpl.
  - intros id' m' i' Hl. apply lookup_insert_Some in Hl as [[_ [=]]|[_ Hl]]. eauto.
  - intros id' m' i' Hl. apply lookup_insert_Some in Hl as [[<- [= <- <-]]|[Hne Hl]].
    + apply lookup_insert_eq.
    + pose proof (H2 _ _ _ Hl) as Hs.
      rewrite lookup_insert_ne; [exact Hs|]. intros <-. congruence.
  - intros m' id' cb Hs Hl. pose proof (H4 _ _ Hs) as Hlt.
    rewrite lookup_insert_ne in Hl by lia. eauto.
  - intros m' id' cb Hs Hl. apply lookup_insert_Some in Hs as [[<- <-]|[Hne Hs]].
    + rewrite lookup_insert_eq in Hl. injection Hl as <-. eauto.
    + pose proof (H5 _ _ Hs) as Hlt.
      rewrite lookup_insert_ne in Hl by lia. eauto.
  - intros id' cb Hl. apply lookup_insert_Some in Hl as [[<- _]|[_ Hl]]; [lia|].
    apply H3 in Hl. lia.
  - intros m' id' Hl. apply H4 in Hl. lia.
  - intros m' id' Hl. apply lookup_insert_Some in Hl as [[_ <-]|[_ Hl]]; [lia|].
    apply H5 in Hl. lia.
Qed.

Lemma openItem_later m i s : later s (_openItem m i s).
Proof.
  eapply later_trans; [apply (clearOpen_later m)|].
  unfold _openItem. set (x := _clearOpenTimeout m s).
  split; simpl; [lia|]. intros id cb Hid Hl.
  apply lookup_insert_Some in Hl as [[<- _]|[_ Hl]]; [lia|exact Hl].
Qed.

Lemma closeItem_later m i s : later s (_closeItem m i s).
Proof.
  eapply later_trans; [apply (clearOpen_later m)|].
  unfold _closeItem. set (x := _clearOpenTimeout m s).
  destruct (_closeTimeout x !! m); [apply later_refl|].
  split; simpl; [lia|]. intros id cb Hid Hl.
  apply lookup_insert_Some in Hl as [[<- _]|[_ Hl]]; [lia|exact Hl].
Qed.

Lemma openItem_post m i s :
  _openTimeout (_openItem m i s) !! m = Some (next_timer s)
  /\ timers (_openItem m i s) !! next_timer s = Some (CbOpen m i)
  /\ _closeTimeout (_openItem m i s) = _closeTimeout s
  /\ expanded_items (_openItem m i s) = expanded_items s.
Proof.
  unfold _openItem. destruct (clearOpen_fields m s) as (Hc & Hn & He & _).
  simpl. rewrite Hn, Hc, He.
  split; [apply lookup_insert_eq|]. split; [apply lookup_insert_eq|]. auto.
Qed.

Lemma closeItem_fields m i s :
  expanded_items (_closeItem m i s) = expanded_items s
  /\ activeItem (_closeItem m i s) = activeItem s.
Proof.
  unfold _closeItem. destruct (clearOpen_fields m s) as (_ & _ & He & Ha).
  destruct (_closeTimeout (_clearOpenTimeout m s) !! m); simpl; auto.
Qed.

(** A pending close timer outlives every timer operation but the clearing
    of the close timeout of its own menu. *)
Lemma clearOpen_keeps_close m' m id cb s :
  timers_ok s -> close_timer_pending m id cb s ->
  close_timer_pending m id cb (_clearOpenTimeout m' s).
Proof.
  intros Hok [Hs Hl]. unfold _clearOpenTimeout, close_timer_pending.
  destruct (_openTimeout s !! m') as [ido|] eqn:Ho; simpl; [|auto].
  split; [exact Hs|]. rewrite lookup_delete_ne; [exact Hl|].
  intros ->. destruct (open_owned s Hok _ _ _ Ho Hl) as [i ->].
  destruct (close_owned s Hok _ _ _ Hs Hl) as [i' [=]].
Qed.

Lemma clearClose_keeps_close m' m id cb s :
  m' <> m -> timers_ok s -> close_timer_pending m id cb s ->
  close_timer_pending m id cb (_clearCloseTimeout m' s).
Proof.
  intros Hne Hok [Hs Hl]. unfold _clearCloseTimeout, close_timer_pending.
  destruct (_closeTimeout s !! m') as [idc|] eqn:Hc; simpl; [|auto].
  split; [rewrite lookup_delete_ne by exact Hne; exact Hs|].
  rewrite lookup_delete_ne; [exact Hl|].
  intros ->. destruct (close_owned s Hok _ _ _ Hc Hl) as [i ->].
  destruct (close_owned s Hok _ _ _ Hs Hl) as [i' [=]]. congruence.
Qed.

Lemma closeItem_keeps_close m a id cb s :
  timers_ok s -> close_timer_pending m id cb s ->
  close_timer_pending m id cb (_closeItem m a s).
Proof.
  intros Hok Hp. pose proof (clearOpen_keeps_close m m id cb s Hok Hp) as [Hs Hl].
  unfold _closeItem. rewrite Hs. split; assumption.
Qed.

Lemma openItem_keeps_close m' i m id cb s :
  timers_ok s -> close_timer_pending m id cb s ->
  close_timer_pending m id cb (_openItem m' i s).
Proof.
  intros Hok Hp. pose proof (clearOpen_keeps_close m' m id cb s Hok Hp) as [Hs Hl].
  pose proof (clearOpen_ok m' s Hok) as Hokx.
  unfold _openItem. set (x := _clearOpenTimeout m' s) in *.
  split; simpl; [exact Hs|].
  pose proof (close_below_next x Hokx _ _ Hs) as Hlt.
  rewrite lookup_insert_ne by lia. exact Hl.
Qed.

(** With the bookkeeping in order, a menu whose two fields are empty has no
    pending timer. *)
Lemma empty_slots_no_pending p s :
  timers_ok s ->
  _openTimeout s !! p = None -> _closeTimeout s !! p = None ->
  no_pending_timer p s.
Proof.
  intros [H1 H2 _ _ _ _ _] Ho Hc id cb Hl Hm.
  destruct cb as [m i|m i]; simpl in Hm; subst m.
  - apply H1 in Hl. congruence.
  - apply H2 in Hl. congruence.
Qed.

Section Timers.
Variable lb : ListBehavior.
Variable g : Layout.

Lemma list_run_same_timers op o s : same_timers s (list_run g op o s).
Proof. repeat split. Qed.

(** *** The close loops and the timers *)

Lemma visit_ok c i s : timers_ok s -> timers_ok (visit lb g c i s).
Proof.
  intros Hok. unfold visit.
  set (x := match item_parent g i with
            | Some o => list_run g (lb_unfocus lb) o
                          (set_expanded_items (expanded_items s ∖ {[i]}) s)
            | None => set_expanded_items (expanded_items s ∖ {[i]}) s
            end).
  assert (Hx : timers_ok x).
  { apply (same_timers_ok s); [|exact Hok].
    unfold x. destruct (item_parent g i); repeat split. }
  destruct c; [|exact Hx].
  destruct (item_parent g i) as [[p|b]|]; try exact Hx.
  apply clearTimeouts_ok, Hx.
Qed.

Lemma visit_later c i s : later s (visit lb g c i s).
Proof.
  unfold visit.
  set (x := match item_parent g i with
            | Some o => list_run g (lb_unfocus lb) o
                          (set_expanded_items (expanded_items s ∖ {[i]}) s)
            | None => set_expanded_items (expanded_items s ∖ {[i]}) s
            end).
  assert (Hx : later s x).
  { apply same_timers_later. unfold x. destruct (item_parent g i); repeat split. }
  destruct c; [|exact Hx].
  destruct (item_parent g i) as [[p|b]|]; try exact Hx.
  eapply later_trans; [exact Hx|apply clearTimeouts_later].
Qed.

Lemma visit_clears j p s :
  item_parent g j = Some (OMenu p) ->
  _openTimeout (visit lb g true j s) !! p = None
  /\ _closeTimeout (visit lb g true j s) !! p = None.
Proof.
  intros Hp. unfold visit. rewrite Hp. unfold _clearTimeouts.
  split; [|apply clearClose_slot].
  destruct (clearClose_fields p
              (_clearOpenTimeout p
                 (list_run g (lb_unfocus lb) (OMenu p)
                    (set_expanded_items (expanded_items s ∖ {[j]}) s)))) as (Ho & _).
  rewrite Ho. apply clearOpen_slot.
Qed.

Lemma visit_keeps_none c k p s :
  _openTimeout s !! p = None /\ _closeTimeout s !! p = None ->
  _openTimeout (visit lb g c k s) !! p = None
  /\ _closeTimeout (visit lb g c k s) !! p = None.
Proof.
  intros [Ho Hc]. unfold visit.
  set (x := match item_parent g k with
            | Some o => list_run g (lb_unfocus lb) o
                          (set_expanded_items (expanded_items s ∖ {[k]}) s)
            | None => set_expanded_items (expanded_items s ∖ {[k]}) s
            end).
  assert (Hx : _openTimeout x !! p = None /\ _closeTimeout x !! p = None).
  { unfold x. destruct (item_parent g k); split; assumption. }
  destruct c; [|exact Hx].
  destruct (item_parent g k) as [[q|b]|]; try exact Hx.
  destruct Hx as [Hxo Hxc]. unfold _clearTimeouts.
  destruct (clearOpen_keeps_none q p x) as [A B].
  destruct (clearClose_keeps_none q p (_clearOpenTimeout q x)) as [C D].
  split; auto.
Qed.

Lemma close_loop_ok c n wl s s' :
  close_loop lb g c n wl s = Some s' -> timers_ok s -> timers_ok s'.
Proof.
  apply (close_loop_preserves lb g timers_ok c). intros i x. apply visit_ok.
Qed.

Lemma close_loop_later c n wl s s' :
  close_loop lb g c n wl s = Some s' -> later s s'.
Proof.
  intros H.
  apply (close_loop_preserves lb g (later s) c) with (n := n) (wl := wl) (s := s);
    [|exact H|apply later_refl].
  intros i x Hx. eapply later_trans; [exact Hx|apply visit_later].
Qed.

Lemma pop_items_same_timers m rest s : same_timers s (pop_items m rest s).
Proof. repeat split. Qed.

Lemma close_items_ok c n m s s' :
  close_items lb g c n m s = Some s' -> timers_ok s -> timers_ok s'.
Proof.
  apply (close_items_preserves lb g timers_ok c).
  - intros i x. apply visit_ok.
  - intros m0 rest x. apply same_timers_ok, pop_items_same_timers.
Qed.

Lemma close_items_later c n m s s' :
  close_items lb g c n m s = Some s' -> later s s'.
Proof.
  intros H.
  apply (close_items_preserves lb g (later s) c) with (n := n) (m := m) (s := s);
    [| |exact H|apply later_refl].
  - intros i x Hx. eapply later_trans; [exact Hx|apply visit_later].
  - intros m0 rest x Hx. eapply later_trans; [exact Hx|].
    apply same_timers_later, pop_items_same_timers.
Qed.

(** [MenuItemPattern.close] keeps the bookkeeping in order and leaves no
    timer pending in any menu of the chain it closes. *)
Lemma item_close_timers fuel i refocus s s' :
  item_close lb g fuel i refocus s = Some s' ->
  timers_ok s ->
  timers_ok s'
  /\ later s s'
  /\ forall k j p,
       child g (menu_items s) k i -> reaches g (menu_items s) k j ->
       item_parent g j = Some (OMenu p) ->
       _openTimeout s' !! p = None
       /\ _closeTimeout s' !! p = None
       /\ no_pending_timer p s'.
Proof.
  rewrite item_close_unfold. intros H Hok.
  assert (Hb : same_timers s (MenuSpec.before_loop lb g i refocus s)).
  { unfold MenuSpec.before_loop. destruct refocus; [destruct (item_parent g i)|];
      repeat split. }
  destruct (before_loop_fields lb g i refocus s) as (_ & _ & _ & _ & _ & Hits).
  destruct (item_submenu g i) as [sub|] eqn:Hsub.
  - assert (Hok' : timers_ok s').
    { eapply close_items_ok; [exact H|]. eapply same_timers_ok; [exact Hb|exact Hok]. }
    split; [exact Hok'|]. split.
    { eapply later_trans; [apply same_timers_later, Hb|]. eapply close_items_later, H. }
    intros k j p Hk Hreach Hp.
    unfold child, items_under in Hk. rewrite Hsub in Hk.
    assert (Hnone : _openTimeout s' !! p = None /\ _closeTimeout s' !! p = None).
    { apply (close_items_visits lb g
               (fun j x => forall p, item_parent g j = Some (OMenu p) ->
                  _openTimeout x !! p = None /\ _closeTimeout x !! p = None) true)
        with (n := fuel) (m := sub)
             (s := MenuSpec.before_loop lb g i refocus s) (i := k) (j := j);
        try assumption.
      - intros j0 x p0. apply visit_clears.
      - intros j0 k0 x Hx p0 Hp0. apply visit_keeps_none, Hx, Hp0.
      - rewrite Hits. exact Hk.
      - rewrite Hits. exact Hreach. }
    destruct Hnone as [Ho Hc]. split; [exact Ho|]. split; [exact Hc|].
    apply empty_slots_no_pending; assumption.
  - injection H as <-.
    split; [eapply same_timers_ok; eassumption|].
    split; [apply same_timers_later, Hb|].
    intros k j p Hk. unfold child, items_under in Hk. rewrite Hsub in Hk. destruct Hk.
Qed.

(** [MenuTriggerPattern.close] never touches a hover timer. *)
Lemma trigger_close_same_timers fuel t refocus s s' :
  trigger_close lb g fuel t refocus s = Some s' -> same_timers s s'.
Proof.
  rewrite trigger_close_unfold. intros H.
  assert (Hb : same_timers s (MenuSpec.trigger_before_loop lb g t refocus s)).
  { unfold MenuSpec.trigger_before_loop.
    destruct (refocus && trigger_element g t); destruct (trigger_menu g t); repeat split. }
  destruct (trigger_menu g t) as [m|]; [|injection H as <-; exact Hb].
  apply (close_items_preserves lb g (same_timers s) false)
    with (n := fuel) (m := m) (s := MenuSpec.trigger_before_loop lb g t refocus s);
    [| |exact H|exact Hb].
  - intros i x Hx. eapply same_timers_trans; [exact Hx|].
    unfold visit. destruct (item_parent g i); repeat split.
  - intros m0 rest x Hx. eapply same_timers_trans; [exact Hx|].
    apply pop_items_same_timers.
Qed.

(** *** Hovering *)

(** What [onMouseOver] does before it schedules the new open timer: the
    state in which [_openItem] runs. *)
Lemma onMouseOver_unfold fuel m hit item s :
  visible g m s = true ->
  List.find hit (menu_items s m) = Some item ->
  exists x,
    (timers_ok s ->
       timers_ok x /\ later s x
       /\ (truthy (expanded g item s) = true -> _closeTimeout x !! m = None)
       /\ (truthy (expanded g item s) = false ->
           (forall p, menu_parent g m = Some (PItem p) ->
              item_parent g p <> Some (OMenu m)) ->
           forall id cb, close_timer_pending m id cb s -> close_timer_pending m id cb x))
    /\ onMouseOver lb g fuel m hit s =
       (focus ← shouldFocus g fuel m (_openItem m item x);
        Some (list_run g (lb_goto lb item (Some focus)) (OMenu m) (_openItem m item x))).
Proof.
  intros Hvis Hfind. unfold onMouseOver. rewrite Hvis. simpl. rewrite Hfind.
  set (x0 := set_hasBeenHovered ({[m]} ∪ hasBeenHovered s) s).
  set (x1 := match menu_parent g m with
             | Some (PItem p) =>
                 match item_parent g p with
                 | Some (OMenu grandparent) =>
                     list_run g (lb_goto lb p (Some false)) (OMenu grandparent)
                       (_clearTimeouts grandparent x0)
                 | _ => x0
                 end
             | _ => x0
             end).
  set (x2 := match activeItem x0 !! OMenu m with
             | Some a => if bool_decide (a <> item) then _closeItem m a x1 else x1
             | None => x1
             end).
  set (x3 := if truthy (expanded g item x2) then _clearCloseTimeout m x2 else x2).
  exists x3. split; [|reflexivity]. intros Hok.
  assert (H0 : timers_ok x0 /\ later s x0 /\ expanded_items x0 = expanded_items s
               /\ forall id cb, close_timer_pending m id cb s -> close_timer_pending m id cb x0).
  { split; [apply (same_timers_ok s); [repeat split|exact Hok]|].
    split; [apply same_timers_later; repeat split|]. split; [reflexivity|auto]. }
  destruct H0 as (Hok0 & Hl0 & He0 & Hk0).
  assert (H1 : timers_ok x1 /\ later s x1 /\ expanded_items x1 = expanded_items s
               /\ ((forall p, menu_parent g m = Some (PItem p) ->
                      item_parent g p <> Some (OMenu m)) ->
                   forall id cb, close_timer_pending m id cb s ->
                                 close_timer_pending m id cb x1)).
  { assert (Hsame : timers_ok x0 /\ later s x0 /\ expanded_items x0 = expanded_items s
               /\ ((forall p, menu_parent g m = Some (PItem p) ->
                      item_parent g p <> Some (OMenu m)) ->
                   forall id cb, close_timer_pending m id cb s ->
                                 close_timer_pending m id cb x0)) by auto.
    unfold x1. destruct (menu_parent g m) as [[t|p]|]; try exact Hsame.
    destruct (item_parent g p) as [[gp|b]|] eqn:Hgp; try exact Hsame.
    split; [|split; [|split]].
    - eapply same_timers_ok; [apply list_run_same_timers|]. apply clearTimeouts_ok, Hok0.
    - eapply later_trans; [exact Hl0|]. eapply later_trans; [apply clearTimeouts_later|].
      apply same_timers_later, list_run_same_timers.
    - simpl. destruct (clear_timeouts_fields gp x0) as (H & _). rewrite H. exact He0.
    - intros Hown id cb Hp.
      assert (Hne : gp <> m).
      { intros E. apply (Hown p eq_refl). rewrite Hgp, E. reflexivity. }
      assert (Hc : close_timer_pending m id cb (_clearTimeouts gp x0)).
      { unfold _clearTimeouts. apply clearClose_keeps_close; [exact Hne| |].
        - apply clearOpen_ok, Hok0.
        - apply clearOpen_keeps_close; [exact Hok0|apply Hk0, Hp]. }
      exact Hc. }
  destruct H1 as (Hok1 & Hl1 & He1 & Hk1).
  assert (H2 : timers_ok x2 /\ later s x2 /\ expanded_items x2 = expanded_items s
               /\ ((forall p, menu_parent g m = Some (PItem p) ->
                      item_parent g p <> Some (OMenu m)) ->
                   forall id cb, close_timer_pending m id cb s ->
                                 close_timer_pending m id cb x2)).
  { assert (Hsame : timers_ok x1 /\ later s x1 /\ expanded_items x1 = expanded_items s
               /\ ((forall p, menu_parent g m = Some (PItem p) ->
                      item_parent g p <> Some (OMenu m)) ->
                   forall id cb, close_timer_pending m id cb s ->
                                 close_timer_pending m id cb x1)) by auto.
    unfold x2. destruct (activeItem x0 !! OMenu m) as [a|]; try exact Hsame.
    destruct (bool_decide (a <> item)); try exact Hsame.
    split; [apply closeItem_ok, Hok1|]. split; [|split].
    - eapply later_trans; [exact Hl1|apply closeItem_later].
    - destruct (closeItem_fields m a x1) as (H & _). rewrite H. exact He1.
    - intros Hown id cb Hp. apply closeItem_keeps_close; [exact Hok1|].
      apply Hk1; assumption. }
  destruct H2 as (Hok2 & Hl2 & He2 & Hk2).
  assert (Hexp : expanded g item x2 = expanded g item s).
  { unfold expanded. rewrite He2. reflexivity. }
  unfold x3. rewrite Hexp.
  destruct (truthy (expanded g item s)).
  - split; [apply clearClose_ok, Hok2|]. split; [|split].
    + eapply later_trans; [exact Hl2|apply clearClose_later].
    + intros _. apply clearClose_slot.
    + discriminate.
  - split; [exact Hok2|]. split; [exact Hl2|]. split; [discriminate|].
    intros _. exact Hk2.
Qed.

(** After a hover over an item of a visible menu: the bookkeeping is in
    order, every open timer that was pending for the menu is gone, the only
    open timer pending for the menu is the one for the hovered item, if the
    hovered item is expanded no close timer of the menu is pending, and
    otherwise the close timer the menu stores is still stored and pending,
    and is the only one. *)
Lemma onMouseOver_timers fuel m hit item s s' :
  timers_ok s ->
  visible g m s = true ->
  List.find hit (menu_items s m) = Some item ->
  onMouseOver lb g fuel m hit s = Some s' ->
  timers_ok s'
  /\ (forall id i', timers s !! id = Some (CbOpen m i') -> timers s' !! id = None)
  /\ (exists id, timers s' !! id = Some (CbOpen m item))
  /\ (forall id i', timers s' !! id = Some (CbOpen m i') -> i' = item)
  /\ (truthy (expanded g item s) = true ->
      forall id i', timers s' !! id <> Some (CbClose m i'))
  /\ (truthy (expanded g item s) = false ->
      (forall p, menu_parent g m = Some (PItem p) -> item_parent g p <> Some (OMenu m)) ->
      forall id cb, close_timer_pending m id cb s ->
        close_timer_pending m id cb s'
        /\ forall id' i', timers s' !! id' = Some (CbClose m i') -> id' = id).
Proof.
  intros Hok Hvis Hfind Hrun.
  destruct (onMouseOver_unfold fuel m hit item s Hvis Hfind) as (x & Hx & Heq).
  destruct (Hx Hok) as (Hokx & Hlx & Hclose & Hkept). clear Hx.
  rewrite Heq in Hrun.
  destruct (shouldFocus g fuel m (_openItem m item x)) as [focus|]; [|discriminate].
  injection Hrun as <-.
  set (y := _openItem m item x) in *.
  destruct (openItem_post m item x) as (Hslot & Hnew & Hcl & _). fold y in Hslot, Hnew, Hcl.
  assert (Hoky : timers_ok y) by apply openItem_ok, Hokx.
  assert (Hsame : same_timers y (list_run g (lb_goto lb item (Some focus)) (OMenu m) y))
    by apply list_run_same_timers.
  set (s' := list_run g (lb_goto lb item (Some focus)) (OMenu m) y) in *.
  assert (Hok' : timers_ok s') by (eapply same_timers_ok; [exact Hsame|exact Hoky]).
  destruct Hsame as (So & Sc & St & Sn).
  assert (Hunique : forall id i', timers s' !! id = Some (CbOpen m i') ->
                      id = next_timer x /\ i' = item).
  { intros id i' Hl. pose proof (open_stored _ Hok' _ _ _ Hl) as Hs.
    rewrite So, Hslot in Hs. injection Hs as <-.
    rewrite St, Hnew in Hl. injection Hl as <-. auto. }
  split; [exact Hok'|]. split; [|split; [|split; [|split]]].
  - intros id i' Hold.
    destruct (timers s' !! id) as [cb|] eqn:Hl; [|reflexivity]. exfalso.
    pose proof (pending_below_next _ Hok _ _ Hold) as Hlt.
    assert (Hls : later s s').
    { eapply later_trans; [exact Hlx|]. eapply later_trans; [apply openItem_later|].
      apply same_timers_later. repeat split; assumption. }
    destruct Hls as [_ Hls]. pose proof (Hls id cb Hlt Hl) as Hwas.
    rewrite Hold in Hwas. injection Hwas as <-.
    destruct (Hunique id i' Hl) as [-> _].
    destruct Hlx as [Hn _]. lia.
  - exists (next_timer x). rewrite St. exact Hnew.
  - intros id i' Hl. apply (Hunique id i' Hl).
  - intros Hexp id i' Hl. pose proof (close_stored _ Hok' _ _ _ Hl) as Hs.
    rewrite Sc, Hcl, (Hclose Hexp) in Hs. discriminate.
  - intros Hexp Hown id cb Hp.
    pose proof (openItem_keeps_close m item m id cb x Hokx (Hkept Hexp Hown id cb Hp))
      as [Hs Hl].
    fold y in Hs, Hl.
    assert (Hp' : close_timer_pending m id cb s').
    { split; [rewrite Sc; exact Hs|rewrite St; exact Hl]. }
    split; [exact Hp'|].
    intros id' i' Hl'. pose proof (close_stored _ Hok' _ _ _ Hl') as Hs'.
    destruct Hp' as [Hs0 _]. congruence.
Qed.

Lemma onMouseOver_returns fuel m hit s r :
  root g fuel m = Some r -> exists s', onMouseOver lb g fuel m hit s = Some s'.
Proof.
  intros Hroot. unfold onMouseOver.
  destruct (negb (visible g m s)); [eauto|].
  cbv zeta. destruct (List.find hit _); [|eauto].
  unfold shouldFocus. rewrite Hroot. simpl. eauto.
Qed.

Lemma openItem_replaces m i s :
  timers_ok s ->
  (forall id, _openTimeout s !! m = Some id -> timers (_openItem m i s) !! id = None)
  /\ (forall id i', timers (_openItem m i s) !! id = Some (CbOpen m i') -> i' = i).
Proof.
  intros Hok. split.
  - intros id Hslot. pose proof (open_below_next _ Hok _ _ Hslot) as Hlt.
    unfold _openItem, _clearOpenTimeout. rewrite Hslot. simpl.
    rewrite lookup_insert_ne by lia. apply lookup_delete_eq.
  - intros id i' Hl.
    pose proof (open_stored _ (openItem_ok m i s Hok) _ _ _ Hl) as Hs.
    destruct (openItem_post m i s) as (Hslot & Hnew & _).
    rewrite Hslot in Hs. injection Hs as <-. rewrite Hnew in Hl. congruence.
Qed.

(** C4 (amended): in a state whose timer bookkeeping is in order.  Before a
    new open timer is scheduled the one stored for the menu is cleared, so
    the only open timer pending for a menu is the latest.  When the hover
    moves to an item of a visible menu, every open timer that was pending
    for the menu is cancelled and the only one pending afterwards is for the
    hovered item, so no stale timer opens an item the hover has left.  A
    pending close timer of the menu is cancelled when the hovered item is
    expanded; when it is not, and the menu is not the menu of its own parent
    item, the close timer the menu stores stays stored and pending, and no
    second one is scheduled.  When [MenuItemPattern.close] closes a chain of
    submenus, no timer stays pending in any menu of that chain.  All three
    leave the bookkeeping in order, and return. *)
Theorem C4_hover_timers_are_cancelled (s : State) :
  timers_ok s ->
  (forall m i,
     timers_ok (_openItem m i s)
     /\ (forall id, _openTimeout s !! m = Some id -> timers (_openItem m i s) !! id = None)
     /\ (forall id i', timers (_openItem m i s) !! id = Some (CbOpen m i') -> i' = i))
  /\ (forall fuel m hit item s',
        visible g m s = true ->
        List.find hit (menu_items s m) = Some item ->
        onMouseOver lb g fuel m hit s = Some s' ->
        timers_ok s'
        /\ (forall id i', timers s !! id = Some (CbOpen m i') -> timers s' !! id = None)
        /\ (exists id, timers s' !! id = Some (CbOpen m item))
        /\ (forall id i', timers s' !! id = Some (CbOpen m i') -> i' = item)
        /\ (truthy (expanded g item s) = true ->
            forall id i', timers s' !! id <> Some (CbClose m i'))
        /\ (truthy (expanded g item s) = false ->
            (forall p, menu_parent g m = Some (PItem p) ->
               item_parent g p <> Some (OMenu m)) ->
            forall id cb, close_timer_pending m id cb s ->
              close_timer_pending m id cb s'
              /\ forall id' i', timers s' !! id' = Some (CbClose m i') -> id' = id))
  /\ (forall fuel m hit r,
        root g fuel m = Some r -> exists s', onMouseOver lb g fuel m hit s = Some s')
  /\ (forall fuel i refocus s',
        item_close lb g fuel i refocus s = Some s' ->
        timers_ok s'
        /\ forall k j p,
             child g (menu_items s) k i -> reaches g (menu_items s) k j ->
             item_parent g j = Some (OMenu p) ->
             no_pending_timer p s')
  /\ (finitely_nested g (menu_items s) ->
      forall i refocus,
        exists N s', forall fuel, (N <= fuel)%nat ->
          item_close lb g fuel i refocus s = Some s').
Proof.
  intros Hok. split; [|split; [|split; [|split]]].
  - intros m i. split; [apply openItem_ok, Hok|]. apply openItem_replaces, Hok.
  - intros fuel m hit item s' Hvis Hfind Hrun.
    apply (onMouseOver_timers fuel m hit item s s' Hok Hvis Hfind Hrun).
  - intros fuel m hit r. apply onMouseOver_returns.
  - intros fuel i refocus s' Hclose.
    destruct (item_close_timers fuel i refocus s s' Hclose Hok) as (Hok' & _ & Hall).
    split; [exact Hok'|]. intros k j p Hk Hreach Hp. apply (Hall k j p Hk Hreach Hp).
  - intros Hwf i refocus. apply item_close_terminates, Hwf.
Qed.

End Timers.

Import MenuExamples.

Lemma page_state_timers_ok open active triggers :
  timers_ok (page_state open active triggers).
Proof. constructor; simpl; intros *; rewrite lookup_empty; discriminate. Qed.

(** C4 on the page: with the trigger's menu open down to menu 3, the hover
    moves to item 11, which schedules the close of item 10 (timer 1) and
    the opening of item 11 (timer 2), and then on to item 12.  The second
    move cancels timer 2 and leaves an open timer for item 12 only; timer 1
    stays stored and pending. *)
Lemma C4_hover_moves_from_item_11_to_item_12 :
  exists s1 s2,
    onMouseOver simple_list page 9 1 (Nat.eqb 11) deep_open = Some s1
    /\ timers s1 !! 1%nat = Some (CbClose 1 10)
    /\ timers s1 !! 2%nat = Some (CbOpen 1 11)
    /\ onMouseOver simple_list page 9 1 (Nat.eqb 12) s1 = Some s2
    /\ timers_ok s2
    /\ timers s2 !! 2%nat = None
    /\ (forall id i', timers s2 !! id = Some (CbOpen 1 i') -> i' = 12%nat)
    /\ close_timer_pending 1 1 (CbClose 1 10) s2.
Proof.
  destruct (onMouseOver simple_list page 9 1 (Nat.eqb 11) deep_open) as [s1|] eqn:H1;
    [|vm_compute in H1; discriminate].
  assert (Hs1 : timers s1 !! 1%nat = Some (CbClose 1 10)
                /\ timers s1 !! 2%nat = Some (CbOpen 1 11)
                /\ _closeTimeout s1 !! 1%nat = Some 1%nat
                /\ visible page 1 s1 = true
                /\ List.find (Nat.eqb 12) (menu_items s1 1) = Some 12%nat
                /\ truthy (expanded page 12 s1) = false)
    by (clear - H1; vm_compute in H1; injection H1 as <-; vm_compute; auto 10).
  destruct Hs1 as (Hclose1 & Hopen1 & Hslot1 & Hvis1 & Hfind1 & Hexp1).
  assert (Hok1 : timers_ok s1).
  { destruct (C4_hover_timers_are_cancelled simple_list page deep_open
                (page_state_timers_ok _ _ _)) as (_ & Hhover & _).
    apply (Hhover 9%nat 1%nat (Nat.eqb 11) 11%nat s1 eq_refl eq_refl H1). }
  destruct (C4_hover_timers_are_cancelled simple_list page s1 Hok1)
    as (_ & Hhover & Hret & _).
  destruct (Hret 9%nat 1%nat (Nat.eqb 12) (Some (RTrigger 0)) eq_refl) as [s2 H2].
  exists s1, s2. split; [reflexivity|]. split; [exact Hclose1|]. split; [exact Hopen1|].
  split; [exact H2|].
  destruct (Hhover 9%nat 1%nat (Nat.eqb 12) 12%nat s2 Hvis1 Hfind1 H2)
    as (Hok2 & Hgone & _ & Honly & _ & Hkept).
  split; [exact Hok2|]. split; [apply (Hgone 2%nat 11%nat Hopen1)|].
  split; [exact Honly|].
  apply (Hkept Hexp1); [|split; assumption].
  intros p Hp. simpl in Hp. discriminate.
Defined.

(** The claim as stated fails for the close timer: the hover moves from
    the expanded item 10 to item 11, which schedules the close of item 10,
    and then on to item 12; the close timeout scheduled before is not
    cleared by the second move, it is still stored and pending, and when it
    fires it closes item 10. *)
Lemma C4_close_timer_survives_a_hover_move :
  exists s1 s2 s3,
    onMouseOver simple_list page 9 1 (Nat.eqb 11) deep_open = Some s1
    /\ _closeTimeout s1 !! 1%nat = Some 1%nat
    /\ timers s1 !! 1%nat = Some (CbClose 1 10)
    /\ activeItem s1 !! OMenu 1 = Some 11%nat
    /\ onMouseOver simple_list page 9 1 (Nat.eqb 12) s1 = Some s2
    /\ activeItem s2 !! OMenu 1 = Some 12%nat
    /\ _closeTimeout s2 !! 1%nat = Some 1%nat
    /\ timers s2 !! 1%nat = Some (CbClose 1 10)
    /\ fire simple_list page 9 1 s2 = Some s3
    /\ expanded page 10 s2 = Some true
    /\ expanded page 10 s3 = Some false.
Proof.
  eexists. eexists. eexists.
  split; [vm_compute; reflexivity|].
  repeat (split; [vm_compute; reflexivity|]).
  vm_compute; reflexivity.
Qed.

End MenuTimers.

(** ** Menus: what every event handler keeps *)
Module MenuInvariants.
Import Keys Menu MenuSpec TimerSpec MenuLoops MenuClose MenuEnter MenuTimers.
Import MenuHandlers HandlerSpec.

Lemma calm_ret : calm Some.
Proof.
  intros s s' [= <-] Hok. split; [exact Hok|]. split; [apply later_refl|reflexivity].
Qed.

Lemma calm_bind f k : calm f -> calm k -> calm (fun s => x ← f s; k x).
Proof.
  intros Hf Hk s s' H Hok. simpl in H.
  destruct (f s) as [x|] eqn:Hx; [|discriminate]. simpl in H.
  destruct (Hf s x Hx Hok) as (Hokx & Hlx & Hnx).
  destruct (Hk x s' H Hokx) as (Hok' & Hl' & Hn').
  split; [exact Hok'|]. split; [eapply later_trans; eassumption|congruence].
Qed.

Lemma calm_same (h : State -> State) :
  (forall s, same_timers s (h s)) -> calm (fun s => Some (h s)).
Proof.
  intros Hh s s' [= <-] Hok. split; [eapply same_timers_ok; [apply Hh|exact Hok]|].
  split; [apply same_timers_later, Hh|]. apply Hh.
Qed.

Lemma calm_after (h : State -> State) f :
  (forall s, same_timers s (h s)) -> calm f -> calm (fun s => f (h s)).
Proof.
  intros Hh Hf s s' H Hok.
  destruct (Hf (h s) s' H) as (Hok' & Hl & Hn).
  { eapply same_timers_ok; [apply Hh|exact Hok]. }
  split; [exact Hok'|]. split.
  - eapply later_trans; [apply same_timers_later, Hh|exact Hl].
  - rewrite Hn. apply Hh.
Qed.

Lemma calm_ext f f' : (forall s, f s = f' s) -> calm f' -> calm f.
Proof. intros E Hf s s' H. rewrite E in H. apply Hf, H. Qed.

Lemma calm_clearOpen m : calm (fun s => Some (_clearOpenTimeout m s)).
Proof.
  intros s s' [= <-] Hok. split; [apply clearOpen_ok, Hok|].
  split; [apply clearOpen_later|]. apply clearOpen_fields.
Qed.

Lemma calm_handle configs key :
  Forall (fun c : (State -> KeyMatcher) * (string -> State -> option State) =>
            forall k, calm (snd c k)) configs ->
  calm (handle configs key).
Proof.
  induction 1 as [|[km beh] rest Hc Hrest IH]; simpl.
  - apply calm_ret.
  - intros s s' H Hok. destruct (key_matches (km s) key).
    + destruct (beh key s) as [x|] eqn:Hx; [|discriminate].
      destruct (Hc key s x Hx Hok) as (Hokx & Hlx & Hnx).
      destruct (IH x s' H Hokx) as (Hok' & Hl' & Hn').
      split; [exact Hok'|]. split; [eapply later_trans; eassumption|congruence].
    + apply IH; assumption.
Qed.

Lemma one_timer_of_ok s : timers_ok s -> one_timer_per_menu s.
Proof.
  intros [H1 H2 _ _ _]. split; intros m id1 id2 i1 i2 A B.
  - pose proof (H1 _ _ _ A) as A'. pose proof (H1 _ _ _ B) as B'.
    assert (id1 = id2) by congruence. subst id2. split; [reflexivity|congruence].
  - pose proof (H2 _ _ _ A) as A'. pose proof (H2 _ _ _ B) as B'.
    assert (id1 = id2) by congruence. subst id2. split; [reflexivity|congruence].
Qed.

Section Invariants.
Variable lb : ListBehavior.
Variable g : Layout.
Variable trigger_disabled : nat -> bool.

Lemma calm_list_run op o : calm (fun s => Some (list_run g op o s)).
Proof. apply calm_same. intros s. apply list_run_same_timers. Qed.

Lemma calm_item_close fuel i refocus : calm (item_close lb g fuel i refocus).
Proof.
  intros s s' H Hok.
  destruct (item_close_timers lb g fuel i refocus s s' H Hok) as (A & B & _).
  split; [exact A|]. split; [exact B|].
  apply (item_close_post lb g fuel i refocus s s' H).
Qed.

Lemma calm_trigger_close fuel t refocus : calm (trigger_close lb g fuel t refocus).
Proof.
  intros s s' H Hok.
  pose proof (trigger_close_same_timers lb g fuel t refocus s s' H) as Hs.
  split; [eapply same_timers_ok; eassumption|].
  split; [apply same_timers_later, Hs|apply Hs].
Qed.

Lemma calm_close_active fuel m : calm (close_active lb g fuel m).
Proof.
  intros s s' H. unfold close_active in H.
  destruct (activeItem s !! OMenu m); [eapply calm_item_close, H|eapply calm_ret, H].
Qed.

Lemma calm_first fuel m : calm (first lb g fuel m).
Proof. apply calm_bind; [apply calm_close_active|apply calm_list_run]. Qed.

Lemma calm_last fuel m : calm (last lb g fuel m).
Proof. apply calm_bind; [apply calm_close_active|apply calm_list_run]. Qed.

Lemma calm_next fuel m : calm (next lb g fuel m).
Proof. apply calm_bind; [apply calm_close_active|apply calm_list_run]. Qed.

Lemma calm_prev fuel m : calm (prev lb g fuel m).
Proof. apply calm_bind; [apply calm_close_active|apply calm_list_run]. Qed.

Lemma calm_item_open fuel i opts : calm (item_open lb g fuel i opts).
Proof.
  unfold item_open. destruct (disabled g i); [apply calm_ret|].
  apply (calm_after (fun s => set_expanded_items ({[i]} ∪ expanded_items s) s)
           (fun s => x ← (if opt_first opts then
                            match item_submenu g i with
                            | Some sub => first lb g fuel sub s
                            | None => Some s
                            end
                          else Some s);
                     if opt_last opts then
                       match item_submenu g i with
                       | Some sub => last lb g fuel sub x
                       | None => Some x
                       end
                     else Some x)).
  { intros s. repeat split. }
  apply calm_bind.
  - destruct (opt_first opts); [|apply calm_ret].
    destruct (item_submenu g i); [apply calm_first|apply calm_ret].
  - destruct (opt_last opts); [|apply calm_ret].
    destruct (item_submenu g i); [apply calm_last|apply calm_ret].
Qed.

Lemma calm_bar_close fuel b : calm (bar_close lb g fuel b).
Proof.
  intros s s' H. unfold bar_close in H.
  destruct (activeItem s !! OBar b); [eapply calm_item_close, H|eapply calm_ret, H].
Qed.

Lemma calm_active_open fuel o opts :
  calm (fun s => match activeItem s !! o with
                 | Some a => item_open lb g fuel a opts s
                 | None => Some s
                 end).
Proof.
  intros s s' H. destruct (activeItem s !! o); [eapply calm_item_open, H|eapply calm_ret, H].
Qed.

Lemma calm_bar_reopen fuel b prevItem : calm (bar_reopen lb g fuel b prevItem).
Proof.
  destruct prevItem as [p|]; [|apply calm_ret].
  intros s s' H. unfold bar_reopen in H.
  destruct (truthy (expanded g p s)); [|eapply calm_ret, H].
  revert H. apply (calm_bind (item_close lb g fuel p false)
                     (fun x => match activeItem x !! OBar b with
                               | Some a => item_open lb g fuel a first_opt x
                               | None => Some x
                               end)).
  - apply calm_item_close.
  - apply calm_active_open.
Qed.

Lemma calm_bar_next fuel b : calm (bar_next lb g fuel b).
Proof.
  intros s s' H. unfold bar_next in H. revert H.
  apply (calm_after (list_run g (lb_next lb) (OBar b))
           (bar_reopen lb g fuel b (activeItem s !! OBar b))).
  - intros x. apply list_run_same_timers.
  - apply calm_bar_reopen.
Qed.

Lemma calm_bar_prev fuel b : calm (bar_prev lb g fuel b).
Proof.
  intros s s' H. unfold bar_prev in H. revert H.
  apply (calm_after (list_run g (lb_prev lb) (OBar b))
           (bar_reopen lb g fuel b (activeItem s !! OBar b))).
  - intros x. apply list_run_same_timers.
  - apply calm_bar_reopen.
Qed.

Lemma calm_call_onSelect r it : calm (fun s => Some (call_onSelect g r it s)).
Proof.
  apply calm_same. intros s. unfold call_onSelect.
  destruct r as [t|b|m]; simpl;
    [|destruct (bar_onSelect g b)|destruct (menu_onSelect g m)]; repeat split.
Qed.

Lemma calm_menu_close_active fuel rm refocus :
  calm (fun s => match activeItem s !! OMenu rm with
                 | Some a => item_close lb g fuel a refocus s
                 | None => Some s
                 end).
Proof.
  intros s s' H.
  destruct (activeItem s !! OMenu rm); [eapply calm_item_close, H|eapply calm_ret, H].
Qed.

Lemma calm_submit fuel m item : calm (submit lb g fuel m item).
Proof.
  unfold submit. destruct (root g fuel m) as [r|]; simpl; [|intros s s' [=]].
  destruct item as [it|]; [|apply calm_ret].
  destruct (negb (disabled g it)); [|apply calm_ret].
  destruct r as [[t|b|rm]|]; [| | |apply calm_ret];
    (destruct (negb (hasPopup g it)); [|apply calm_ret]).
  - apply calm_trigger_close.
  - apply calm_bind; [apply calm_bar_close|apply calm_call_onSelect].
  - apply (calm_bind _ (fun x => Some (call_onSelect g (RMenu rm) it x)));
      [apply calm_menu_close_active|apply calm_call_onSelect].
Qed.

Lemma calm_trigger fuel m : calm (trigger lb g fuel m).
Proof.
  intros s s' H. unfold trigger in H.
  destruct (activeItem s !! OMenu m) as [a|]; [|eapply calm_submit, H].
  destruct (hasPopup g a); [eapply calm_item_open, H|eapply calm_submit, H].
Qed.

Lemma calm_closeAll fuel m : calm (closeAll lb g fuel m).
Proof.
  unfold closeAll. destruct (root g fuel m) as [r|]; simpl; [|intros s s' [=]].
  destruct r as [[t|b|rm]|]; [| | |apply calm_ret].
  - apply calm_trigger_close.
  - apply calm_bar_close.
  - apply calm_menu_close_active.
Qed.

Lemma calm_collapse fuel m : calm (collapse lb g fuel m).
Proof.
  unfold collapse. destruct (root g fuel m) as [r|]; simpl; [|intros s s' [=]].
  assert (Hvia : calm (fun s => match r with
                                | Some (RBar b) => bar_prev lb g fuel b s
                                | _ => Some s
                                end)).
  { destruct r as [[t|b|rm]|]; try apply calm_ret. apply calm_bar_prev. }
  destruct (menu_parent g m) as [[t|p]|]; try exact Hvia.
  destruct (item_parent g p) as [[q|b]|]; try exact Hvia; apply calm_item_close.
Qed.

Lemma calm_expand fuel m : calm (expand lb g fuel m).
Proof.
  unfold expand. destruct (root g fuel m) as [r|]; simpl; [|intros s s' [=]].
  assert (Hvia : calm (fun s => match r with
                                | Some (RBar b) => bar_next lb g fuel b s
                                | _ => Some s
                                end)).
  { destruct r as [[t|b|rm]|]; try apply calm_ret. apply calm_bar_next. }
  intros s s' H. destruct (activeItem s !! OMenu m) as [a|]; [|eapply Hvia, H].
  destruct (hasPopup g a); [eapply calm_item_open, H|eapply Hvia, H].
Qed.

Lemma calm_onKeydown fuel m key : calm (onKeydown lb g fuel m key).
Proof.
  apply calm_handle. unfold keydownManager.
  repeat (apply Forall_cons; split; [intros k; simpl|]); try apply List.Forall_nil.
  - apply calm_next.
  - apply calm_prev.
  - apply calm_first.
  - apply calm_last.
  - apply calm_trigger.
  - apply calm_closeAll.
  - apply calm_expand.
  - apply calm_collapse.
  - apply calm_trigger.
  - apply calm_list_run.
Qed.

Lemma calm_bar_onKeydown fuel b key : calm (bar_onKeydown lb g fuel b key).
Proof.
  apply calm_handle. unfold bar_keydownManager.
  repeat (apply Forall_cons; split; [intros k; simpl|]); try apply List.Forall_nil.
  - apply calm_bar_next.
  - apply calm_bar_prev.
  - apply calm_list_run.
  - apply calm_list_run.
  - apply calm_active_open.
  - apply calm_active_open.
  - apply calm_active_open.
  - apply calm_active_open.
  - apply calm_list_run.
Qed.

Lemma calm_trigger_open fuel t opts : calm (trigger_open lb g fuel t opts).
Proof.
  unfold trigger_open.
  apply (calm_after (fun s => set_trigger_expanded ({[t]} ∪ trigger_expanded s) s)
           (fun s => if opt_first opts then
                       match trigger_menu g t with
                       | Some m => first lb g fuel m s
                       | None => Some s
                       end
                     else if opt_last opts then
                       match trigger_menu g t with
                       | Some m => last lb g fuel m s
                       | None => Some s
                       end
                     else Some s)).
  { intros s. repeat split. }
  destruct (opt_first opts).
  - destruct (trigger_menu g t); [apply calm_first|apply calm_ret].
  - destruct (opt_last opts); [|apply calm_ret].
    destruct (trigger_menu g t); [apply calm_last|apply calm_ret].
Qed.

Lemma calm_trigger_onKeydown fuel t key :
  calm (trigger_onKeydown lb g trigger_disabled fuel t key).
Proof.
  unfold trigger_onKeydown. destruct (negb (trigger_disabled t)); [|apply calm_ret].
  apply calm_handle. unfold trigger_keydownManager.
  repeat (apply Forall_cons; split; [intros k; simpl|]); try apply List.Forall_nil;
    try apply calm_trigger_open.
  apply calm_trigger_close.
Qed.

Lemma calm_trigger_onClick fuel t : calm (trigger_onClick lb g trigger_disabled fuel t).
Proof.
  intros s s' H. unfold trigger_onClick in H.
  destruct (negb (trigger_disabled t)); [|eapply calm_ret, H].
  destruct (bool_decide (t ∈ trigger_expanded s));
    [eapply calm_trigger_close, H|eapply calm_trigger_open, H].
Qed.

Lemma calm_trigger_onFocusOut fuel t related :
  calm (trigger_onFocusOut lb g fuel t related).
Proof.
  intros s s' H. unfold trigger_onFocusOut in H.
  destruct (_ && _ && _); [eapply calm_trigger_close, H|eapply calm_ret, H].
Qed.

Lemma calm_bar_goto fuel b item focusElement : calm (bar_goto lb g fuel b item focusElement).
Proof.
  intros s s' H. unfold bar_goto in H. revert H.
  set (prevItem := activeItem s !! OBar b).
  apply (calm_after (list_run g (lb_goto lb item focusElement) (OBar b))
           (fun s =>
              x ← match prevItem with
                   | Some p =>
                       if truthy (expanded g p s) then
                         y ← item_close lb g fuel p false s;
                         match activeItem y !! OBar b with
                         | Some a => item_open lb g fuel a no_opts y
                         | None => Some y
                         end
                       else Some s
                   | None => Some s
                   end;
              if bool_decide (prevItem = Some item) then
                if truthy (expanded g item x) then
                  match item_submenu g item with
                  | Some sub =>
                      match activeItem x !! OMenu sub with
                      | Some c =>
                          y ← item_close lb g fuel c false x;
                          Some (list_run g (lb_unfocus lb) (OMenu sub) y)
                      | None => Some x
                      end
                  | None => Some x
                  end
                else Some x
              else Some x)).
  { intros x. apply list_run_same_timers. }
  apply calm_bind.
  - destruct prevItem as [p|]; [|apply calm_ret].
    intros x x' H. destruct (truthy (expanded g p x)); [|eapply calm_ret, H].
    revert H. apply (calm_bind (item_close lb g fuel p false)
                       (fun y => match activeItem y !! OBar b with
                                 | Some a => item_open lb g fuel a no_opts y
                                 | None => Some y
                                 end)).
    + apply calm_item_close.
    + apply calm_active_open.
  - destruct (bool_decide (prevItem = Some item)); [|apply calm_ret].
    intros x x' H. destruct (truthy (expanded g item x)); [|eapply calm_ret, H].
    destruct (item_submenu g item) as [sub|]; [|eapply calm_ret, H].
    destruct (activeItem x !! OMenu sub) as [c|]; [|eapply calm_ret, H].
    revert H. apply (calm_bind (item_close lb g fuel c false)
                       (fun y => Some (list_run g (lb_unfocus lb) (OMenu sub) y))).
    + apply calm_item_close.
    + apply calm_list_run.
Qed.

Lemma calm_bar_onClick fuel b hit : calm (bar_onClick lb g fuel b hit).
Proof.
  unfold bar_onClick. destruct (List.find hit (bar_items g b)) as [item|]; [|apply calm_ret].
  apply calm_bind; [apply calm_bar_goto|].
  intros x x' H. destruct (truthy (expanded g item x));
    [eapply calm_item_close, H|eapply calm_item_open, H].
Qed.

Lemma calm_bar_onMouseOver fuel b hit : calm (bar_onMouseOver lb g fuel b hit).
Proof.
  intros s s' H. unfold bar_onMouseOver in H.
  destruct (List.find hit (bar_items g b)) as [item|];
    [eapply calm_bar_goto, H|eapply calm_ret, H].
Qed.

Lemma calm_bar_onFocusOut fuel b related : calm (bar_onFocusOut lb g fuel b related).
Proof.
  unfold bar_onFocusOut. destruct (negb (within related (ElBar b))); [|apply calm_ret].
  apply (calm_after (fun s => set_isFocused (isFocused s ∖ {[OBar b]}) s)
           (bar_close lb g fuel b)).
  - intros s. repeat split.
  - apply calm_bar_close.
Qed.

Lemma calm_parent_close fuel m refocus : calm (parent_close lb g fuel m refocus).
Proof.
  unfold parent_close. destruct (menu_parent g m) as [[t|p]|].
  - apply calm_trigger_close.
  - apply calm_item_close.
  - apply calm_ret.
Qed.

Lemma calm_onClick fuel m hit : calm (MenuHandlers.onClick lb g fuel m hit).
Proof.
  intros s s' H. unfold MenuHandlers.onClick in H.
  destruct (List.find hit (menu_items s m)) as [item|]; [|eapply calm_ret, H].
  revert H.
  apply (calm_bind (item_open lb g fuel item no_opts)
           (fun x => submit lb g fuel m (Some item)
                       (list_run g (lb_goto lb item None) (OMenu m) x))).
  - apply calm_item_open.
  - apply (calm_after (list_run g (lb_goto lb item None) (OMenu m))
             (submit lb g fuel m (Some item))).
    + intros x. apply list_run_same_timers.
    + apply calm_submit.
Qed.

Lemma calm_unfocused_parent_close fuel m refocus :
  calm (fun s => parent_close lb g fuel m refocus
                   (set_isFocused (isFocused s ∖ {[OMenu m]}) s)).
Proof.
  apply (calm_after (fun s => set_isFocused (isFocused s ∖ {[OMenu m]}) s)
           (parent_close lb g fuel m refocus)).
  - intros s. repeat split.
  - apply calm_parent_close.
Qed.

Lemma calm_onFocusOut fuel m related : calm (onFocusOut lb g fuel m related).
Proof.
  unfold onFocusOut. apply calm_bind.
  - destruct related; [apply calm_ret|apply calm_unfocused_parent_close].
  - intros x x' H. destruct (focused_sibling g m related x); [eapply calm_ret, H|].
    destruct (_ && _ && _);
      [eapply calm_unfocused_parent_close, H|eapply calm_ret, H].
Qed.

Lemma calm_onMouseOut fuel m inside : calm (onMouseOut lb g fuel m inside).
Proof.
  unfold onMouseOut.
  apply (calm_ext _ (fun s => x ← Some (_clearOpenTimeout m s);
                       if bool_decide (OMenu m ∈ isFocused x) then Some x
                       else r ← root g fuel m;
                            match r, menu_parent g m with
                            | Some _, Some (PItem p) =>
                                match item_parent g p with
                                | Some (OMenu _) =>
                                    if negb inside then item_close lb g fuel p false x
                                    else Some x
                                | _ => Some x
                                end
                            | _, _ => Some x
                            end)); [reflexivity|].
  apply calm_bind; [apply calm_clearOpen|].
  intros x x' H. destruct (bool_decide (OMenu m ∈ isFocused x)); [eapply calm_ret, H|].
  destruct (root g fuel m) as [r|]; simpl in H; [|discriminate].
  destruct r as [r|]; [|eapply calm_ret, H].
  destruct (menu_parent g m) as [[t|p]|]; try (eapply calm_ret, H).
  destruct (item_parent g p) as [[q|b]|]; try (eapply calm_ret, H).
  destruct (negb inside); [eapply calm_item_close, H|eapply calm_ret, H].
Qed.

(** A timer that fires runs its callback and is gone. *)
Lemma calm_fire fuel id : calm (fire lb g fuel id).
Proof.
  intros s s' H Hok. unfold fire in H.
  destruct (timers s !! id) as [cb|] eqn:Hid; [|eapply calm_ret; eassumption].
  set (x := set_timeouts (_openTimeout s) (_closeTimeout s) (delete id (timers s))
              (next_timer s) s) in H.
  assert (Hokx : timers_ok x).
  { destruct Hok as [H1 H2 O1 O2 H3 H4 H5]. constructor; simpl.
    - intros id' m' i' Hl. apply lookup_delete_Some in Hl as [_ Hl]. eauto.
    - intros id' m' i' Hl. apply lookup_delete_Some in Hl as [_ Hl]. eauto.
    - intros m' id' cb' Hm Hl. apply lookup_delete_Some in Hl as [_ Hl]. eauto.
    - intros m' id' cb' Hm Hl. apply lookup_delete_Some in Hl as [_ Hl]. eauto.
    - intros id' cb' Hl. apply lookup_delete_Some in Hl as [_ Hl]. eauto.
    - exact H4.
    - exact H5. }
  assert (Hlx : later s x).
  { split; [simpl; lia|]. intros id' cb' _ Hl. simpl in Hl.
    apply lookup_delete_Some in Hl as [_ Hl]. exact Hl. }
  assert (Hgone : forall id' cb', timers x !! id' = Some cb' -> id' <> id).
  { intros id' cb' Hl. simpl in Hl. apply lookup_delete_Some in Hl as [Hne _]. congruence. }
  destruct cb as [m i|m i].
  - destruct (item_open lb g fuel i no_opts x) as [y|] eqn:Hy; simpl in H; [|discriminate].
    injection H as <-.
    destruct (calm_item_open fuel i no_opts x y Hy Hokx) as (Hoky & Hly & Hny).
    split; [|split; [|simpl; rewrite Hny; reflexivity]].
    + destruct Hoky as [H1 H2 O1 O2 H3 H4 H5]. constructor; simpl.
      * intros id' m' i' Hl. destruct (decide (m' = m)) as [->|Hne].
        -- exfalso. destruct Hly as [_ Hly].
           assert (Hx : timers x !! id' = Some (CbOpen m i')).
           { apply Hly; [|exact Hl]. rewrite <- Hny. eapply H3, Hl. }
           pose proof (Hgone _ _ Hx) as Hne. simpl in Hx.
           apply lookup_delete_Some in Hx as [_ Hx].
           pose proof (open_stored s Hok _ _ _ Hx) as A.
           pose proof (open_stored s Hok _ _ _ Hid) as B. congruence.
        -- rewrite lookup_delete_ne by congruence. eauto.
      * eauto.
      * intros m' id' cb' Hm Hl. apply lookup_delete_Some in Hm as [_ Hm]. eauto.
      * exact O2.
      * exact H3.
      * intros m' id' Hl. apply lookup_delete_Some in Hl as [_ Hl]. eauto.
      * exact H5.
    + eapply later_trans; [exact Hlx|]. eapply later_trans; [exact Hly|].
      split; [simpl; lia|]. intros id' cb' _ Hl. exact Hl.
  - destruct (item_close lb g fuel i false x) as [y|] eqn:Hy; simpl in H; [|discriminate].
    injection H as <-.
    destruct (calm_item_close fuel i false x y Hy Hokx) as (Hoky & Hly & Hny).
    split; [|split; [|simpl; rewrite Hny; reflexivity]].
    + destruct Hoky as [H1 H2 O1 O2 H3 H4 H5]. constructor; simpl.
      * eauto.
      * intros id' m' i' Hl. destruct (decide (m' = m)) as [->|Hne].
        -- exfalso. destruct Hly as [_ Hly].
           assert (Hx : timers x !! id' = Some (CbClose m i')).
           { apply Hly; [|exact Hl]. rewrite <- Hny. eapply H3, Hl. }
           pose proof (Hgone _ _ Hx) as Hne. simpl in Hx.
           apply lookup_delete_Some in Hx as [_ Hx].
           pose proof (close_stored s Hok _ _ _ Hx) as A.
           pose proof (close_stored s Hok _ _ _ Hid) as B. congruence.
        -- rewrite lookup_delete_ne by congruence. eauto.
      * exact O1.
      * intros m' id' cb' Hm Hl. apply lookup_delete_Some in Hm as [_ Hm]. eauto.
      * exact H3.
      * exact H4.
      * intros m' id' Hl. apply lookup_delete_Some in Hl as [_ Hl]. eauto.
    + eapply later_trans; [exact Hlx|]. eapply later_trans; [exact Hly|].
      split; [simpl; lia|]. intros id' cb' _ Hl. exact Hl.
Qed.

(** Hovering a menu is the one handler that schedules timers. *)
Lemma onMouseOver_ok fuel m hit s s' :
  onMouseOver lb g fuel m hit s = Some s' -> timers_ok s -> timers_ok s' /\ later s s'.
Proof.
  intros H Hok.
  destruct (visible g m s) eqn:Hvis.
  - destruct (List.find hit (menu_items s m)) as [item|] eqn:Hfind.
    + split; [eapply onMouseOver_timers; eassumption|].
      destruct (onMouseOver_unfold lb g fuel m hit item s Hvis Hfind) as (x & Hx).
      destruct Hx as (Hx & E). destruct (Hx Hok) as (Hokx & Hlx & _).
      rewrite E in H.
      destruct (shouldFocus g fuel m (_openItem m item x)) as [focus|]; simpl in H;
        [|discriminate].
      injection H as <-.
      eapply later_trans; [exact Hlx|].
      eapply later_trans; [apply openItem_later|].
      apply same_timers_later, list_run_same_timers.
    + unfold onMouseOver in H. rewrite Hvis in H. simpl in H. rewrite Hfind in H.
      injection H as <-.
      split; [|apply same_timers_later; repeat split].
      eapply same_timers_ok; [|exact Hok]. repeat split.
  - unfold onMouseOver in H. rewrite Hvis in H. simpl in H. injection H as <-.
    split; [exact Hok|apply later_refl].
Qed.

Lemma dispatch_ok fuel e s s' :
  dispatch lb g trigger_disabled fuel e s = Some s' ->
  timers_ok s -> timers_ok s' /\ later s s'.
Proof.
  intros H Hok.
  assert (Hcalm : forall f, calm f -> f s = Some s' -> timers_ok s' /\ later s s').
  { intros f Hf Hs. destruct (Hf s s' Hs Hok) as (A & B & _). split; assumption. }
  destruct e; simpl in H.
  - eapply Hcalm; [apply calm_onKeydown|exact H].
  - eapply onMouseOver_ok; eassumption.
  - eapply Hcalm; [apply calm_onMouseOut|exact H].
  - eapply Hcalm; [apply calm_onClick|exact H].
  - injection H as <-. split; [|apply same_timers_later; repeat split].
    eapply same_timers_ok; [|exact Hok]. repeat split.
  - eapply Hcalm; [apply calm_onFocusOut|exact H].
  - eapply Hcalm; [apply calm_bar_onKeydown|exact H].
  - eapply Hcalm; [apply calm_bar_onClick|exact H].
  - eapply Hcalm; [apply calm_bar_onMouseOver|exact H].
  - injection H as <-. split; [|apply same_timers_later; repeat split].
    eapply same_timers_ok; [|exact Hok]. repeat split.
  - eapply Hcalm; [apply calm_bar_onFocusOut|exact H].
  - eapply Hcalm; [apply calm_trigger_onKeydown|exact H].
  - eapply Hcalm; [apply calm_trigger_onClick|exact H].
  - eapply Hcalm; [apply calm_trigger_onFocusOut|exact H].
  - eapply Hcalm; [apply calm_fire|exact H].
Qed.

(** The hover timers stay in order under every sequence of events: every
    pending timeout is the one its menu stores, so at most one open and one
    close timer per menu is pending, and clearing the two fields of a menu
    cancels all of its timers. *)
Theorem events_keep_the_timers_in_order fuel (es : list Event) (s s' : State) :
  timers_ok s ->
  run lb g trigger_disabled fuel es s = Some s' ->
  timers_ok s'
  /\ one_timer_per_menu s'
  /\ forall m, no_pending_timer m (_clearTimeouts m s').
Proof.
  intros Hok H.
  assert (Hok' : timers_ok s').
  { revert s Hok H. induction es as [|e es IH]; intros s Hok H; simpl in H.
    - injection H as <-. exact Hok.
    - destruct (dispatch lb g trigger_disabled fuel e s) as [x|] eqn:Hx; [|discriminate].
      apply (IH x); [|exact H]. eapply dispatch_ok; eassumption. }
  split; [exact Hok'|]. split; [apply one_timer_of_ok, Hok'|].
  intros m. apply empty_slots_no_pending.
  - apply clearTimeouts_ok, Hok'.
  - unfold _clearTimeouts.
    destruct (clearClose_fields m (_clearOpenTimeout m s')) as (E & _).
    rewrite E. apply clearOpen_slot.
  - apply clearClose_slot.
Qed.

End Invariants.

Import MenuExamples.

(** On the page: the trigger is clicked, the pointer moves over item 10,
    the open timer fires, the pointer moves on to the items 20 and 21 of the
    submenu and out of it, and Escape is pressed. *)
Lemma a_session_on_the_page :
  timers_ok (initial page_items)
  /\ exists s',
       run simple_list page (fun _ => false) 9
         [TriggerClick 0; MenuMouseOver 1 (Nat.eqb 10); TimerFires 1;
          MenuMouseOver 2 (Nat.eqb 20); MenuMouseOver 2 (Nat.eqb 21);
          MenuMouseOut 2 false; MenuKeydown 1 "Escape"] (initial page_items) = Some s'
       /\ timers_ok s'
       /\ one_timer_per_menu s'.
Proof.
  split; [exact (initial_timers_ok page_items)|].
  destruct (run simple_list page (fun _ => false) 9
              [TriggerClick 0; MenuMouseOver 1 (Nat.eqb 10); TimerFires 1;
               MenuMouseOver 2 (Nat.eqb 20); MenuMouseOver 2 (Nat.eqb 21);
               MenuMouseOut 2 false; MenuKeydown 1 "Escape"] (initial page_items)) as [s'|] eqn:H;
    [|vm_compute in H; discriminate].
  exists s'. split; [reflexivity|].
  destruct (events_keep_the_timers_in_order simple_list page (fun _ => false) 9 _
              (initial page_items) s' (initial_timers_ok page_items) H) as (A & B & _).
  split; assumption.
Defined.

End MenuInvariants.

(** ** Menus: closing, moving and clicking *)
Module MenuMoves.
Import Keys Menu MenuSpec TimerSpec MenuLoops MenuClose MenuEnter MenuTimers.
Import MenuHandlers HandlerSpec MenuExamples MenuPage.

Section Moves.
Variable lb : ListBehavior.
Variable g : Layout.


Lemma trigger_close_exact (t : nat) (refocus : bool) (s : State) :
  finitely_nested g (menu_items s) ->
  exists N s',
    (forall fuel, (N <= fuel)%nat -> trigger_close lb g fuel t refocus s = Some s')
    /\ (t ∉ trigger_expanded s')
    /\ (forall j, j ∈ expanded_items s' <->
          j ∈ expanded_items s /\ ~ under_trigger g (menu_items s) t j)
    /\ effects s' = effects s ++
                      (if refocus && trigger_element g t then [FocusTrigger t] else [])
    /\ same_timers s s'
    /\ forall m, menu_items s' m =
         if bool_decide (trigger_menu g t = Some m) then removelast (menu_items s m)
         else menu_items s m.
Proof.
  intros Hwf.
  destruct (trigger_close_terminates lb g t refocus s Hwf) as (N & s' & Hclose).
  exists N, s'. pose proof (Hclose N (Nat.le_refl N)) as HN.
  destruct (trigger_close_post _ _ _ _ _ _ _ HN) as (Ht & Hall & Hsub & He & _ & Hits).
  split; [exact Hclose|]. split; [exact Ht|].
  split; [|split; [exact He|split; [eapply trigger_close_same_timers, HN|]]].
  - intros j. split.
    + intros Hj. split; [apply Hsub, Hj|]. intros Hu. exact (Hall j Hu Hj).
    + intros [Hj Hout]. eapply trigger_close_keeps; eassumption.
  - intros m. rewrite Hits. unfold popped.
    destruct (trigger_menu g t) as [tm|].
    + destruct (Nat.eqb_spec m tm) as [->|Hne].
      * rewrite bool_decide_eq_true_2; reflexivity.
      * rewrite bool_decide_eq_false_2; [reflexivity|congruence].
    + rewrite bool_decide_eq_false_2; [reflexivity|discriminate].
Qed.


Lemma nav_closes_then_moves (f : nat -> nat -> State -> option State) (op : ListOp) :
  (forall fuel m s,
     f fuel m s = (x ← close_active lb g fuel m s; Some (list_run g op (OMenu m) x))) ->
  closes_then_moves g f op.
Proof.
  intros Hf m s Hwf.
  destruct (close_active_item lb g (OMenu m) false s Hwf)
    as (N & s1 & Hrun & Hexp & Hnone & He & Ht & _).
  exists N, (list_run g op (OMenu m) s1).
  split; [|split; [exact Hexp|split; [|split; [|split; assumption]]]].
  - intros fuel Hfuel. rewrite Hf. unfold close_active. rewrite (Hrun fuel Hfuel). reflexivity.
  - eexists. apply list_run_active.
  - intros Hno. rewrite (Hnone Hno). reflexivity.
Qed.

(** [MenuPattern.next], [prev], [first] and [last] return when the menus
    nest finitely; each collapses the chain of submenus under the item that
    was active, collapses nothing else and expands nothing, and hands the
    choice of the new active item to the list operation of the same name. *)
Theorem navigation_closes_the_active_chain :
  closes_then_moves g (next lb g) (lb_next lb)
  /\ closes_then_moves g (prev lb g) (lb_prev lb)
  /\ closes_then_moves g (first lb g) (lb_first lb)
  /\ closes_then_moves g (last lb g) (lb_last lb).
Proof.
  repeat split; apply nav_closes_then_moves; reflexivity.
Qed.

End Moves.



(** On the page: [next] in menu 1 with the chain under item 10 open. *)
Lemma navigation_on_the_page :
  finitely_nested page (menu_items deep_open)
  /\ exists N s',
       (forall fuel, (N <= fuel)%nat -> next simple_list page fuel 1 deep_open = Some s')
       /\ (forall j, j ∈ expanded_items s' <->
             j ∈ expanded_items deep_open
             /\ forall a, activeItem deep_open !! OMenu 1 = Some a ->
                  ~ reaches page (menu_items deep_open) a j)
       /\ trigger_expanded s' = trigger_expanded deep_open.
Proof.
  split; [exact page_finitely_nested|].
  destruct (navigation_closes_the_active_chain simple_list page) as (Hnext & _).
  destruct (Hnext 1%nat deep_open page_finitely_nested)
    as (N & s' & Hrun & Hexp & _ & _ & Ht & _).
  exists N, s'. split; [exact Hrun|]. split; [exact Hexp|exact Ht].
Defined.

End MenuMoves.

(** ** Menus: pointer and focus events *)
Module MenuPointer.
Import Keys Menu MenuSpec TimerSpec MenuLoops MenuClose MenuEnter MenuTimers.
Import MenuHandlers HandlerSpec MenuExamples MenuPage MenuMoves.

Ltac fields := simpl; repeat match goal with |- _ /\ _ => split end; try reflexivity.



Lemma clearOpen_same_open m s : same_open s (_clearOpenTimeout m s).
Proof. unfold same_open, _clearOpenTimeout. destruct (_openTimeout s !! m); fields. Qed.





Lemma clearOpen_fewer m s : fewer_timers s (_clearOpenTimeout m s).
Proof.
  unfold fewer_timers, _clearOpenTimeout. intros id cb.
  destruct (_openTimeout s !! m); simpl; [|auto].
  intros H. apply lookup_delete_Some in H as [_ H]. exact H.
Qed.

Lemma clearClose_fewer m s : fewer_timers s (_clearCloseTimeout m s).
Proof.
  unfold fewer_timers, _clearCloseTimeout. intros id cb.
  destruct (_closeTimeout s !! m); simpl; [|auto].
  intros H. apply lookup_delete_Some in H as [_ H]. exact H.
Qed.

Lemma fewer_timers_trans s1 s2 s3 :
  fewer_timers s1 s2 -> fewer_timers s2 s3 -> fewer_timers s1 s3.
Proof. unfold fewer_timers. eauto. Qed.

Lemma clearOpen_gone m s id :
  _openTimeout s !! m = Some id -> timers (_clearOpenTimeout m s) !! id = None.
Proof.
  intros H. unfold _clearOpenTimeout. rewrite H. simpl. apply lookup_delete_eq.
Qed.


Section Pointer.
Variable lb : ListBehavior.
Variable g : Layout.


Lemma item_open_no_opts fuel i s :
  item_open lb g fuel i no_opts s
  = Some (if disabled g i then s else set_expanded_items ({[i]} ∪ expanded_items s) s).
Proof. unfold item_open. destruct (disabled g i); reflexivity. Qed.

Lemma visit_fewer c i s : fewer_timers s (visit lb g c i s).
Proof.
  unfold visit.
  set (x := match item_parent g i with
            | Some o => list_run g (lb_unfocus lb) o
                          (set_expanded_items (expanded_items s ∖ {[i]}) s)
            | None => set_expanded_items (expanded_items s ∖ {[i]}) s
            end).
  assert (Hx : fewer_timers s x).
  { unfold x, fewer_timers. destruct (item_parent g i); simpl; auto. }
  destruct c; [|exact Hx].
  destruct (item_parent g i) as [[p|b]|]; try exact Hx.
  eapply fewer_timers_trans; [exact Hx|].
  eapply fewer_timers_trans; [apply clearOpen_fewer|apply clearClose_fewer].
Qed.

Lemma visit_keeps_open_none c k p s :
  _openTimeout s !! p = None -> _openTimeout (visit lb g c k s) !! p = None.
Proof.
  intros Hy. unfold visit.
  set (z := match item_parent g k with
            | Some o => list_run g (lb_unfocus lb) o
                          (set_expanded_items (expanded_items s ∖ {[k]}) s)
            | None => set_expanded_items (expanded_items s ∖ {[k]}) s
            end).
  assert (Hz : _openTimeout z !! p = None).
  { unfold z. destruct (item_parent g k); exact Hy. }
  destruct c; [|exact Hz].
  destruct (item_parent g k) as [[q|b]|]; try exact Hz.
  unfold _clearTimeouts.
  apply (clearClose_keeps_none q p (_clearOpenTimeout q z)).
  apply (clearOpen_keeps_none q p z). exact Hz.
Qed.

Lemma item_close_fewer fuel i refocus s s' :
  item_close lb g fuel i refocus s = Some s' ->
  fewer_timers s s'
  /\ forall p, _openTimeout s !! p = None -> _openTimeout s' !! p = None.
Proof.
  rewrite item_close_unfold. intros H.
  set (x := MenuSpec.before_loop lb g i refocus s) in *.
  assert (Hx : timers x = timers s /\ _openTimeout x = _openTimeout s).
  { unfold x, MenuSpec.before_loop. destruct refocus; [destruct (item_parent g i)|];
      split; reflexivity. }
  destruct Hx as [Hxt Hxo].
  destruct (item_submenu g i) as [sub|].
  - split.
    + apply (close_items_preserves lb g (fewer_timers s) true) with (n := fuel)
        (m := sub) (s := x); [| |exact H|].
      * intros k y Hy. eapply fewer_timers_trans; [exact Hy|apply visit_fewer].
      * intros m rest y Hy. exact Hy.
      * unfold fewer_timers. rewrite Hxt. auto.
    + intros p Hp.
      apply (close_items_preserves lb g (fun y => _openTimeout y !! p = None) true)
        with (n := fuel) (m := sub) (s := x); [| |exact H|].
      * intros k y Hy. apply visit_keeps_open_none, Hy.
      * intros m rest y Hy. exact Hy.
      * rewrite Hxo. exact Hp.
  - injection H as <-. split.
    + unfold fewer_timers. rewrite Hxt. auto.
    + intros p Hp. rewrite Hxo. exact Hp.
Qed.


(** After [MenuPattern.onMouseOut] the menu's open timer is cancelled: the
    field is empty, the timer it stored never runs, and no open timer of the
    menu is pending.  No timer is added, and a focused menu or one the
    pointer leaves towards its parent menu is otherwise left as it was. *)
Theorem mouse_out_cancels_the_open_timer fuel m inside s s' :
  onMouseOut lb g fuel m inside s = Some s' ->
  _openTimeout s' !! m = None
  /\ fewer_timers s s'
  /\ (forall id, _openTimeout s !! m = Some id ->
        timers s' !! id = None /\ forall n, fire lb g n id s' = Some s')
  /\ (timers_ok s -> forall id i, timers s' !! id = Some (CbOpen m i) -> False)
  /\ (OMenu m ∈ isFocused s \/ inside = true -> s' = _clearOpenTimeout m s).
Proof.
  intros H. unfold onMouseOut in H.
  set (x := _clearOpenTimeout m s) in H.
  assert (Hslot : _openTimeout x !! m = None) by apply clearOpen_slot.
  assert (Hfew : fewer_timers s x) by apply clearOpen_fewer.
  assert (Hfoc : isFocused x = isFocused s) by apply (clearOpen_same_open m s).
  assert (Hmain : _openTimeout s' !! m = None /\ fewer_timers x s'
                  /\ (OMenu m ∈ isFocused s \/ inside = true -> s' = x)).
  { destruct (bool_decide (OMenu m ∈ isFocused x)) eqn:Hf.
    { injection H as <-. unfold fewer_timers. auto. }
    assert (Hnf : OMenu m ∉ isFocused s).
    { rewrite <- Hfoc. intros Hin. apply bool_decide_eq_false in Hf. contradiction. }
    destruct (root g fuel m) as [r|]; simpl in H; [|discriminate].
    assert (Hsame : Some x = Some s' ->
                    _openTimeout s' !! m = None /\ fewer_timers x s'
                    /\ (OMenu m ∈ isFocused s \/ inside = true -> s' = x)).
    { intros [= <-]. unfold fewer_timers. auto. }
    destruct r as [r|]; [|destruct (menu_parent g m) as [[t|p]|]; apply Hsame, H].
    destruct (menu_parent g m) as [[t|p]|]; try (apply Hsame, H).
    destruct (item_parent g p) as [[q|b]|]; try (apply Hsame, H).
    destruct inside; simpl in H; [apply Hsame, H|].
    destruct (item_close_fewer _ _ _ _ _ H) as [A B].
    split; [apply B, Hslot|]. split; [exact A|].
    intros [Hin|Hd]; [contradiction|discriminate]. }
  destruct Hmain as (Hs' & Hfew' & Heq).
  assert (Hall : fewer_timers s s') by (eapply fewer_timers_trans; eassumption).
  split; [exact Hs'|]. split; [exact Hall|]. split; [|split; [|exact Heq]].
  - intros id Hid.
    assert (Hnone : timers s' !! id = None).
    { destruct (timers s' !! id) as [cb|] eqn:Hl; [|reflexivity].
      apply Hfew' in Hl. unfold x in Hl. rewrite (clearOpen_gone m s id Hid) in Hl.
      discriminate. }
    split; [exact Hnone|]. intros n. unfold fire. rewrite Hnone. reflexivity.
  - intros Hok id i Hl.
    pose proof (Hall _ _ Hl) as Hl0.
    pose proof (open_stored s Hok _ _ _ Hl0) as Hst.
    apply Hfew' in Hl. unfold x in Hl. rewrite (clearOpen_gone m s id Hst) in Hl.
    discriminate.
Qed.

End Pointer.


(** On the page: the pointer leaves submenu 2 for somewhere outside menu 1
    while an open timer for item 20 is pending. *)
Lemma leaving_submenu_2_on_the_page :
  exists s0 s',
    onMouseOver simple_list page 9 2 (Nat.eqb 20) deep_open = Some s0
    /\ _openTimeout s0 !! 2%nat = Some 1%nat
    /\ onMouseOut simple_list page 9 2 false s0 = Some s'
    /\ _openTimeout s' !! 2%nat = None
    /\ timers s' !! 1%nat = None.
Proof.
  eexists. eexists. split; [vm_compute; reflexivity|].
  split; [vm_compute; reflexivity|].
  split; [vm_compute; reflexivity|].
  match goal with
  | |- _openTimeout ?s' !! _ = None /\ _ =>
      destruct (mouse_out_cancels_the_open_timer simple_list page 9 2 false
                  (set_timeouts {[2%nat := 1%nat]} ∅ {[1%nat := CbOpen 2 20]} 2
                     (set_list (<[OMenu 2 := 20%nat]> (activeItem deep_open)) ∅ 
                        (set_hasBeenHovered {[2%nat]} deep_open))) s')
        as (A & _ & B & _)
  end.
  - vm_compute; reflexivity.
  - split; [exact A|]. apply (B 1%nat). vm_compute; reflexivity.
Defined.

End MenuPointer.

(** ** Menus: clicks on triggers and items, focus leaving a menu *)
Module MenuClicks.
Import Keys Menu MenuSpec TimerSpec MenuLoops MenuClose MenuEnter MenuTimers.
Import MenuHandlers HandlerSpec MenuExamples MenuPage MenuMoves MenuPointer.

Section ItemClicks.
Variable lb : ListBehavior.
Variable g : Layout.

Lemma submit_leaf fuel m it r s :
  root g fuel m = Some r ->
  disabled g it = false -> hasPopup g it = false ->
  submit lb g fuel m (Some it) s =
  match r with
  | Some (RTrigger t) => trigger_close lb g fuel t true s
  | Some (RBar b) => x ← bar_close lb g fuel b s; Some (call_onSelect g (RBar b) it x)
  | Some (RMenu rm) =>
      x ← match activeItem s !! OMenu rm with
           | Some a => item_close lb g fuel a true s
           | None => Some s
           end;
      Some (call_onSelect g (RMenu rm) it x)
  | None => Some s
  end.
Proof.
  intros Hr Hd Hp. unfold submit. rewrite Hr, Hd, Hp. simpl.
  destruct r as [[t|b|rm]|]; reflexivity.
Qed.

Lemma submit_nothing fuel m it r s :
  root g fuel m = Some r ->
  disabled g it = true \/ hasPopup g it = true ->
  submit lb g fuel m (Some it) s = Some s.
Proof.
  intros Hr H. unfold submit. rewrite Hr. simpl.
  destruct (disabled g it); simpl; [reflexivity|].
  destruct H as [H|H]; [discriminate|]. rewrite H. simpl.
  destruct r as [[t|b|rm]|]; reflexivity.
Qed.

(** [MenuPattern.onClick].  A click outside every item does nothing.  A
    click on a disabled item only moves the list to it.  A click on an
    enabled item with a submenu expands the item and moves the list to it,
    and submits nothing.  A click on an enabled item without a submenu
    submits it: under a trigger the trigger's menu is closed and the trigger
    focused if it has an element, under a menubar or a standalone root menu [onSelect] is called
    with the item's value when the root has the callback. *)
Theorem click_opens_or_submits (m : nat) (hit : nat -> bool) (s : State) n r :
  finitely_nested g (menu_items s) ->
  root g n m = Some r ->
  (List.find hit (menu_items s m) = None ->
     forall fuel, MenuHandlers.onClick lb g fuel m hit s = Some s)
  /\ forall item, List.find hit (menu_items s m) = Some item ->
     exists N s',
       (forall fuel, (N <= fuel)%nat -> MenuHandlers.onClick lb g fuel m hit s = Some s')
       /\ (disabled g item = true ->
             s' = list_run g (lb_goto lb item None) (OMenu m) s)
       /\ (disabled g item = false -> hasPopup g item = true ->
             s' = list_run g (lb_goto lb item None) (OMenu m)
                    (set_expanded_items ({[item]} ∪ expanded_items s) s)
             /\ expanded g item s' = Some true)
       /\ (disabled g item = false -> hasPopup g item = false ->
             match r with
             | Some (RTrigger t) =>
                 (t ∉ trigger_expanded s')
                 /\ (forall j, under_trigger g (menu_items s) t j -> j ∉ expanded_items s')
                 /\ effects s' = effects s ++
                                   (if trigger_element g t then [FocusTrigger t] else [])
             | Some (RBar b) =>
                 effects s' = effects s ++
                   (if bar_onSelect g b then [OnSelect (RBar b) (item_value g item)] else [])
             | Some (RMenu rm) =>
                 effects s' = effects s ++
                   (if menu_onSelect g rm then [OnSelect (RMenu rm) (item_value g item)]
                    else [])
             | None =>
                 s' = list_run g (lb_goto lb item None) (OMenu m)
                        (set_expanded_items ({[item]} ∪ expanded_items s) s)
             end).
Proof.
  intros Hwf Hr. split.
  { intros Hfind fuel. unfold MenuHandlers.onClick. rewrite Hfind. reflexivity. }
  intros item Hfind.
  assert (Hunf : forall fuel,
            MenuHandlers.onClick lb g fuel m hit s
            = submit lb g fuel m (Some item)
                (list_run g (lb_goto lb item None) (OMenu m)
                   (if disabled g item then s
                    else set_expanded_items ({[item]} ∪ expanded_items s) s))).
  { intros fuel. unfold MenuHandlers.onClick. rewrite Hfind, item_open_no_opts.
    reflexivity. }
  destruct (disabled g item) eqn:Hd.
  { exists n, (list_run g (lb_goto lb item None) (OMenu m) s).
    split; [|split; [reflexivity|split; discriminate]].
    intros fuel Hfuel. rewrite Hunf.
    apply (submit_nothing fuel m item r); [|left; exact Hd].
    eapply root_more_fuel; eassumption. }
  set (y := list_run g (lb_goto lb item None) (OMenu m)
              (set_expanded_items ({[item]} ∪ expanded_items s) s)) in *.
  destruct (hasPopup g item) eqn:Hp.
  { exists n, y. split; [|split; [discriminate|split; [|discriminate]]].
    - intros fuel Hfuel. rewrite Hunf.
      apply (submit_nothing fuel m item r); [|right; exact Hp].
      eapply root_more_fuel; eassumption.
    - intros _ _. split; [reflexivity|].
      unfold expanded. unfold hasPopup in Hp.
      destruct (item_submenu g item); [|discriminate].
      f_equal. apply bool_decide_eq_true. simpl. set_solver. }
  assert (Hsub : forall fuel, (n <= fuel)%nat ->
            MenuHandlers.onClick lb g fuel m hit s =
            match r with
            | Some (RTrigger t) => trigger_close lb g fuel t true y
            | Some (RBar b) =>
                x ← bar_close lb g fuel b y; Some (call_onSelect g (RBar b) item x)
            | Some (RMenu rm) =>
                x ← match activeItem y !! OMenu rm with
                     | Some a => item_close lb g fuel a true y
                     | None => Some y
                     end;
                Some (call_onSelect g (RMenu rm) item x)
            | None => Some y
            end).
  { intros fuel Hfuel. rewrite Hunf. apply submit_leaf; try assumption.
    eapply root_more_fuel; eassumption. }
  destruct r as [[t|b|rm]|].
  - destruct (trigger_close_terminates lb g t true y Hwf) as (N & s' & Hclose).
    exists (Nat.max n N), s'.
    pose proof (Hclose N (Nat.le_refl N)) as HN.
    destruct (trigger_close_post _ _ _ _ _ _ _ HN) as (Ht & Hall & _ & He & _).
    split; [|split; [discriminate|split; [discriminate|]]].
    + intros fuel Hfuel. rewrite Hsub by lia. apply Hclose. lia.
    + intros _ _. split; [exact Ht|]. split; [exact Hall|exact He].
  - destruct (bar_close_terminates lb g b y Hwf) as (N & s1 & Hclose & He & _).
    exists (Nat.max n N), (call_onSelect g (RBar b) item s1).
    split; [|split; [discriminate|split; [discriminate|]]].
    + intros fuel Hfuel. rewrite Hsub by lia. rewrite Hclose by lia. reflexivity.
    + intros _ _. rewrite call_onSelect_effects, He. reflexivity.
  - destruct (menu_close_active_terminates lb g rm y Hwf) as (N & s1 & Hclose & He & _).
    exists (Nat.max n N), (call_onSelect g (RMenu rm) item s1).
    split; [|split; [discriminate|split; [discriminate|]]].
    + intros fuel Hfuel. rewrite Hsub by lia. rewrite Hclose by lia. reflexivity.
    + intros _ _. rewrite call_onSelect_effects, He. reflexivity.
  - exists n, y. split; [exact Hsub|]. split; [discriminate|split; [discriminate|]].
    reflexivity.
Qed.




End ItemClicks.

Section TriggerClicks.
Variable lb : ListBehavior.
Variable g : Layout.
Variable trigger_disabled : nat -> bool.

(** [MenuTriggerPattern.onClick] toggles the menu.  A disabled trigger
    ignores clicks and keys.  A click on an expanded trigger collapses it
    with every item of its menu, without moving focus to the trigger, and
    leaves the trigger tabbable; a click on a collapsed trigger expands it,
    expands no item, and lets the list of its menu choose the first item. *)
Theorem trigger_click_toggles (t : nat) (s : State) :
  finitely_nested g (menu_items s) ->
  (trigger_disabled t = true ->
     forall fuel key,
       trigger_onClick lb g trigger_disabled fuel t s = Some s
       /\ trigger_onKeydown lb g trigger_disabled fuel t key s = Some s)
  /\ (trigger_disabled t = false ->
      exists N s',
        (forall fuel, (N <= fuel)%nat ->
           trigger_onClick lb g trigger_disabled fuel t s = Some s')
        /\ (t ∈ trigger_expanded s ->
              (t ∉ trigger_expanded s')
              /\ (forall j, j ∈ expanded_items s' <->
                    j ∈ expanded_items s /\ ~ under_trigger g (menu_items s) t j)
              /\ effects s' = effects s
              /\ trigger_tabIndex g t s' = 0)
        /\ (t ∉ trigger_expanded s ->
              t ∈ trigger_expanded s'
              /\ expanded_items s' ⊆ expanded_items s
              /\ effects s' = effects s
              /\ forall m, trigger_menu g t = Some m ->
                   exists v, activeItem s' !! OMenu m
                             = lv_active (lb_first lb g (OMenu m) (menu_items s' m) v))).
Proof.
  intros Hwf. split.
  { intros Hd fuel key. unfold trigger_onClick, trigger_onKeydown. rewrite Hd. auto. }
  intros Hd. unfold trigger_onClick. rewrite Hd. simpl.
  destruct (decide (t ∈ trigger_expanded s)) as [Hin|Hout].
  - rewrite bool_decide_eq_true_2 by exact Hin.
    destruct (trigger_close_exact lb g t false s Hwf)
      as (N & s' & Hclose & Ht & Hexp & He & _).
    simpl in He.
    exists N, s'. split; [exact Hclose|]. split; [|tauto].
    intros _. split; [exact Ht|]. split; [exact Hexp|].
    split; [rewrite He; apply app_nil_r|].
    unfold trigger_tabIndex. rewrite bool_decide_eq_false_2 by exact Ht. reflexivity.
  - rewrite bool_decide_eq_false_2 by exact Hout.
    set (x := set_trigger_expanded ({[t]} ∪ trigger_expanded s) s).
    destruct (trigger_menu g t) as [m|] eqn:Hm.
    + destruct (nav_closes_then_moves lb g (first lb g) (lb_first lb)
                  (fun _ _ _ => eq_refl) m x Hwf)
        as (N & s' & Hrun & Hexp & Hact & _ & Ht & He).
      exists N, s'. split; [|split; [tauto|]].
      * intros fuel Hfuel. unfold trigger_open. simpl. rewrite Hm. apply Hrun, Hfuel.
      * intros _. split; [rewrite Ht; simpl; set_solver|].
        split; [intros j Hj; apply Hexp in Hj; apply Hj|].
        split; [exact He|]. intros m' [= <-]. exact Hact.
    + exists 0%nat, x. split; [|split; [tauto|]].
      * intros fuel _. unfold trigger_open. simpl. rewrite Hm. reflexivity.
      * intros _. split; [simpl; set_solver|]. split; [reflexivity|].
        split; [reflexivity|]. intros m' [=].
Qed.

End TriggerClicks.

(** On the page: clicks on the items 11 (a leaf) and 10 (with a submenu) of
    the trigger's menu. *)
Lemma clicking_items_on_the_page :
  finitely_nested page (menu_items deep_open)
  /\ root page 5 1 = Some (Some (RTrigger 0))
  /\ exists N s',
       (forall fuel, (N <= fuel)%nat ->
          MenuHandlers.onClick simple_list page fuel 1 (Nat.eqb 11) deep_open = Some s')
       /\ (0%nat ∉ trigger_expanded s')
       /\ effects s' = effects deep_open ++ [FocusTrigger 0].
Proof.
  split; [exact page_finitely_nested|]. split; [reflexivity|].
  destruct (click_opens_or_submits simple_list page 1 (Nat.eqb 11) deep_open 5
              (Some (RTrigger 0)) page_finitely_nested eq_refl) as [_ H].
  destruct (H 11%nat eq_refl) as (N & s' & Hrun & _ & _ & Hleaf).
  exists N, s'. split; [exact Hrun|].
  destruct (Hleaf eq_refl eq_refl) as (A & _ & B). split; assumption.
Defined.


Lemma clicking_trigger_0_on_the_page :
  finitely_nested page (menu_items deep_open)
  /\ exists N s',
       (forall fuel, (N <= fuel)%nat ->
          trigger_onClick simple_list page (fun _ => false) fuel 0 deep_open = Some s')
       /\ (0%nat ∉ trigger_expanded s')
       /\ trigger_tabIndex page 0 s' = 0.
Proof.
  split; [exact page_finitely_nested|].
  destruct (trigger_click_toggles simple_list page (fun _ => false) 0 deep_open
              page_finitely_nested) as [_ H].
  destruct (H eq_refl) as (N & s' & Hrun & Hopen & _).
  exists N, s'. split; [exact Hrun|].
  assert (Hin : 0%nat ∈ trigger_expanded deep_open) by (vm_compute; set_solver).
  destruct (Hopen Hin) as (A & _ & _ & B). split; assumption.
Defined.

End MenuClicks.
